(** * MSCS532 Assignment 6: containers and selection algorithms

    A shallow embedding of [datastructures.py] and [selection_algorithms.py].

    Python integers are modelled by [Z], Python lists by [list] with Python's
    indexing rules (negative indices count from the end, anything else out of
    range raises [IndexError]).  Methods that mutate their object are
    computations in a state-and-exception monad whose state is the object. *)

From stdpp Require Import base tactics option list list_numbers numbers sorting strings.
From Stdlib Require Import ZArith Lia.

Local Open Scope Z_scope.

(** ** Exceptions, outcomes and the monad *)

(** The exception classes the sources raise, and those integer division and
    [random.randint] raise. *)
Inductive exn : Type :=
| IndexError
| OverflowError
| ZeroDivisionError
| ValueError.

(** The outcome of running a piece of code: a value, a raised exception, or
    the model's loop bound was reached before the code returned. *)
Inductive outcome (T : Type) : Type :=
| Ok (t : T)
| Raise (e : exn)
| OutOfFuel.

Arguments Ok {T} t.
Arguments Raise {T} e.
Arguments OutOfFuel {T}.

(** A computation over a mutable object of type [S]: the final state is the
    object as it is when the code returns or when the exception leaves it. *)
Definition M (S T : Type) : Type := S → outcome T * S.

Definition ret {S T} (t : T) : M S T := λ s, (Ok t, s).

Definition bind {S T U} (m : M S T) (f : T → M S U) : M S U :=
  λ s, match m s with
       | (Ok t, s') => f t s'
       | (Raise e, s') => (Raise e, s')
       | (OutOfFuel, s') => (OutOfFuel, s')
       end.

Definition raise {S T} (e : exn) : M S T := λ s, (Raise e, s).
Definition out_of_fuel {S T} : M S T := λ s, (OutOfFuel, s).
Definition get_state {S} : M S S := λ s, (Ok s, s).
Definition put_state {S} (s : S) : M S unit := λ _, (Ok tt, s).

(** A pure step that may raise. *)
Definition lift {S T} (o : outcome T) : M S T := λ s, (o, s).

(** Sequencing is written [x ← m; k] and [m;; k]. *)
#[global] Instance M_ret {S} : MRet (M S) := λ T, @ret S T.
#[global] Instance M_bind {S} : MBind (M S) := λ T U f m, @bind S T U m f.

(** [for x in xs: acc = body(x, acc)]: a loop over a list that threads the
    local variables [acc] the body reassigns. *)
Fixpoint for_each {S I T} (xs : list I) (body : I → T → M S T) (acc : T) : M S T :=
  match xs with
  | [] => mret acc
  | x :: xs' => acc' ← body x acc; for_each xs' body acc'
  end.

(** ** Python lists *)

(** [len(l)] *)
Definition len {A} (l : list A) : Z := Z.of_nat (length l).

(** The position a subscript [i] denotes in a list of [n] elements. *)
Definition py_index (n : nat) (i : Z) : option nat :=
  if bool_decide (0 ≤ i < Z.of_nat n) then Some (Z.to_nat i)
  else if bool_decide (- Z.of_nat n ≤ i < 0) then Some (Z.to_nat (Z.of_nat n + i))
  else None.

(** [l[i]] *)
Definition py_getitem {A} (l : list A) (i : Z) : outcome A :=
  match py_index (length l) i with
  | Some j => match l !! j with Some x => Ok x | None => Raise IndexError end
  | None => Raise IndexError
  end.

(** [l[i] = x] *)
Definition py_setitem {A} (l : list A) (i : Z) (x : A) : outcome (list A) :=
  match py_index (length l) i with
  | Some j => Ok (<[j:=x]> l)
  | None => Raise IndexError
  end.

(** [range(lo, hi)] *)
Definition py_range (lo hi : Z) : list Z := seqZ lo (hi - lo).

(** [range(lo, hi, step)] for a positive [step]. *)
Definition py_range_step (lo hi step : Z) : list Z :=
  (λ t, lo + step * t) <$> seqZ 0 ((hi - lo + step - 1) `div` step).

(** [range(hi, lo, -1)]: [hi, hi-1, ..., lo+1]. *)
Definition py_range_down (hi lo : Z) : list Z :=
  (λ t, hi - t) <$> seqZ 0 (hi - lo).

(** A bound of a slice, clamped as Python does. *)
Definition py_slice_bound (n : nat) (i : Z) : nat :=
  if bool_decide (i < 0) then Z.to_nat (Z.max 0 (Z.of_nat n + i))
  else Z.to_nat (Z.min i (Z.of_nat n)).

(** [l[i:j]] *)
Definition py_slice {A} (l : list A) (i j : Z) : list A :=
  let lo := py_slice_bound (length l) i in
  let hi := py_slice_bound (length l) j in
  take (hi - lo) (drop lo l).

(** [a % b] on integers: the remainder takes the sign of the divisor. *)
Definition py_mod (a b : Z) : outcome Z :=
  if bool_decide (b = 0) then Raise ZeroDivisionError else Ok (a `mod` b).

(** [[x] * n] *)
Definition py_repeat {A} (x : A) (n : Z) : list A := replicate (Z.to_nat n) x.

(** ** selection_algorithms.py *)

Section Selection.

(** The element type and Python's [<] on it. *)
Context {A : Type}.
Variable ltb : A → A → bool.

(** Reading and writing the list [a] the functions are handed. *)
Definition getitem (i : Z) : M (list A) A :=
  λ a, (py_getitem a i, a).

Definition setitem (i : Z) (x : A) : M (list A) unit :=
  λ a, match py_setitem a i x with
       | Ok a' => (Ok tt, a')
       | Raise e => (Raise e, a)
       | OutOfFuel => (OutOfFuel, a)
       end.

(** [a[x], a[y] = a[y], a[x]]: the right-hand side is evaluated left to
    right, then the targets are assigned left to right. *)
Definition swap (x y : Z) : M (list A) unit :=
  vy ← getitem y;
  vx ← getitem x;
  setitem x vy;;
  setitem y vx.

(** [_partition(a, low, high, pivot_index)] *)
Definition _partition (low high pivot_index : Z) : M (list A) Z :=
  swap pivot_index high;;
  pivot ← getitem high;
  i ← for_each (py_range low high)
        (λ j i,
           aj ← getitem j;
           if ltb aj pivot then swap i j;; mret (i + 1) else mret i)
        low;
  swap i high;;
  mret i.

(** Insertion of a keyed index before the first entry whose key is not
    smaller, comparing keys with [<] only: entries with equal keys keep the
    order they had, the first of them staying first. *)
Fixpoint insert_by_key (x : A * Z) (l : list (A * Z)) : list (A * Z) :=
  match l with
  | [] => [x]
  | y :: l' => if ltb y.1 x.1 then y :: insert_by_key x l' else x :: y :: l'
  end.

Fixpoint stable_sort (l : list (A * Z)) : list (A * Z) :=
  match l with
  | [] => []
  | x :: l' => insert_by_key x (stable_sort l')
  end.

(** [group.sort(key=a.__getitem__)]: the keys are computed first (any of
    them may raise), then the indices are sorted by key.  [list.sort] is
    stable, and for keys under a strict weak order every stable sort
    produces the same list, so a stable insertion sort stands for it. *)
Definition sort_by_key (group : list Z) : M (list A) (list Z) :=
  keys ← for_each group (λ i acc, v ← getitem i; mret (acc ++ [(v, i)])) [];
  mret ((stable_sort keys).*2).

(** The body of the [for i in range(0, len(indices), 5)] loop. *)
Definition median_of_group (indices : list Z) (i : Z) (new_indices : list Z)
  : M (list A) (list Z) :=
  group ← sort_by_key (py_slice indices i (i + 5));
  median ← lift (py_getitem group (len group `div` 2));
  mret (new_indices ++ [median]).

(** The [while len(indices) > 5] loop. *)
Fixpoint compress (fuel : nat) (indices : list Z) : M (list A) (list Z) :=
  if bool_decide (len indices > 5) then
    match fuel with
    | O => out_of_fuel
    | S fuel' =>
        new_indices ← for_each (py_range_step 0 (len indices) 5)
                        (median_of_group indices) [];
        compress fuel' new_indices
    end
  else mret indices.

(** [_median_of_medians(a, low, high)].  Every round of the loop shortens
    [indices], so its length bounds the number of rounds. *)
Definition _median_of_medians (low high : Z) : M (list A) Z :=
  let indices := py_range low (high + 1) in
  indices ← compress (length indices) indices;
  indices ← sort_by_key indices;
  lift (py_getitem indices (len indices `div` 2)).

(** The [while True] loop shared, line for line, by [select_deterministic]
    and [randomized_quickselect]; they differ in the pivot choice [pick]
    only.  [n] counts the iterations done so far. *)
Fixpoint select_loop (pick : nat → Z → Z → M (list A) Z)
    (fuel : nat) (n : nat) (k low high : Z) : M (list A) A :=
  match fuel with
  | O => out_of_fuel
  | S fuel' =>
      if bool_decide (low = high) then getitem low
      else
        pivot_idx ← pick n low high;
        pivot_idx ← _partition low high pivot_idx;
        if bool_decide (k = pivot_idx) then getitem k
        else if bool_decide (k < pivot_idx)
             then select_loop pick fuel' (S n) k low (pivot_idx - 1)
             else select_loop pick fuel' (S n) k (pivot_idx + 1) high
  end.

(** [select_deterministic(a, k)], the loop run for at most [fuel] rounds. *)
Definition select_deterministic (fuel : nat) (k : Z) : M (list A) A :=
  a ← get_state;
  select_loop (λ _, _median_of_medians) fuel 0 k 0 (len a - 1).

(** [random.randint(low, high)], called for the [n]-th time: it raises on an
    empty range, and otherwise returns [randint n low high], the value the
    random source yields at that call. *)
Definition random_randint (randint : nat → Z → Z → Z) (n : nat) (low high : Z)
  : M (list A) Z :=
  if bool_decide (low ≤ high) then mret (randint n low high) else raise ValueError.

(** [randomized_quickselect(a, k)], the loop run for at most [fuel] rounds. *)
Definition randomized_quickselect (randint : nat → Z → Z → Z)
    (fuel : nat) (k : Z) : M (list A) A :=
  a ← get_state;
  select_loop (random_randint randint) fuel 0 k 0 (len a - 1).

End Selection.

(** ** datastructures.py *)

(** Python's [None], a value like any other of the dynamic type [Any]. *)
Class HasNone (V : Type) := pyNone : V.

(** The integer [0] as a value of [Any]. *)
Class HasZero (V : Type) := pyZero : V.

(** *** class Array *)

Module Array.
Section Array.
Context {V : Type} `{!HasNone V}.

Record Array : Type := mkArray { _data : list V; _size : Z }.

(** [Array(capacity)] *)
Definition __init__ (capacity : Z) : Array :=
  {| _data := py_repeat pyNone capacity; _size := 0 |}.

(** [self._data[i]] *)
Definition get_data (i : Z) : M Array V :=
  λ self, (py_getitem (_data self) i, self).

(** [self._data[i] = v] *)
Definition set_data (i : Z) (v : V) : M Array unit :=
  λ self, match py_setitem (_data self) i v with
          | Ok d => (Ok tt, {| _data := d; _size := _size self |})
          | Raise e => (Raise e, self)
          | OutOfFuel => (OutOfFuel, self)
          end.

(** [self._size = n] *)
Definition set_size (n : Z) : M Array unit :=
  λ self, (Ok tt, {| _data := _data self; _size := n |}).

Definition _check_bounds (index : Z) : M Array unit :=
  self ← get_state;
  if negb (bool_decide (0 ≤ index < _size self)) then raise IndexError
  else mret tt.

Definition _make_room (index : Z) : M Array unit :=
  self ← get_state;
  for_each (py_range_down (_size self) index)
    (λ i _, v ← get_data (i - 1); set_data i v) tt.

Definition _close_gap (index : Z) : M Array unit :=
  self ← get_state;
  for_each (py_range index (_size self - 1))
    (λ i _, v ← get_data (i + 1); set_data i v) tt;;
  self ← get_state;
  set_data (_size self - 1) pyNone.

Definition insert (index : Z) (value : V) : M Array unit :=
  self ← get_state;
  if bool_decide (_size self = len (_data self)) then raise OverflowError
  else if negb (bool_decide (0 ≤ index ≤ _size self)) then raise IndexError
  else
    _make_room index;;
    set_data index value;;
    self ← get_state;
    set_size (_size self + 1).

Definition delete (index : Z) : M Array unit :=
  _check_bounds index;;
  _close_gap index;;
  self ← get_state;
  set_size (_size self - 1).

Definition access (index : Z) : M Array V :=
  _check_bounds index;;
  get_data index.

(** [len(self)] *)
Definition __len__ (self : Array) : Z := _size self.

(** The list [__repr__] shows: [[self._data[i] for i in range(self._size)]]. *)
Definition items : M Array (list V) :=
  self ← get_state;
  for_each (py_range 0 (_size self)) (λ i acc, v ← get_data i; mret (acc ++ [v])) [].

End Array.
Arguments Array : clear implicits.
End Array.

(** *** class Matrix *)

Module Matrix.
Section Matrix.
Context {V : Type} `{!HasNone V} `{!HasZero V}.

Record Matrix : Type := mkMatrix { _rows : list (Array.Array V) }.

(** Running a method of the row object stored at position [i] of a list of
    rows; the object is updated where it stands. *)
Definition on_row {T} (i : nat) (m : M (Array.Array V) T) : M (list (Array.Array V)) T :=
  λ rows, match rows !! i with
          | Some r => let '(o, r') := m r in (o, <[i:=r']> rows)
          | None => (Raise IndexError, rows)
          end.

(** [Matrix(rows, cols)]: the rows are built, each a fresh [Array(cols)],
    then filled with zeros through [Array.insert]. *)
Definition __init__ (rows cols : Z) : outcome Matrix :=
  let rows0 := replicate (Z.to_nat rows) (Array.__init__ cols) in
  match for_each (seq 0 (length rows0))
          (λ r _, on_row r (for_each (py_range 0 cols)
                              (λ c _, Array.insert c pyZero) tt)) tt rows0 with
  | (Ok _, rows1) => Ok {| _rows := rows1 |}
  | (Raise e, _) => Raise e
  | (OutOfFuel, _) => OutOfFuel
  end.

(** [self._rows[r]._data[c] = val] *)
Definition set (r c : Z) (val : V) : M Matrix unit :=
  λ self,
    match py_index (length (_rows self)) r with
    | Some i =>
        match _rows self !! i with
        | Some row =>
            match py_setitem (Array._data row) c val with
            | Ok d =>
                (Ok tt, {| _rows := <[i:={| Array._data := d;
                                             Array._size := Array._size row |}]>
                                      (_rows self) |})
            | Raise e => (Raise e, self)
            | OutOfFuel => (OutOfFuel, self)
            end
        | None => (Raise IndexError, self)
        end
    | None => (Raise IndexError, self)
    end.

(** [return self._rows[r]._data[c]] *)
Definition get (r c : Z) : M Matrix V :=
  λ self,
    match py_getitem (_rows self) r with
    | Ok row => (py_getitem (Array._data row) c, self)
    | Raise e => (Raise e, self)
    | OutOfFuel => (OutOfFuel, self)
    end.

End Matrix.
Arguments Matrix : clear implicits.
End Matrix.

(** *** class Stack *)

Module Stack.
Section Stack.
Context {V : Type}.

Record Stack : Type := mkStack { _s : list V }.

Definition __init__ : Stack := {| _s := [] |}.

(** [self._s.append(val)] *)
Definition push (val : V) : M Stack unit :=
  λ self, (Ok tt, {| _s := _s self ++ [val] |}).

(** [list.pop()]: the last element, removed from the list. *)
Definition list_pop (l : list V) : outcome (V * list V) :=
  match py_getitem l (-1) with
  | Ok x => Ok (x, take (length l - 1) l)
  | Raise e => Raise e
  | OutOfFuel => OutOfFuel
  end.

Definition pop : M Stack V :=
  self ← get_state;
  if bool_decide (_s self = []) then raise IndexError
  else λ self, match list_pop (_s self) with
               | Ok (x, l) => (Ok x, {| _s := l |})
               | Raise e => (Raise e, self)
               | OutOfFuel => (OutOfFuel, self)
               end.

Definition peek : M Stack V :=
  λ self, (py_getitem (_s self) (-1), self).

Definition __len__ (self : Stack) : Z := len (_s self).

End Stack.
Arguments Stack : clear implicits.
End Stack.

(** *** class Queue *)

Module Queue.
Section Queue.
Context {V : Type} `{!HasNone V}.

Record Queue : Type := mkQueue { _buf : list V; _head : Z; _tail : Z; _size : Z }.

(** [Queue(capacity)] *)
Definition __init__ (capacity : Z) : Queue :=
  {| _buf := py_repeat pyNone capacity; _head := 0; _tail := 0; _size := 0 |}.

(** [self._buf[i]] and [self._buf[i] = v] *)
Definition get_buf (i : Z) : M Queue V :=
  λ self, (py_getitem (_buf self) i, self).

Definition set_buf (i : Z) (v : V) : M Queue unit :=
  λ self, match py_setitem (_buf self) i v with
          | Ok b => (Ok tt, {| _buf := b; _head := _head self;
                               _tail := _tail self; _size := _size self |})
          | Raise e => (Raise e, self)
          | OutOfFuel => (OutOfFuel, self)
          end.

Definition enqueue (val : V) : M Queue unit :=
  self ← get_state;
  if bool_decide (_size self = len (_buf self)) then raise OverflowError
  else
    set_buf (_tail self) val;;
    self ← get_state;
    tail ← lift (py_mod (_tail self + 1) (len (_buf self)));
    put_state {| _buf := _buf self; _head := _head self;
                 _tail := tail; _size := _size self |};;
    self ← get_state;
    put_state {| _buf := _buf self; _head := _head self;
                 _tail := _tail self; _size := _size self + 1 |}.

Definition dequeue : M Queue V :=
  self ← get_state;
  if bool_decide (_size self = 0) then raise IndexError
  else
    val ← get_buf (_head self);
    set_buf (_head self) pyNone;;
    self ← get_state;
    head ← lift (py_mod (_head self + 1) (len (_buf self)));
    put_state {| _buf := _buf self; _head := head;
                 _tail := _tail self; _size := _size self |};;
    self ← get_state;
    put_state {| _buf := _buf self; _head := _head self;
                 _tail := _tail self; _size := _size self - 1 |};;
    mret val.

Definition __len__ (self : Queue) : Z := _size self.

(** The list [__repr__] shows, in logical order:
    [[self._buf[(self._head + i) % len(self._buf)] for i in range(self._size)]]. *)
Definition items : M Queue (list V) :=
  self ← get_state;
  for_each (py_range 0 (_size self))
    (λ i acc, j ← lift (py_mod (_head self + i) (len (_buf self)));
              v ← get_buf j; mret (acc ++ [v])) [].

End Queue.
Arguments Queue : clear implicits.
End Queue.

(** *** class Node, class LinkedList *)

Module LinkedList.
Section LinkedList.
Context {V : Type}.

(** A link is [None] or a [Node(value, next)]. *)
Inductive link : Type :=
| null
| Node (value : V) (next : link).

Record LinkedList : Type := mkLinkedList { head : link }.

Definition __init__ : LinkedList := {| head := null |}.

(** The list owns its chain and hands out no node, so a reference to a node
    is the number of [next] steps that reach it from [head]. *)
Fixpoint node_ref (l : link) (depth : nat) : link :=
  match depth, l with
  | O, _ => l
  | S d, Node _ nxt => node_ref nxt d
  | S _, null => null
  end.

(** [prev.next], for the node [prev] at [depth]. *)
Definition next_of (l : link) (depth : nat) : link :=
  match node_ref l depth with
  | Node _ nxt => nxt
  | null => null
  end.

(** [prev.next = new], for the node [prev] at [depth]. *)
Fixpoint set_next (l : link) (depth : nat) (new : link) : link :=
  match l with
  | null => null
  | Node v nxt =>
      match depth with
      | O => Node v new
      | S d => Node v (set_next nxt d new)
      end
  end.

(** The loop of [_node_at]: [while cur and i < pos: cur, i = cur.next, i + 1];
    the answer is the depth reached, or nothing when [cur] ends as [None]. *)
Fixpoint node_at_loop (cur : link) (i pos : Z) (depth : nat) : option nat :=
  match cur with
  | null => None
  | Node _ nxt =>
      if bool_decide (i < pos) then node_at_loop nxt (i + 1) pos (S depth)
      else Some depth
  end.

Definition _node_at (pos : Z) : M LinkedList nat :=
  self ← get_state;
  match node_at_loop (head self) 0 pos 0 with
  | Some cur => mret cur
  | None => raise IndexError
  end.

Definition insert (pos : Z) (value : V) : M LinkedList unit :=
  if bool_decide (pos = 0) then
    self ← get_state;
    put_state {| head := Node value (head self) |}
  else
    prev ← _node_at (pos - 1);
    self ← get_state;
    put_state {| head := set_next (head self) prev
                           (Node value (next_of (head self) prev)) |}.

Definition delete (pos : Z) : M LinkedList unit :=
  if bool_decide (pos = 0) then
    self ← get_state;
    match head self with
    | null => raise IndexError
    | Node _ nxt => put_state {| head := nxt |}
    end
  else
    prev ← _node_at (pos - 1);
    self ← get_state;
    match next_of (head self) prev with
    | null => raise IndexError
    | Node _ nxt => put_state {| head := set_next (head self) prev nxt |}
    end.

(** The values [traverse] yields, in order. *)
Fixpoint values (l : link) : list V :=
  match l with
  | null => []
  | Node v nxt => v :: values nxt
  end.

Definition traverse (self : LinkedList) : list V := values (head self).

End LinkedList.
Arguments link : clear implicits.
Arguments LinkedList : clear implicits.
End LinkedList.

(** *** class TreeNode *)

Module TreeNode.
Section TreeNode.
Context {V : Type}.

(** A node object: its value and the references to its children.  A node
    is reached and changed through any reference to it, after it was made a
    child of another node as well as before, so the objects live in a store
    and a reference is a position in the store. *)
Record TreeNode : Type := mkTreeNode { value : V; children : list nat }.

(** [TreeNode(value)]: a new object with no children; the result is the
    reference to it and the store that holds it. *)
Definition __init__ (value : V) (h : list TreeNode) : nat * list TreeNode :=
  (length h, h ++ [{| value := value; children := [] |}]).

(** [self.children.append(node)].  There is no answer for a reference that
    names no object of the store, which Python cannot produce. *)
Definition add_child (self node : nat) (h : list TreeNode) : option (list TreeNode) :=
  match h !! self with
  | Some n => Some (<[self := {| value := value n; children := children n ++ [node] |}]> h)
  | None => None
  end.

(** What running a traversal to its end gives: the values it yields, or the
    bound on the nesting of calls was reached first, or a reference named no
    object. *)
Inductive traversal : Type :=
| Yields (vs : list V)
| Unfinished
| NoSuchNode.

(** [list(self.dfs())]: the generator yields the node's value, then all that
    the generator of each child yields, child after child.  [fuel] bounds the
    nesting of the recursive calls. *)
Fixpoint dfs (fuel : nat) (h : list TreeNode) (self : nat) : traversal :=
  match fuel with
  | O => Unfinished
  | S fuel' =>
      match h !! self with
      | None => NoSuchNode
      | Some n =>
          match
            (fix each (cs : list nat) : traversal :=
               match cs with
               | [] => Yields []
               | child :: cs' =>
                   match dfs fuel' h child with
                   | Yields vs =>
                       match each cs' with
                       | Yields ws => Yields (vs ++ ws)
                       | t => t
                       end
                   | t => t
                   end
               end) (children n)
          with
          | Yields vs => Yields (value n :: vs)
          | t => t
          end
      end
  end.

End TreeNode.
Arguments TreeNode : clear implicits.
Arguments traversal : clear implicits.
End TreeNode.

(** ** Vocabulary of the specification *)

(** [x <= y] for a total order given by its [<]. *)
Definition py_le {A} (ltb : A → A → bool) (x y : A) : Prop := ltb y x = false.

#[global] Instance py_le_dec {A} (ltb : A → A → bool) x y : Decision (py_le ltb x y).
Proof. unfold py_le. apply _. Defined.

(** Everything before position [c] is at most everything from [c] on. *)
Definition split_at {A} (ltb : A → A → bool) (a : list A) (c : Z) : Prop :=
  ∀ t u x y, 0 ≤ t < c → c ≤ u →
    a !! Z.to_nat t = Some x → a !! Z.to_nat u = Some y → py_le ltb x y.

(** A pivot choice that reads the list and answers inside the range. *)
Definition picks_in_range {A} (pick : nat → Z → Z → M (list A) Z) : Prop :=
  ∀ n low high a, 0 ≤ low → low ≤ high → high < len a →
    ∃ p, pick n low high a = (Ok p, a) ∧ low ≤ p ≤ high.

(** [s] is the sorted arrangement of the elements of [a]. *)
Definition sorted_arrangement {A} (ltb : A → A → bool) (a s : list A) : Prop :=
  s ≡ₚ a ∧ Sorted (py_le ltb) s.

(** The docstring's pivot quality: at least 30% of the elements of
    [a[low:high+1]] are at most [a[p]], and at least 30% are at least
    [a[p]]. *)
Definition good_pivot {A} (ltb : A → A → bool) (a : list A) (low high p : Z) : Prop :=
  ∃ pivot, py_getitem a p = Ok pivot ∧
    let r := py_slice a low (high + 1) in
    3 * len r ≤ 10 * len (filter (λ x, py_le ltb x pivot) r) ∧
    3 * len r ≤ 10 * len (filter (λ x, py_le ltb pivot x) r).

(** The invariant of the class: the logical size fits the buffer. *)
Definition array_wf {V} (self : Array.Array V) : Prop :=
  0 ≤ Array._size self ≤ len (Array._data self).

(** The operations a client may call, and the queue run over a sequence of
    them; the result lists what each call returned ([enqueue] returns
    nothing). *)
Inductive queue_op (V : Type) : Type :=
| Enqueue (val : V)
| Dequeue.
Arguments Enqueue {V} val.
Arguments Dequeue {V}.

Definition queue_step {V} `{!HasNone V} (o : queue_op V) : M (Queue.Queue V) (option V) :=
  match o with
  | Enqueue val => Queue.enqueue val;; mret None
  | Dequeue => val ← Queue.dequeue; mret (Some val)
  end.

Definition queue_run {V} `{!HasNone V} (ops : list (queue_op V))
  : M (Queue.Queue V) (list (option V)) :=
  for_each ops (λ o acc, r ← queue_step o; mret (acc ++ [r])) [].

(** The reference the queue is compared with, following the spec's words: a
    simple unbounded list-based queue; [enqueue] appends, [dequeue] takes the
    first element. *)
Definition list_queue_step {V} (o : queue_op V) (m : list V) : option V * list V :=
  match o with
  | Enqueue val => (None, m ++ [val])
  | Dequeue => (head m, tail m)
  end.

Fixpoint list_queue_run {V} (ops : list (queue_op V)) (m : list V)
  : list (option V) * list V :=
  match ops with
  | [] => ([], m)
  | o :: ops' =>
      let '(r, m') := list_queue_step o m in
      let '(rs, m'') := list_queue_run ops' m' in
      (r :: rs, m'')
  end.

(** [enqueue] is never called on a full queue, [dequeue] never on an empty
    one. *)
Fixpoint admissible {V} (capacity : Z) (ops : list (queue_op V)) (m : list V) : Prop :=
  match ops with
  | [] => True
  | Enqueue val :: ops' => len m < capacity ∧ admissible capacity ops' (m ++ [val])
  | Dequeue :: ops' => m ≠ [] ∧ admissible capacity ops' (tail m)
  end.

(** Slot [j] of the buffer lies in the logical window
    [[head, head + size)], taken modulo the capacity. *)
Definition in_window {V} (q : Queue.Queue V) (j : nat) : Prop :=
  ∃ i, 0 ≤ i < Queue._size q ∧
       Z.of_nat j = (Queue._head q + i) `mod` len (Queue._buf q).

(** Every slot outside the window holds [None]. *)
Definition cleared {V} `{!HasNone V} (q : Queue.Queue V) : Prop :=
  ∀ j : nat, (j < length (Queue._buf q))%nat → ¬ in_window q j →
    Queue._buf q !! j = Some pyNone.

(** The queue holds the elements of [m], oldest at [head], and [None]
    everywhere else. *)
Definition queue_holds {V} `{!HasNone V} (q : Queue.Queue V) (m : list V) : Prop :=
  let cap := len (Queue._buf q) in
  Queue._size q = len m ∧ Queue._size q ≤ cap ∧
  (cap = 0 → Queue._head q = 0 ∧ Queue._tail q = 0) ∧
  (0 < cap → 0 ≤ Queue._head q < cap ∧
             Queue._tail q = (Queue._head q + Queue._size q) `mod` cap) ∧
  ∀ j : nat, (j < length (Queue._buf q))%nat →
    Queue._buf q !! j
    = Some (default pyNone (m !! Z.to_nat ((Z.of_nat j - Queue._head q) `mod` cap))).

(** Values for worked examples: [None], integers and strings. *)
Inductive pyval : Type :=
| PyNone
| PyInt (n : Z)
| PyStr (s : string).

#[global] Instance pyval_none : HasNone pyval := PyNone.
#[global] Instance pyval_zero : HasZero pyval := PyInt 0.

(** If running [m] on [s] raises, the object is left as [s]. *)
Definition raises_cleanly {St T} (m : M St T) (s : St) : Prop :=
  ∀ e s', m s = (Raise e, s') → s' = s.

(** A matrix of [rows] rows, each an array whose buffer of [cols] slots is
    full. *)
Definition matrix_shape {V} (rows cols : Z) (m : Matrix.Matrix V) : Prop :=
  len (Matrix._rows m) = rows ∧
  Forall (λ row, len (Array._data row) = cols ∧ Array._size row = cols)
    (Matrix._rows m).

(** A row of [cols] zeros, full. *)
Definition zero_row {V} `{!HasZero V} (cols : Z) : Array.Array V :=
  {| Array._data := replicate (Z.to_nat (Z.max 0 cols)) pyZero;
     Array._size := Z.max 0 cols |}.

(** The position a subscript within [[-n, n)] stands for: negative ones
    count from the end. *)
Definition from_end (n i : Z) : nat :=
  Z.to_nat (if bool_decide (i < 0) then n + i else i).

(** ** Vocabulary of the further properties *)

(** A strict weak order: [<] is irreflexive and transitive, and so is "not
    smaller than"; elements that are not equal may tie, as records compared
    by one field do.  These are the comparisons for which the result of
    [list.sort] is fixed by its being stable, and [sort_by_key] is that
    result. *)
Definition strict_weak_order {A} (ltb : A → A → bool) : Prop :=
  (∀ x, ltb x x = false) ∧
  (∀ x y z, ltb x y = true → ltb y z = true → ltb x z = true) ∧
  (∀ x y z, ltb x y = false → ltb y z = false → ltb x z = false).

(** Two elements tie when neither is smaller than the other. *)
Definition tied {A} (ltb : A → A → bool) (x y : A) : bool :=
  negb (ltb x y) && negb (ltb y x).

(** The slots of an array's buffer from [_size] on hold [None], as they do
    after [Array(capacity)] and after every [insert] and [delete]. *)
Definition array_clean {V} `{!HasNone V} (self : Array.Array V) : Prop :=
  array_wf self ∧
  ∀ j : nat, Array._size self ≤ Z.of_nat j → (j < length (Array._data self))%nat →
    Array._data self !! j = Some pyNone.

(** The tree that hangs from a node of the store: for each node its
    reference, its value and the trees of its children, in order. *)
#[warnings="-register-all"]
Inductive shape (V : Type) : Type :=
| Shape (ref : nat) (val : V) (kids : list (shape V)).
Arguments Shape {V} ref val kids.

Definition root {V} (s : shape V) : nat :=
  match s with Shape r _ _ => r end.

(** The store holds the tree [s]: the node at its root has the value and
    the children [s] says, and so on below. *)
Fixpoint describes {V} (h : list (TreeNode.TreeNode V)) (s : shape V) : Prop :=
  match s with
  | Shape r v kids =>
      h !! r = Some {| TreeNode.value := v; TreeNode.children := root <$> kids |} ∧
      (fix all (ks : list (shape V)) : Prop :=
         match ks with
         | [] => True
         | k :: ks' => describes h k ∧ all ks'
         end) kids
  end.

(** The values of a tree in pre-order: a node before its descendants, the
    children from first to last. *)
Fixpoint preorder {V} (s : shape V) : list V :=
  match s with
  | Shape _ v kids => v :: concat (preorder <$> kids)
  end.

(** The references of the nodes of a tree, and the number of nodes on its
    longest branch. *)
Fixpoint refs {V} (s : shape V) : list nat :=
  match s with
  | Shape r _ kids => r :: concat (refs <$> kids)
  end.

Fixpoint height {V} (s : shape V) : nat :=
  match s with
  | Shape _ _ kids => S (foldr Nat.max 0%nat (height <$> kids))
  end.

(** The number of nodes of a tree. *)
Fixpoint nodes {V} (s : shape V) : nat :=
  match s with
  | Shape _ _ kids => S (foldr Nat.add 0%nat (nodes <$> kids))
  end.

(** The children loop of [dfs], on its own. *)
Definition dfs_each {V} (fuel : nat) (h : list (TreeNode.TreeNode V))
  : list nat → TreeNode.traversal V :=
  fix each (cs : list nat) : TreeNode.traversal V :=
    match cs with
    | [] => TreeNode.Yields []
    | child :: cs' =>
        match TreeNode.dfs fuel h child with
        | TreeNode.Yields vs =>
            match each cs' with
            | TreeNode.Yields ws => TreeNode.Yields (vs ++ ws)
            | t => t
            end
        | t => t
        end
    end.

(** * Properties *)

Example partition_demo :
  _partition Z.ltb 0 4 2 [3; 1; 2; 5; 0] = (Ok 2, [1; 0; 2; 5; 3]).
Proof. reflexivity. Qed.

Example mom_demo :
  _median_of_medians Z.ltb 0 6 [30; 10; 20; 50; 0; 70; 60] = (Ok 5, [30; 10; 20; 50; 0; 70; 60]).
Proof. vm_compute. reflexivity. Qed.

Example sort_by_key_is_stable :
  sort_by_key Z.ltb [3; 0; 2; 1] [7; 7; 5; 7] = (Ok [2; 3; 0; 1], [7; 7; 5; 7]).
Proof. vm_compute. reflexivity. Qed.

Example select_demo :
  (select_deterministic Z.ltb 7 3 [30; 10; 20; 50; 0; 70; 60]).1 = Ok 30.
Proof. vm_compute. reflexivity. Qed.

(** ** Running computations *)

Lemma run_bind {S T U} (m : M S T) (f : T → M S U) s :
  (m ≫= f) s = match m s with
               | (Ok t, s') => f t s'
               | (Raise e, s') => (Raise e, s')
               | (OutOfFuel, s') => (OutOfFuel, s')
               end.
Proof. reflexivity. Qed.

Lemma run_bind_ok {S T U} (m : M S T) (f : T → M S U) s t s' :
  m s = (Ok t, s') → (m ≫= f) s = f t s'.
Proof. intros H. rewrite run_bind, H. reflexivity. Qed.

Lemma run_ret {S T} (t : T) (s : S) : mret (M := M S) t s = (Ok t, s).
Proof. reflexivity. Qed.

(** ** Facts on Python subscripts *)

Lemma py_index_nonneg n i :
  0 ≤ i < Z.of_nat n → py_index n i = Some (Z.to_nat i).
Proof. intros. unfold py_index. rewrite bool_decide_eq_true_2; auto. Qed.

Lemma py_index_neg n i :
  - Z.of_nat n ≤ i < 0 → py_index n i = Some (Z.to_nat (Z.of_nat n + i)).
Proof.
  intros. unfold py_index.
  rewrite bool_decide_eq_false_2 by lia. rewrite bool_decide_eq_true_2; auto.
Qed.

Lemma py_index_out n i :
  i < - Z.of_nat n ∨ Z.of_nat n ≤ i → py_index n i = None.
Proof.
  intros. unfold py_index. rewrite !bool_decide_eq_false_2 by lia. reflexivity.
Qed.

Lemma py_index_lt n i j : py_index n i = Some j → (j < n)%nat.
Proof.
  unfold py_index. repeat case_bool_decide; intros; simplify_eq; lia.
Qed.

Lemma py_getitem_nonneg {A} (l : list A) i x :
  0 ≤ i → l !! Z.to_nat i = Some x → py_getitem l i = Ok x.
Proof.
  intros Hi Hx. unfold py_getitem.
  rewrite py_index_nonneg, Hx; [done|].
  apply lookup_lt_Some in Hx. lia.
Qed.

Lemma py_getitem_Ok {A} (l : list A) i x :
  py_getitem l i = Ok x →
  ∃ j, py_index (length l) i = Some j ∧ l !! j = Some x.
Proof.
  unfold py_getitem. destruct (py_index _ _) as [j|]; [|done].
  destruct (l !! j) eqn:E; [|done]. intros; simplify_eq. eauto.
Qed.

Lemma py_getitem_out {A} (l : list A) i :
  i < - len l ∨ len l ≤ i → py_getitem l i = Raise IndexError.
Proof.
  intros. unfold py_getitem. rewrite py_index_out; [done|]. unfold len in *. lia.
Qed.

Lemma py_setitem_nonneg {A} (l : list A) i x :
  0 ≤ i < len l → py_setitem l i x = Ok (<[Z.to_nat i:=x]> l).
Proof. intros. unfold py_setitem. rewrite py_index_nonneg; done. Qed.

Lemma elem_of_py_range lo hi j : j ∈ py_range lo hi ↔ lo ≤ j < hi.
Proof. unfold py_range. rewrite elem_of_seqZ. lia. Qed.

Lemma py_range_cons lo hi : lo < hi → py_range lo hi = lo :: py_range (lo + 1) hi.
Proof.
  intros. unfold py_range. rewrite seqZ_cons by lia. repeat f_equal; lia.
Qed.

Lemma py_range_nil lo hi : hi ≤ lo → py_range lo hi = [].
Proof. intros. unfold py_range. apply seqZ_nil. lia. Qed.

(** ** The partition primitive *)

Section PartitionFacts.
Context {A : Type}.
Variable ltb : A → A → bool.
Implicit Types a : list A.

Lemma getitem_run a i x :
  0 ≤ i → a !! Z.to_nat i = Some x → getitem i a = (Ok x, a).
Proof. intros. unfold getitem. by erewrite py_getitem_nonneg. Qed.

Lemma setitem_run a i x :
  0 ≤ i < len a → setitem i x a = (Ok tt, <[Z.to_nat i:=x]> a).
Proof. intros. unfold setitem. by rewrite py_setitem_nonneg. Qed.

Lemma swap_run a x y vx vy :
  0 ≤ x → 0 ≤ y →
  a !! Z.to_nat x = Some vx → a !! Z.to_nat y = Some vy →
  swap x y a = (Ok tt, <[Z.to_nat y:=vx]> (<[Z.to_nat x:=vy]> a)).
Proof.
  intros Hx Hy Hvx Hvy. unfold swap.
  erewrite run_bind_ok by (by apply getitem_run).
  erewrite run_bind_ok by (by apply getitem_run).
  pose proof (lookup_lt_Some _ _ _ Hvx). pose proof (lookup_lt_Some _ _ _ Hvy).
  erewrite run_bind_ok by (apply setitem_run; unfold len; lia).
  rewrite setitem_run; [done|]. unfold len. rewrite length_insert. lia.
Qed.

(** The loop of [_partition], started at [j] with write cursor [i]: what is
    below [i] is smaller than the pivot, what lies in [[i, j)] is not, and the
    pivot waits at [high]. *)
Lemma partition_loop_spec pivot low high (n : nat) : ∀ j i a,
  0 ≤ low → low ≤ i ≤ j → j + Z.of_nat n = high → high < len a →
  a !! Z.to_nat high = Some pivot →
  (∀ t x, low ≤ t < i → a !! Z.to_nat t = Some x → ltb x pivot = true) →
  (∀ t x, i ≤ t < j → a !! Z.to_nat t = Some x → ltb x pivot = false) →
  ∃ i' a',
    for_each (py_range j high)
      (λ j i, aj ← getitem j;
              if ltb aj pivot then swap i j;; mret (i + 1) else mret i) i a
    = (Ok i', a') ∧
    low ≤ i' ≤ high ∧ length a' = length a ∧ a' ≡ₚ a ∧
    a' !! Z.to_nat high = Some pivot ∧
    (∀ p : nat, Z.of_nat p < low ∨ high < Z.of_nat p → a' !! p = a !! p) ∧
    (∀ t x, low ≤ t < i' → a' !! Z.to_nat t = Some x → ltb x pivot = true) ∧
    (∀ t x, i' ≤ t < high → a' !! Z.to_nat t = Some x → ltb x pivot = false).
Proof.
  induction n as [|n IH]; intros j i a Hlow Hij Hjn Hhigh Hpiv Hlt Hge.
  - rewrite py_range_nil by lia. rewrite Nat2Z.inj_0 in Hjn.
    exists i, a. cbn [for_each]. rewrite run_ret. split_and!; auto with lia.
    intros t x ??. apply (Hge t x); [lia|done].
  - rewrite py_range_cons by lia. cbn [for_each].
    destruct (lookup_lt_is_Some_2 a (Z.to_nat j)) as [aj Haj].
    { unfold len in Hhigh. lia. }
    rewrite run_bind, (run_bind (getitem j)), (getitem_run a j aj) by (done || lia).
    destruct (ltb aj pivot) eqn:Hcmp.
    + destruct (lookup_lt_is_Some_2 a (Z.to_nat i)) as [ai Hai].
      { unfold len in Hhigh. lia. }
      rewrite (run_bind (swap i j)), (swap_run a i j ai aj) by (done || lia).
      rewrite run_ret.
      set (a1 := <[Z.to_nat j:=ai]> (<[Z.to_nat i:=aj]> a)).
      assert (Hlen1 : length a1 = length a).
      { unfold a1. by rewrite !length_insert. }
      assert (Hlk1 : ∀ t, t ≠ i → t ≠ j → 0 ≤ t →
                a1 !! Z.to_nat t = a !! Z.to_nat t).
      { intros t ???. unfold a1. rewrite !list_lookup_insert_ne by lia. done. }
      assert (Hi1 : a1 !! Z.to_nat i = Some aj).
      { unfold a1. destruct (decide (i = j)) as [->|].
        - rewrite list_lookup_insert_eq; [congruence|].
          rewrite length_insert. by eapply lookup_lt_Some.
        - rewrite list_lookup_insert_ne by lia.
          rewrite list_lookup_insert_eq; [done|]. by eapply lookup_lt_Some. }
      assert (Hj1 : i ≠ j → a1 !! Z.to_nat j = Some ai).
      { intros. unfold a1. rewrite list_lookup_insert_eq; [done|].
        rewrite length_insert. by eapply lookup_lt_Some. }
      destruct (IH (j + 1) (i + 1) a1)
        as (i' & a' & Hrun & Hi' & Hlen' & Hperm' & Hpiv' & Hfr & Hlt' & Hge').
      * lia.
      * lia.
      * lia.
      * unfold len in *. lia.
      * rewrite Hlk1 by lia. done.
      * intros t x Ht Hx. destruct (decide (t = i)) as [->|].
        { rewrite Hi1 in Hx. by simplify_eq. }
        rewrite Hlk1 in Hx by lia. apply (Hlt t x); [lia|done].
      * intros t x Ht Hx. destruct (decide (t = j)) as [->|].
        { rewrite Hj1 in Hx by lia. simplify_eq.
          apply (Hge i x); [lia|done]. }
        rewrite Hlk1 in Hx by lia. apply (Hge t x); [lia|done].
      * exists i', a'. split; [exact Hrun|].
        split_and!; [lia|lia|congruence| |done| |done|done].
        { etrans; [done|]. unfold a1. by apply Permutation_insert_swap. }
        { intros p Hp. rewrite Hfr by lia.
          rewrite <-(Nat2Z.id p). apply Hlk1; lia. }
    + rewrite run_ret.
      destruct (IH (j + 1) i a)
        as (i' & a' & Hrun & Hi' & Hlen' & Hperm' & Hpiv' & Hfr & Hlt' & Hge');
        [lia|lia|lia|done|done|done| |].
      { intros t x Ht Hx. destruct (decide (t = j)) as [->|].
        - by simplify_eq.
        - apply (Hge t x); [lia|done]. }
      exists i', a'. split; [exact Hrun|]. split_and!; done || lia.
Qed.

(** What one call of [_partition] does, position by position. *)
Lemma partition_run a low high pivot_index :
  0 ≤ low → low ≤ pivot_index ≤ high → high < len a →
  ∃ p a' pivot,
    _partition ltb low high pivot_index a = (Ok p, a') ∧
    low ≤ p ≤ high ∧ length a' = length a ∧ a' ≡ₚ a ∧
    a !! Z.to_nat pivot_index = Some pivot ∧
    a' !! Z.to_nat p = Some pivot ∧
    (∀ q : nat, Z.of_nat q < low ∨ high < Z.of_nat q → a' !! q = a !! q) ∧
    (∀ t x, low ≤ t < p → a' !! Z.to_nat t = Some x → ltb x pivot = true) ∧
    (∀ t x, p < t ≤ high → a' !! Z.to_nat t = Some x → ltb x pivot = false).
Proof.
  intros Hlow Hpi Hhigh.
  destruct (lookup_lt_is_Some_2 a (Z.to_nat pivot_index)) as [pivot Hpivot].
  { unfold len in Hhigh. lia. }
  destruct (lookup_lt_is_Some_2 a (Z.to_nat high)) as [vh Hvh].
  { unfold len in Hhigh. lia. }
  unfold _partition.
  rewrite run_bind, (swap_run a pivot_index high pivot vh) by (done || lia).
  set (a0 := <[Z.to_nat high:=pivot]> (<[Z.to_nat pivot_index:=vh]> a)).
  assert (Hlen0 : length a0 = length a) by (unfold a0; by rewrite !length_insert).
  assert (Hperm0 : a0 ≡ₚ a) by (by apply Permutation_insert_swap).
  assert (Hhigh0 : a0 !! Z.to_nat high = Some pivot).
  { unfold a0. rewrite list_lookup_insert_eq; [done|].
    rewrite length_insert. by eapply lookup_lt_Some. }
  assert (Hfr0 : ∀ q : nat, Z.of_nat q < low ∨ high < Z.of_nat q → a0 !! q = a !! q).
  { intros q Hq. unfold a0. rewrite !list_lookup_insert_ne by lia. done. }
  rewrite run_bind, (getitem_run a0 high pivot) by (done || lia).
  destruct (partition_loop_spec pivot low high (Z.to_nat (high - low)) low low a0)
    as (i & a1 & Hrun & Hi & Hlen1 & Hperm1 & Hhigh1 & Hfr1 & Hlt1 & Hge1);
    [lia|lia|lia|unfold len in *; lia|done| | |].
  { intros t x Ht. lia. }
  { intros t x Ht. lia. }
  rewrite run_bind, Hrun.
  destruct (lookup_lt_is_Some_2 a1 (Z.to_nat i)) as [vi Hvi].
  { unfold len in Hhigh. lia. }
  rewrite run_bind, (swap_run a1 i high vi pivot) by (done || lia).
  rewrite run_ret.
  set (a2 := <[Z.to_nat high:=vi]> (<[Z.to_nat i:=pivot]> a1)).
  exists i, a2, pivot. split; [done|].
  split_and!; [lia|lia| | |done| | | |].
  - unfold a2. rewrite !length_insert. congruence.
  - etrans; [|exact Hperm0]. etrans; [|exact Hperm1].
    by apply Permutation_insert_swap.
  - unfold a2. destruct (decide (i = high)) as [->|].
    + rewrite list_lookup_insert_eq; [congruence|].
      rewrite length_insert. by eapply lookup_lt_Some.
    + rewrite list_lookup_insert_ne by lia.
      rewrite list_lookup_insert_eq; [done|]. by eapply lookup_lt_Some.
  - intros q Hq. unfold a2. rewrite !list_lookup_insert_ne by lia.
    rewrite Hfr1 by done. by apply Hfr0.
  - intros t x Ht Hx. unfold a2 in Hx.
    rewrite !list_lookup_insert_ne in Hx by lia. by apply (Hlt1 t x).
  - intros t x Ht Hx. unfold a2 in Hx.
    destruct (decide (t = high)) as [->|].
    + rewrite list_lookup_insert_eq in Hx.
      * simplify_eq. apply (Hge1 i x); [lia|done].
      * rewrite length_insert. by eapply lookup_lt_Some.
    + rewrite !list_lookup_insert_ne in Hx by lia.
      apply (Hge1 t x); [lia|done].
Qed.

End PartitionFacts.

(** ** Loops that leave the state alone *)

Lemma for_each_inv {St I T} (P : nat → T → Prop) (Q : I → Prop)
    (body : I → T → M St T) (s : St) xs : ∀ n acc,
  (∀ x n acc, Q x → P n acc → ∃ acc', body x acc s = (Ok acc', s) ∧ P (S n) acc') →
  Forall Q xs → P n acc →
  ∃ acc', for_each xs body acc s = (Ok acc', s) ∧ P (n + length xs)%nat acc'.
Proof.
  induction xs as [|x xs IH]; intros n acc Hbody HQ HP; cbn [for_each length].
  - exists acc. rewrite run_ret, Nat.add_0_r. done.
  - apply Forall_cons in HQ as [Hx HQ].
    destruct (Hbody x n acc Hx HP) as (acc1 & Hrun & HP1).
    rewrite run_bind, Hrun.
    destruct (IH (S n) acc1 Hbody HQ HP1) as (acc' & Hrun' & HP').
    exists acc'. split; [done|]. by replace (n + S (length xs))%nat with (S n + length xs)%nat by lia.
Qed.

(** ** Median of medians *)

Section MedianFacts.
Context {A : Type}.
Variable ltb : A → A → bool.
Implicit Types a : list A.

Lemma insert_by_key_perm x l : insert_by_key ltb x l ≡ₚ x :: l.
Proof.
  induction l as [|y l IH]; cbn [insert_by_key]; [done|].
  destruct (ltb y.1 x.1); [|done]. rewrite IH. apply Permutation_swap.
Qed.

Lemma stable_sort_perm l : stable_sort ltb l ≡ₚ l.
Proof.
  induction l as [|x l IH]; cbn [stable_sort]; [done|].
  rewrite insert_by_key_perm. by f_equiv.
Qed.

(** Sorting indices that are all valid subscripts succeeds, reads only, and
    returns a rearrangement of the group. *)
Lemma sort_by_key_run a group :
  Forall (λ i, 0 ≤ i < len a) group →
  ∃ sorted, sort_by_key ltb group a = (Ok sorted, a) ∧ sorted ≡ₚ group.
Proof.
  intros Hgroup. unfold sort_by_key.
  assert (Hkeys : ∀ group acc, Forall (λ i, 0 ≤ i < len a) group →
            ∃ keys, for_each group (λ i acc, v ← getitem i; mret (acc ++ [(v, i)])) acc a
                    = (Ok keys, a) ∧ keys.*2 = acc.*2 ++ group).
  { clear. induction group as [|i group IH]; intros acc Hg; cbn [for_each].
    - exists acc. by rewrite run_ret, app_nil_r.
    - apply Forall_cons in Hg as [Hi Hg].
      destruct (lookup_lt_is_Some_2 a (Z.to_nat i)) as [v Hv]; [unfold len in Hi; lia|].
      rewrite run_bind, run_bind, (getitem_run a i v) by (done || lia).
      rewrite run_ret.
      destruct (IH (acc ++ [(v, i)]) Hg) as (keys & Hrun & Hk).
      exists keys. split; [done|]. rewrite Hk, fmap_app, <-app_assoc. done. }
  destruct (Hkeys group [] Hgroup) as (keys & Hrun & Hk).
  rewrite run_bind, Hrun, run_ret. eexists. split; [done|].
  rewrite stable_sort_perm, Hk. done.
Qed.

Lemma py_slice_five {B} (l : list B) i :
  0 ≤ i ≤ len l → py_slice l i (i + 5) = take 5 (drop (Z.to_nat i) l).
Proof.
  intros Hi. unfold py_slice, py_slice_bound, len in *.
  rewrite !bool_decide_eq_false_2 by lia.
  rewrite (Z.min_l i) by lia.
  destruct (decide (i + 5 ≤ Z.of_nat (length l))).
  - rewrite Z.min_l by lia. f_equal. lia.
  - rewrite Z.min_r by lia.
    rewrite !take_ge; [done|rewrite length_drop; lia..].
Qed.

Lemma median_run a (group : list Z) :
  group ≠ [] → Forall (λ i, 0 ≤ i < len a) group →
  ∃ sorted median,
    sort_by_key ltb group a = (Ok sorted, a) ∧
    py_getitem sorted (len sorted `div` 2) = Ok median ∧ median ∈ group.
Proof.
  intros Hne Hvalid.
  destruct (sort_by_key_run a group Hvalid) as (sorted & Hrun & Hperm).
  assert (0 < len sorted).
  { unfold len. rewrite Hperm. destruct group; [done|]. cbn. lia. }
  destruct (lookup_lt_is_Some_2 sorted (Z.to_nat (len sorted `div` 2))) as [m Hm].
  { unfold len in *. apply Nat2Z.inj_lt. rewrite Z2Nat.id.
    - apply Z.div_lt; lia.
    - apply Z.div_pos; lia. }
  exists sorted, m. split_and!; [done| |].
  - apply py_getitem_nonneg; [|done]. apply Z.div_pos; lia.
  - rewrite <-Hperm. by eapply list_elem_of_lookup_2.
Qed.

Lemma median_of_group_run a indices i new_indices :
  0 ≤ i < len indices → Forall (λ i, 0 ≤ i < len a) indices →
  ∃ median,
    median_of_group ltb indices i new_indices a = (Ok (new_indices ++ [median]), a) ∧
    median ∈ indices.
Proof.
  intros Hi Hvalid. unfold median_of_group.
  rewrite py_slice_five by lia.
  set (group := take 5 (drop (Z.to_nat i) indices)).
  assert (Hsub : group ⊆ indices).
  { intros x Hx. unfold group in Hx.
    eapply subseteq_drop, subseteq_take, Hx. }
  destruct (median_run a group) as (sorted & m & Hrun & Hm & Hin).
  - unfold group. intros Hnil. apply (f_equal length) in Hnil.
    rewrite length_take, length_drop in Hnil. unfold len in Hi.
    change (length (@nil Z)) with 0%nat in Hnil. lia.
  - rewrite Forall_forall in Hvalid |- *. auto.
  - exists m. rewrite run_bind, Hrun, run_bind. unfold lift at 1. rewrite Hm.
    split; [done|]. auto.
Qed.

(** The compression loop: with a round of fuel per index it returns a
    non-empty list of at most five of the indices it was given. *)
Lemma compress_run a (fuel : nat) : ∀ indices,
  (length indices ≤ fuel)%nat → indices ≠ [] →
  Forall (λ i, 0 ≤ i < len a) indices →
  ∃ r, compress ltb fuel indices a = (Ok r, a) ∧
       r ≠ [] ∧ r ⊆ indices ∧ len r ≤ 5.
Proof.
  induction fuel as [|fuel IH]; intros indices Hfuel Hne Hvalid.
  { destruct indices; [done|]. cbn in Hfuel. lia. }
  cbn [compress]. case_bool_decide as Hlen.
  - destruct (for_each_inv (St := list A)
                (λ n (acc : list Z), length acc = n ∧ acc ⊆ indices)
                (λ i, 0 ≤ i < len indices)
                (median_of_group ltb indices) a
                (py_range_step 0 (len indices) 5) 0%nat [])
      as (new_indices & Hrun & Hlen' & Hsub).
    + intros i n acc Hi [Hn Hacc].
      destruct (median_of_group_run a indices i acc Hi Hvalid) as (m & Hrun & Hm).
      exists (acc ++ [m]). split; [done|]. split.
      * rewrite length_app. cbn. lia.
      * intros x [?|Hx%list_elem_of_singleton]%elem_of_app; [auto|by subst].
    + unfold py_range_step. rewrite Forall_fmap, Forall_seqZ.
      intros t Ht. cbn.
      assert (5 * ((len indices - 0 + 5 - 1) `div` 5) ≤ len indices - 0 + 5 - 1)
        by (apply Z.mul_div_le; lia).
      lia.
    + split; [done|]. intros x Hx. by apply elem_of_nil in Hx.
    + rewrite run_bind, Hrun.
      unfold py_range_step in Hlen'. rewrite length_fmap, length_seqZ in Hlen'.
      cbn [Nat.add] in Hlen'.
      assert (Hq : 2 ≤ (len indices - 0 + 5 - 1) `div` 5 < len indices).
      { split.
        - apply Z.div_le_lower_bound; lia.
        - apply Z.div_lt_upper_bound; lia. }
      destruct (IH new_indices) as (r & Hr & ? & ? & ?).
      * unfold len in *. lia.
      * intros ->. cbn in Hlen'. lia.
      * rewrite Forall_forall in Hvalid |- *. auto.
      * exists r. split_and!; [done|done| |done]. by etrans.
  - exists indices. rewrite run_ret. split_and!; [done|done|done|lia].
Qed.

(** [_median_of_medians] picks one of the indices of the range and leaves
    the list as it was. *)
Lemma median_of_medians_run a low high :
  0 ≤ low → low ≤ high → high < len a →
  ∃ p, _median_of_medians ltb low high a = (Ok p, a) ∧ low ≤ p ≤ high.
Proof.
  intros Hlow Hle Hhigh. unfold _median_of_medians.
  assert (Hvalid : Forall (λ i, 0 ≤ i < len a) (py_range low (high + 1))).
  { rewrite Forall_forall. intros i Hi%elem_of_py_range. lia. }
  destruct (compress_run a (length (py_range low (high + 1))) (py_range low (high + 1)))
    as (r & Hrun & Hne & Hsub & _); [done| |done|].
  { rewrite py_range_cons by lia. done. }
  destruct (median_run a r Hne) as (sorted & m & Hsort & Hm & Hin).
  { rewrite Forall_forall in Hvalid |- *. auto. }
  exists m. rewrite run_bind, Hrun, run_bind, Hsort. unfold lift. rewrite Hm.
  split; [done|]. apply Hsub, elem_of_py_range in Hin. lia.
Qed.

End MedianFacts.

(** ** Order statistics *)

Section OrderFacts.
Context {A : Type}.
Variable ltb : A → A → bool.
Hypothesis ltb_irrefl : ∀ x, ltb x x = false.
Hypothesis ltb_trans : ∀ x y z, ltb x y = true → ltb y z = true → ltb x z = true.
Hypothesis ltb_total : ∀ x y, ltb x y = false → ltb y x = false → x = y.

Lemma ltb_asym x y : ltb x y = true → ltb y x = false.
Proof.
  intros Hxy. destruct (ltb y x) eqn:Hyx; [|done].
  rewrite <-(ltb_irrefl x). symmetry. by apply (ltb_trans x y x).
Qed.

Lemma py_le_refl x : py_le ltb x x.
Proof. apply ltb_irrefl. Qed.

Lemma ltb_py_le x y : ltb x y = true → py_le ltb x y.
Proof. apply ltb_asym. Qed.

Lemma py_le_cases x y : py_le ltb x y → ltb x y = true ∨ x = y.
Proof.
  unfold py_le. intros Hyx. destruct (ltb x y) eqn:Hxy; [by left|right].
  by apply ltb_total.
Qed.

Lemma py_le_trans x y z : py_le ltb x y → py_le ltb y z → py_le ltb x z.
Proof.
  intros [Hxy| ->]%py_le_cases [Hyz| <-]%py_le_cases.
  - apply ltb_py_le. by apply (ltb_trans x y z).
  - by apply ltb_py_le.
  - by apply ltb_py_le.
  - apply py_le_refl.
Qed.

Lemma ltb_le_trans x y z : ltb x y = true → py_le ltb y z → py_le ltb x z.
Proof. intros Hxy Hyz. eapply py_le_trans; [by apply ltb_py_le|done]. Qed.

#[local] Instance py_le_transitive : Transitive (py_le ltb).
Proof. intros x y z. apply py_le_trans. Qed.

#[local] Instance py_le_total : Total (py_le ltb).
Proof.
  intros x y. unfold py_le. destruct (ltb y x) eqn:Hyx; [right|by left].
  by apply ltb_asym.
Qed.

#[local] Instance py_le_antisymm : AntiSymm (=) (py_le ltb).
Proof. intros x y Hxy Hyx. by apply ltb_total. Qed.

(** An element with nothing greater before it and nothing smaller after it
    stands where sorting puts it. *)
Lemma kth_of_sorted (l s : list A) (k : nat) x :
  l ≡ₚ s → Sorted (py_le ltb) s →
  l !! k = Some x →
  (∀ p y, (p < k)%nat → l !! p = Some y → py_le ltb y x) →
  (∀ q y, (k < q)%nat → l !! q = Some y → py_le ltb x y) →
  s !! k = Some x.
Proof.
  intros Hperm Hsorted Hk Hbefore Hafter.
  set (s' := merge_sort (py_le ltb) (take k l) ++ x :: merge_sort (py_le ltb) (drop (S k) l)).
  assert (Hs' : s' ≡ₚ l).
  { unfold s'. rewrite !merge_sort_Permutation.
    by rewrite (take_drop_middle l k x Hk). }
  assert (Hsorted' : StronglySorted (py_le ltb) s').
  { unfold s'. apply StronglySorted_app_2.
    - intros y z Hy Hz.
      rewrite merge_sort_Permutation in Hy.
      apply elem_of_take in Hy as (p & Hp & ?).
      assert (py_le ltb y x) by eauto.
      apply elem_of_cons in Hz as [->|Hz]; [done|].
      rewrite merge_sort_Permutation in Hz.
      apply list_elem_of_lookup in Hz as (q & Hq). rewrite lookup_drop in Hq.
      eapply py_le_trans; [done|]. eapply Hafter; [|done]. lia.
    - apply StronglySorted_merge_sort; [apply py_le_transitive|apply py_le_total].
    - apply StronglySorted_cons.
      split; [|apply StronglySorted_merge_sort; [apply py_le_transitive|apply py_le_total]].
      rewrite Forall_forall. intros z Hz.
      rewrite merge_sort_Permutation in Hz.
      apply list_elem_of_lookup in Hz as (q & Hq). rewrite lookup_drop in Hq.
      eapply Hafter; [|done]. lia. }
  assert (s' = s) as <-.
  { apply (StronglySorted_unique (py_le ltb)); [done| |by etrans].
    apply Sorted_StronglySorted; [apply py_le_transitive|done]. }
  unfold s'. apply lookup_lt_Some in Hk as Hlt.
  rewrite lookup_app_r; rewrite (length_Permutation_proper _ _ (merge_sort_Permutation _ _)), length_take; [|lia].
  by replace (k - k `min` length l)%nat with 0%nat by lia.
Qed.

End OrderFacts.

(** ** Rearranging a subrange *)

(** A rearrangement of a list that leaves every position outside
    [[lo, lo + n)] alone rearranges the values inside among themselves. *)
Lemma frame_slice_perm {A} (l l' : list A) (lo n : nat) :
  l' ≡ₚ l →
  (∀ q : nat, (q < lo ∨ lo + n ≤ q)%nat → l' !! q = l !! q) →
  take n (drop lo l') ≡ₚ take n (drop lo l).
Proof.
  intros Hperm Hframe.
  assert (Hl : take lo l' = take lo l).
  { apply list_eq. intros i. rewrite !lookup_take.
    case_decide; [|done]. apply Hframe. lia. }
  assert (Hr : drop n (drop lo l') = drop n (drop lo l)).
  { apply list_eq. intros i. rewrite !lookup_drop. apply Hframe. lia. }
  rewrite <-(take_drop lo l'), <-(take_drop lo l) in Hperm.
  rewrite Hl in Hperm. apply (inj (take lo l ++.)) in Hperm.
  rewrite <-(take_drop n (drop lo l')), <-(take_drop n (drop lo l)) in Hperm.
  rewrite Hr in Hperm. by apply (inj (.++ drop n (drop lo l))) in Hperm.
Qed.

(** [a[low:high+1]] as a segment of the list. *)
Lemma py_slice_range {A} (a : list A) low high :
  0 ≤ low → low ≤ high + 1 → high < len a →
  py_slice a low (high + 1)
  = take (Z.to_nat (high + 1 - low)) (drop (Z.to_nat low) a).
Proof.
  intros. unfold py_slice, py_slice_bound, len in *.
  rewrite !bool_decide_eq_false_2 by lia.
  rewrite !Z.min_l by lia. f_equal. lia.
Qed.

(** A value found inside the subrange after such a rearrangement was inside
    it before. *)
Lemma frame_slice_lookup {A} (l l' : list A) (low high t : Z) x :
  0 ≤ low → low ≤ t ≤ high →
  l' ≡ₚ l →
  (∀ q : nat, Z.of_nat q < low ∨ high < Z.of_nat q → l' !! q = l !! q) →
  l' !! Z.to_nat t = Some x →
  ∃ u, low ≤ u ≤ high ∧ l !! Z.to_nat u = Some x.
Proof.
  intros Hlow Ht Hperm Hframe Hx.
  assert (Hin : x ∈ take (Z.to_nat (high + 1 - low)) (drop (Z.to_nat low) l')).
  { apply elem_of_take. exists (Z.to_nat (t - low)). split; [|lia].
    rewrite lookup_drop. by replace (Z.to_nat low + Z.to_nat (t - low))%nat with (Z.to_nat t) by lia. }
  rewrite (frame_slice_perm l l') in Hin; [|done|].
  - apply elem_of_take in Hin as (i & Hi & ?). rewrite lookup_drop in Hi.
    exists (low + Z.of_nat i). split; [lia|].
    by replace (Z.to_nat (low + Z.of_nat i)) with (Z.to_nat low + i)%nat by lia.
  - intros q Hq. apply Hframe. lia.
Qed.

(** ** The selection loop *)

Section SelectFacts.
Context {A : Type}.
Variable ltb : A → A → bool.
Implicit Types a : list A.

(** A cut outside the rearranged subrange stays a cut. *)
Lemma split_at_frame a a' low high c :
  0 ≤ low → low ≤ high → c ≤ low ∨ high < c →
  a' ≡ₚ a →
  (∀ q : nat, Z.of_nat q < low ∨ high < Z.of_nat q → a' !! q = a !! q) →
  split_at ltb a c → split_at ltb a' c.
Proof.
  intros Hlow Hle Hc Hperm Hframe Hsplit t u x y Ht Hu Hx Hy.
  assert (∃ t', 0 ≤ t' < c ∧ a !! Z.to_nat t' = Some x) as (t' & Ht' & Hx').
  { destruct (decide (low ≤ t ≤ high)).
    - destruct (frame_slice_lookup a a' low high t x) as (t' & ? & ?); [done..|].
      exists t'. split; [lia|done].
    - exists t. split; [done|]. rewrite <-Hframe; [done|lia]. }
  assert (∃ u', c ≤ u' ∧ a !! Z.to_nat u' = Some y) as (u' & Hu' & Hy').
  { destruct (decide (low ≤ u ≤ high)).
    - destruct (frame_slice_lookup a a' low high u y) as (u' & ? & ?); [done..|].
      exists u'. split; [lia|done].
    - exists u. split; [done|]. rewrite <-Hframe; [done|lia]. }
  by apply (Hsplit t' u' x y).
Qed.

Hypothesis ltb_irrefl : ∀ x, ltb x x = false.
Hypothesis ltb_trans : ∀ x y z, ltb x y = true → ltb y z = true → ltb x z = true.
Hypothesis ltb_total : ∀ x y, ltb x y = false → ltb y x = false → x = y.

(** Where the pivot comes to rest, the list is cut on both sides of it. *)
Lemma split_at_pivot a low high p pivot :
  0 ≤ low → low ≤ p ≤ high →
  a !! Z.to_nat p = Some pivot →
  (∀ t x, low ≤ t < p → a !! Z.to_nat t = Some x → ltb x pivot = true) →
  (∀ t x, p < t ≤ high → a !! Z.to_nat t = Some x → ltb x pivot = false) →
  split_at ltb a low → split_at ltb a (high + 1) →
  split_at ltb a p ∧ split_at ltb a (p + 1).
Proof.
  intros Hlow Hp Hpivot Hlt Hge Hlo Hhi.
  assert (Hleft : ∀ t x, low ≤ t ≤ p → a !! Z.to_nat t = Some x → py_le ltb x pivot).
  { intros t x Ht Hx. destruct (decide (t = p)) as [->|].
    - simplify_eq. by apply py_le_refl.
    - apply ltb_py_le; [done..|]. apply (Hlt t x); [lia|done]. }
  assert (Hright : ∀ u y, p ≤ u ≤ high → a !! Z.to_nat u = Some y → py_le ltb pivot y).
  { intros u y Hu Hy. destruct (decide (u = p)) as [->|].
    - simplify_eq. by apply py_le_refl.
    - apply (Hge u y); [lia|done]. }
  assert (Hcut : ∀ c, p ≤ c ≤ p + 1 → split_at ltb a c).
  { intros c Hc t u x y Ht Hu Hx Hy.
    destruct (decide (t < low)).
    { apply (Hlo t u x y); [lia|lia|done|done]. }
    destruct (decide (high < u)).
    { apply (Hhi t u x y); [lia|lia|done|done]. }
    apply (py_le_trans ltb ltb_irrefl ltb_trans ltb_total x pivot y).
    - apply (Hleft t x); [lia|done].
    - apply (Hright u y); [lia|done]. }
  split; apply Hcut; lia.
Qed.

(** The loop finds the [k]-th position's final value: it returns, the list
    is rearranged, and the list is cut on both sides of position [k]. *)
Lemma select_loop_spec pick k :
  picks_in_range pick →
  ∀ (fuel n : nat) low high a,
    (Z.to_nat (high - low) < fuel)%nat →
    0 ≤ low → low ≤ k ≤ high → high < len a →
    split_at ltb a low → split_at ltb a (high + 1) →
    ∃ x a',
      select_loop ltb pick fuel n k low high a = (Ok x, a') ∧
      a' ≡ₚ a ∧ a' !! Z.to_nat k = Some x ∧
      split_at ltb a' k ∧ split_at ltb a' (k + 1).
Proof.
  intros Hpick fuel.
  induction fuel as [|fuel IH]; intros n low high a Hfuel Hlow Hk Hhigh Hlo Hhi; [lia|].
  cbn [select_loop]. case_bool_decide as Heq.
  - assert (k = low) as -> by lia. subst high.
    destruct (lookup_lt_is_Some_2 a (Z.to_nat low)) as [x Hx]; [unfold len in *; lia|].
    exists x, a. rewrite (getitem_run a low x) by done. done.
  - destruct (Hpick n low high a) as (p0 & Hrun0 & Hp0); [lia..|].
    rewrite run_bind, Hrun0.
    destruct (partition_run ltb a low high p0)
      as (p & a1 & pivot & Hrun1 & Hp & Hlen1 & Hperm1 & _ & Hpiv1 & Hfr1 & Hlt1 & Hge1);
      [lia..|].
    rewrite run_bind, Hrun1.
    assert (Hlo1 : split_at ltb a1 low).
    { apply (split_at_frame a a1 low high); auto with lia. }
    assert (Hhi1 : split_at ltb a1 (high + 1)).
    { apply (split_at_frame a a1 low high); auto with lia. }
    destruct (split_at_pivot a1 low high p pivot) as [Hcut Hcut']; [lia|done..|].
    case_bool_decide as Hkp.
    + subst p. exists pivot, a1. rewrite (getitem_run a1 k pivot) by (done || lia). done.
    + case_bool_decide as Hlt.
      * destruct (IH (S n) low (p - 1) a1) as (x & a2 & Hrun2 & Hperm2 & ?);
          [lia|lia|lia|unfold len in *; lia|done| |].
        { by replace (p - 1 + 1) with p by lia. }
        exists x, a2. split; [done|]. split; [by etrans|done].
      * destruct (IH (S n) (p + 1) high a1) as (x & a2 & Hrun2 & Hperm2 & ?);
          [lia|lia|lia|unfold len in *; lia|done|done|].
        exists x, a2. split; [done|]. split; [by etrans|done].
Qed.

End SelectFacts.

(** ** The selection functions *)

Section SelectTheorems.
Context {A : Type}.
Variable ltb : A → A → bool.
Implicit Types a : list A.

(** The loop returns within one round per element of the range, whatever
    [<] is, and only rearranges the list. *)
Lemma select_loop_run pick k :
  picks_in_range pick →
  ∀ (fuel n : nat) low high a,
    (Z.to_nat (high - low) < fuel)%nat →
    0 ≤ low → low ≤ k ≤ high → high < len a →
    ∃ x a', select_loop ltb pick fuel n k low high a = (Ok x, a') ∧ a' ≡ₚ a.
Proof.
  intros Hpick fuel.
  induction fuel as [|fuel IH]; intros n low high a Hfuel Hlow Hk Hhigh; [lia|].
  cbn [select_loop]. case_bool_decide as Heq.
  - destruct (lookup_lt_is_Some_2 a (Z.to_nat low)) as [x Hx]; [unfold len in *; lia|].
    exists x, a. by rewrite (getitem_run a low x) by done.
  - destruct (Hpick n low high a) as (p0 & Hrun0 & Hp0); [lia..|].
    rewrite run_bind, Hrun0.
    destruct (partition_run ltb a low high p0)
      as (p & a1 & pivot & Hrun1 & Hp & Hlen1 & Hperm1 & _ & Hpiv1 & _); [lia..|].
    rewrite run_bind, Hrun1.
    case_bool_decide as Hkp; [|case_bool_decide as Hlt].
    + subst p. exists pivot, a1. by rewrite (getitem_run a1 k pivot) by (done || lia).
    + destruct (IH (S n) low (p - 1) a1) as (x & a2 & Hrun2 & Hperm2);
        [lia|lia|lia|unfold len in *; lia|].
      exists x, a2. split; [done|by etrans].
    + destruct (IH (S n) (p + 1) high a1) as (x & a2 & Hrun2 & Hperm2);
        [lia|lia|lia|unfold len in *; lia|].
      exists x, a2. split; [done|by etrans].
Qed.

Lemma median_of_medians_picks : picks_in_range (λ _ : nat, _median_of_medians ltb).
Proof. intros n low high a ???. by apply median_of_medians_run. Qed.

Lemma randint_picks (randint : nat → Z → Z → Z) :
  (∀ n low high, low ≤ high → low ≤ randint n low high ≤ high) →
  picks_in_range (A := A) (random_randint randint).
Proof.
  intros Hr n low high a ???. eexists. unfold random_randint.
  rewrite bool_decide_eq_true_2 by done. rewrite run_ret. eauto.
Qed.

(** [select_deterministic] returns for every valid [k]: no exception, and
    no more rounds of its loop than the list has elements. *)
Lemma select_deterministic_terminates a k (fuel : nat) :
  0 ≤ k < len a → (length a ≤ fuel)%nat →
  ∃ x a', select_deterministic ltb fuel k a = (Ok x, a') ∧ a' ≡ₚ a.
Proof.
  intros Hk Hfuel. unfold select_deterministic. rewrite run_bind. cbn [get_state].
  apply select_loop_run; [apply median_of_medians_picks|unfold len in *; lia..].
Qed.

Lemma randomized_quickselect_terminates randint a k (fuel : nat) :
  (∀ n low high, low ≤ high → low ≤ randint n low high ≤ high) →
  0 ≤ k < len a → (length a ≤ fuel)%nat →
  ∃ x a', randomized_quickselect ltb randint fuel k a = (Ok x, a') ∧ a' ≡ₚ a.
Proof.
  intros Hr Hk Hfuel. unfold randomized_quickselect. rewrite run_bind. cbn [get_state].
  apply select_loop_run; [by apply randint_picks|unfold len in *; lia..].
Qed.

End SelectTheorems.

(** ** Claims on the selection engine *)

Lemma py_getitem_lookup {A} (l : list A) j x :
  0 ≤ j → py_getitem l j = Ok x → l !! Z.to_nat j = Some x.
Proof.
  intros Hj (i & Hi & Hx)%py_getitem_Ok.
  unfold py_index in Hi. repeat case_bool_decide; simplify_eq; [done|lia].
Qed.

Lemma split_at_start {A} (ltb : A → A → bool) a : split_at ltb a 0.
Proof. intros t u x y Ht. lia. Qed.

Lemma split_at_end {A} (ltb : A → A → bool) a : split_at ltb a (len a).
Proof.
  intros t u x y Ht Hu Hx Hy. apply lookup_lt_Some in Hy. unfold len in Hu. lia.
Qed.

Lemma sorted_arrangement_merge_sort {A} (ltb : A → A → bool) (a : list A) :
  (∀ x y, ltb x y = true → ltb y x = false) →
  sorted_arrangement ltb a (merge_sort (py_le ltb) a).
Proof.
  intros Hasym. split; [apply merge_sort_Permutation|].
  apply Sorted_merge_sort. intros x y. unfold py_le.
  destruct (ltb y x) eqn:Hyx; [right; by apply Hasym|by left].
Qed.

(** C1: for a total order and a valid [k], [select_deterministic(a, k)] and
    [randomized_quickselect(a, k)], the latter under every sequence of random
    pivot choices, both return the value at position [k] of the sorted
    arrangement of [a]. *)
Theorem select_is_order_statistic {A} (ltb : A → A → bool) (a s : list A)
    (k : Z) (fuel : nat) (randint : nat → Z → Z → Z) :
  (∀ x, ltb x x = false) →
  (∀ x y z, ltb x y = true → ltb y z = true → ltb x z = true) →
  (∀ x y, ltb x y = false → ltb y x = false → x = y) →
  0 ≤ k ≤ len a - 1 →
  (length a ≤ fuel)%nat →
  (∀ n low high, low ≤ high → low ≤ randint n low high ≤ high) →
  sorted_arrangement ltb a s →
  ∃ x, s !! Z.to_nat k = Some x ∧
       (∃ a', select_deterministic ltb fuel k a = (Ok x, a')) ∧
       (∃ a', randomized_quickselect ltb randint fuel k a = (Ok x, a')).
Proof.
  intros Hirr Htr Htot Hk Hfuel Hrand [Hperm Hsorted].
  assert (Hloop : ∀ pick, picks_in_range pick →
            ∃ x a', select_loop ltb pick fuel 0 k 0 (len a - 1) a = (Ok x, a') ∧
                    s !! Z.to_nat k = Some x).
  { intros pick Hpick.
    destruct (select_loop_spec ltb Hirr Htr Htot pick k Hpick fuel 0%nat 0 (len a - 1) a)
      as (x & a' & Hrun & Hperm' & Hx & Hcut & Hcut');
      [unfold len in *; lia|lia|lia|lia|apply split_at_start| |].
    { replace (len a - 1 + 1) with (len a) by lia. apply split_at_end. }
    exists x, a'. split; [done|].
    apply (kth_of_sorted ltb Hirr Htr Htot a' s (Z.to_nat k) x); [by etrans|done..| |].
    - intros p y Hp Hy. apply (Hcut (Z.of_nat p) k y x); [lia|lia| |done].
      by rewrite Nat2Z.id.
    - intros q y Hq Hy. apply (Hcut' k (Z.of_nat q) x y); [lia|lia|done|].
      by rewrite Nat2Z.id. }
  destruct (Hloop _ (median_of_medians_picks ltb)) as (x & a1 & Hrun1 & Hx).
  destruct (Hloop _ (randint_picks randint Hrand)) as (x' & a2 & Hrun2 & Hx').
  assert (x' = x) as -> by congruence.
  exists x. split; [done|]. split.
  - exists a1. unfold select_deterministic. by rewrite run_bind.
  - exists a2. unfold randomized_quickselect. by rewrite run_bind.
Qed.

Lemma select_is_order_statistic_witness :
  ∃ x, [0; 10; 20; 30; 50] !! Z.to_nat 2 = Some x ∧
       (∃ a', select_deterministic Z.ltb 5 2 [30; 10; 20; 50; 0] = (Ok x, a')) ∧
       (∃ a', randomized_quickselect Z.ltb (λ _ low _, low) 5 2 [30; 10; 20; 50; 0]
              = (Ok x, a')).
Proof.
  apply (select_is_order_statistic Z.ltb [30; 10; 20; 50; 0] [0; 10; 20; 30; 50]).
  - intros x. apply Z.ltb_irrefl.
  - intros x y z ?%Z.ltb_lt ?%Z.ltb_lt. apply Z.ltb_lt. lia.
  - intros x y ?%Z.ltb_ge ?%Z.ltb_ge. lia.
  - vm_compute. split; discriminate.
  - simpl. lia.
  - intros. lia.
  - split.
    + apply (bool_decide_unpack _). vm_compute. exact I.
    + apply (bool_decide_unpack _). vm_compute. exact I.
Defined.

(** C2: for [0 <= low <= pivot_index <= high < len(a)], [_partition] returns
    an index [p] in [[low, high]] such that afterwards the list, as long as
    before and holding the same elements, has at every position of
    [[low, p-1]] an element smaller than [a[p]] and at every position of
    [[p, high]] an element not smaller than [a[p]]; [a[p]] is the pivot it
    was called with. *)
Theorem partition_postcondition {A} (ltb : A → A → bool) (a : list A)
    (low high pivot_index : Z) :
  (∀ x, ltb x x = false) →
  0 ≤ low → low ≤ pivot_index → pivot_index ≤ high → high < len a →
  ∃ p a' pivot,
    _partition ltb low high pivot_index a = (Ok p, a') ∧
    low ≤ p ≤ high ∧
    len a' = len a ∧ a' ≡ₚ a ∧
    py_getitem a pivot_index = Ok pivot ∧
    py_getitem a' p = Ok pivot ∧
    (∀ j, low ≤ j ≤ p - 1 → ∃ x, py_getitem a' j = Ok x ∧ ltb x pivot = true) ∧
    (∀ j, p ≤ j ≤ high → ∃ x, py_getitem a' j = Ok x ∧ py_le ltb pivot x).
Proof.
  intros Hirr Hlow Hpi Hpi' Hhigh.
  destruct (partition_run ltb a low high pivot_index)
    as (p & a' & pivot & Hrun & Hp & Hlen & Hperm & Hpiv0 & Hpiv & Hfr & Hlt & Hge);
    [lia..|].
  assert (Hat : ∀ j, low ≤ j ≤ high → ∃ x, a' !! Z.to_nat j = Some x).
  { intros j Hj. apply lookup_lt_is_Some_2. unfold len in Hhigh. lia. }
  exists p, a', pivot. split_and!; [done|lia|lia|by unfold len; rewrite Hlen|done| | | |].
  - apply py_getitem_nonneg; [lia|done].
  - apply py_getitem_nonneg; [lia|done].
  - intros j Hj. destruct (Hat j) as [x Hx]; [lia|]. exists x. split.
    + apply py_getitem_nonneg; [lia|done].
    + apply (Hlt j x); [lia|done].
  - intros j Hj. destruct (Hat j) as [x Hx]; [lia|]. exists x. split.
    + apply py_getitem_nonneg; [lia|done].
    + unfold py_le. destruct (decide (j = p)) as [->|].
      * simplify_eq. apply Hirr.
      * apply (Hge j x); [lia|done].
Qed.

Lemma partition_postcondition_witness :
  ∃ p a' pivot,
    _partition Z.ltb 1 5 3 [9; 4; 7; 5; 1; 5; 0] = (Ok p, a') ∧
    1 ≤ p ≤ 5 ∧
    len a' = len [9; 4; 7; 5; 1; 5; 0] ∧ a' ≡ₚ [9; 4; 7; 5; 1; 5; 0] ∧
    py_getitem [9; 4; 7; 5; 1; 5; 0] 3 = Ok pivot ∧
    py_getitem a' p = Ok pivot ∧
    (∀ j, 1 ≤ j ≤ p - 1 → ∃ x, py_getitem a' j = Ok x ∧ Z.ltb x pivot = true) ∧
    (∀ j, p ≤ j ≤ 5 → ∃ x, py_getitem a' j = Ok x ∧ py_le Z.ltb pivot x).
Proof.
  apply (partition_postcondition Z.ltb [9; 4; 7; 5; 1; 5; 0] 1 5 3).
  - intros x. apply Z.ltb_irrefl.
  - lia.
  - lia.
  - lia.
  - vm_compute. reflexivity.
Defined.

(** C9: [_partition] only rearranges the subrange: the values at
    [[low, high]] are the same multiset as before, and every position outside
    is untouched; and both selection functions leave the list a permutation
    of what it was. *)
Theorem partition_only_rearranges {A} (ltb : A → A → bool) (a : list A) :
  (∀ low high pivot_index,
     0 ≤ low → low ≤ pivot_index → pivot_index ≤ high → high < len a →
     ∃ p a',
       _partition ltb low high pivot_index a = (Ok p, a') ∧
       py_slice a' low (high + 1) ≡ₚ py_slice a low (high + 1) ∧
       length a' = length a ∧
       ∀ q : nat, Z.of_nat q < low ∨ high < Z.of_nat q → a' !! q = a !! q) ∧
  (∀ k (fuel : nat) (randint : nat → Z → Z → Z),
     0 ≤ k < len a → (length a ≤ fuel)%nat →
     (∀ n low high, low ≤ high → low ≤ randint n low high ≤ high) →
     (∃ x a', select_deterministic ltb fuel k a = (Ok x, a') ∧ a' ≡ₚ a) ∧
     (∃ x a', randomized_quickselect ltb randint fuel k a = (Ok x, a') ∧ a' ≡ₚ a)).
Proof.
  split.
  - intros low high pivot_index Hlow Hpi Hpi' Hhigh.
    destruct (partition_run ltb a low high pivot_index)
      as (p & a' & pivot & Hrun & Hp & Hlen & Hperm & _ & _ & Hfr & _); [lia..|].
    exists p, a'. split_and!; [done| |done|done].
    rewrite !py_slice_range by (unfold len in *; lia).
    apply frame_slice_perm; [done|]. intros q Hq. apply Hfr. lia.
  - intros k fuel randint Hk Hfuel Hrand. split.
    + by apply select_deterministic_terminates.
    + by apply randomized_quickselect_terminates.
Qed.

Lemma partition_only_rearranges_witness :
  (∃ p a',
     _partition Z.ltb 1 3 2 [9; 4; 7; 5; 1] = (Ok p, a') ∧
     py_slice a' 1 (3 + 1) ≡ₚ py_slice [9; 4; 7; 5; 1] 1 (3 + 1) ∧
     length a' = length [9; 4; 7; 5; 1] ∧
     ∀ q : nat, Z.of_nat q < 1 ∨ 3 < Z.of_nat q → a' !! q = [9; 4; 7; 5; 1] !! q) ∧
  ((∃ x a', select_deterministic Z.ltb 5 1 [9; 4; 7; 5; 1] = (Ok x, a') ∧
            a' ≡ₚ [9; 4; 7; 5; 1]) ∧
   (∃ x a', randomized_quickselect Z.ltb (λ _ _ high, high) 5 1 [9; 4; 7; 5; 1]
            = (Ok x, a') ∧ a' ≡ₚ [9; 4; 7; 5; 1])).
Proof.
  split.
  - apply (proj1 (partition_only_rearranges Z.ltb [9; 4; 7; 5; 1]) 1 3 2);
      [lia|lia|lia|vm_compute; reflexivity].
  - apply (proj2 (partition_only_rearranges Z.ltb [9; 4; 7; 5; 1]) 1 5%nat (λ _ _ high, high)).
    + vm_compute. split; [discriminate|reflexivity].
    + simpl. lia.
    + intros. lia.
Defined.

(** C3, at [a = list(range(126))]: [_median_of_medians(a, 0, 125)] returns
    125, the index of the maximum; one element of the 126 is at least the
    pivot, so the pivot is not a good one. *)
Theorem median_of_medians_bad_pivot :
  _median_of_medians Z.ltb 0 125 (seqZ 0 126) = (Ok 125, seqZ 0 126) ∧
  py_getitem (seqZ 0 126) 125 = Ok 125 ∧
  filter (λ x, py_le Z.ltb 125 x) (py_slice (seqZ 0 126) 0 (125 + 1)) = [125] ∧
  ¬ good_pivot Z.ltb (seqZ 0 126) 0 125 125.
Proof.
  split_and!.
  - vm_compute. reflexivity.
  - vm_compute. reflexivity.
  - vm_compute. reflexivity.
  - intros (pivot & Hpivot & _ & Hge).
    assert (pivot = 125) as -> by (vm_compute in Hpivot; congruence).
    vm_compute in Hge. by apply Hge.
Qed.

(** ** Stack *)

Section StackFacts.
Context {V : Type}.
Implicit Types self : Stack.Stack V.

Lemma py_getitem_last (l : list V) v : py_getitem (l ++ [v]) (-1) = Ok v.
Proof.
  unfold py_getitem. rewrite py_index_neg by (rewrite length_app; cbn; lia).
  rewrite length_app. cbn [length].
  replace (Z.to_nat (Z.of_nat (length l + 1) + -1)) with (length l + 0)%nat by lia.
  by rewrite lookup_app_r, Nat.add_0_r, Nat.sub_diag by lia.
Qed.

Lemma stack_empty_fails self :
  Stack._s self = [] →
  Stack.pop self = (Raise IndexError, self) ∧
  Stack.peek self = (Raise IndexError, self).
Proof.
  intros Hs. split.
  - unfold Stack.pop. rewrite run_bind. cbn [get_state].
    by rewrite bool_decide_eq_true_2.
  - unfold Stack.peek. by rewrite Hs.
Qed.

Lemma stack_push_peek_pop self v :
  Stack.peek (Stack.push v self).2 = (Ok v, (Stack.push v self).2) ∧
  Stack.pop (Stack.push v self).2 = (Ok v, self).
Proof.
  destruct self as [l]. cbn [Stack.push snd Stack._s]. split.
  - unfold Stack.peek. cbn [Stack._s]. by rewrite py_getitem_last.
  - unfold Stack.pop. rewrite run_bind. cbn [get_state Stack._s].
    rewrite bool_decide_eq_false_2 by (by destruct l).
    unfold Stack.list_pop. cbn [Stack._s]. rewrite py_getitem_last.
    rewrite length_app. cbn [length].
    replace (length l + 1 - 1)%nat with (length l) by lia.
    by rewrite take_app_length.
Qed.

Lemma stack_nonempty_pushed self :
  Stack._s self ≠ [] → ∃ v rest, self = (Stack.push v rest).2.
Proof.
  destruct self as [l]. cbn [Stack._s]. intros Hne.
  destruct l as [|v l' _] using rev_ind; [done|].
  by exists v, {| Stack._s := l' |}.
Qed.

End StackFacts.

(** C8: on an empty stack [pop()] and [peek()] both raise [IndexError], the
    error of an empty collection; on a non-empty stack [peek()] returns the
    most recently pushed element and leaves the stack as it is, and [pop()]
    returns it and leaves the stack as it was before that push.  After pushing
    'a', 'b', 'c', 'd', [pop()] returns 'd' and then [peek()] returns 'c'. *)
Theorem stack_pop_peek :
  (∀ (V : Type) (self : Stack.Stack V),
     Stack._s self = [] →
     Stack.pop self = (Raise IndexError, self) ∧
     Stack.peek self = (Raise IndexError, self)) ∧
  (∀ (V : Type) (self : Stack.Stack V),
     Stack._s self ≠ [] →
     ∃ v rest, self = (Stack.push v rest).2 ∧
               Stack.peek self = (Ok v, self) ∧
               Stack.pop self = (Ok v, rest)) ∧
  (Stack.push "a";; Stack.push "b";; Stack.push "c";; Stack.push "d";;
   x ← Stack.pop; y ← Stack.peek; mret (x, y)) Stack.__init__
  = (Ok ("d", "c"), {| Stack._s := ["a"; "b"; "c"] |}).
Proof.
  split_and!.
  - intros V self. apply stack_empty_fails.
  - intros V self (v & rest & ->)%stack_nonempty_pushed.
    exists v, rest. split; [done|]. apply stack_push_peek_pop.
  - reflexivity.
Qed.

Lemma stack_pop_peek_witness :
  (Stack.pop (Stack.__init__ (V := string)) = (Raise IndexError, Stack.__init__) ∧
   Stack.peek (Stack.__init__ (V := string)) = (Raise IndexError, Stack.__init__)) ∧
  (∃ v rest, {| Stack._s := ["a"; "b"] |} = (Stack.push v rest).2 ∧
             Stack.peek {| Stack._s := ["a"; "b"] |} = (Ok v, {| Stack._s := ["a"; "b"] |}) ∧
             Stack.pop {| Stack._s := ["a"; "b"] |} = (Ok v, rest)).
Proof.
  split.
  - apply (proj1 stack_pop_peek string Stack.__init__). reflexivity.
  - apply (proj1 (proj2 stack_pop_peek) string {| Stack._s := ["a"; "b"] |}). discriminate.
Defined.

(** ** LinkedList *)

Section LinkedListFacts.
Context {V : Type}.
Implicit Types (self : LinkedList.LinkedList V) (l : LinkedList.link V).

(** [_node_at(pos)] finds the node [max(0, pos)] steps from the head, and
    raises when the chain is not that long. *)
Lemma node_at_loop_spec l : ∀ i pos depth,
  LinkedList.node_at_loop l i pos depth
  = if bool_decide (Z.max 0 (pos - i) < len (LinkedList.values l))
    then Some (depth + Z.to_nat (pos - i))%nat else None.
Proof.
  induction l as [|v nxt IH]; intros i pos depth; cbn [LinkedList.node_at_loop LinkedList.values].
  - rewrite bool_decide_eq_false_2; [done|]. unfold len. cbn. lia.
  - unfold len in *. cbn [length]. case_bool_decide as Hi.
    + rewrite IH. repeat case_bool_decide; try lia; [|done]. f_equal. lia.
    + rewrite bool_decide_eq_true_2 by lia. f_equal. lia.
Qed.

Lemma node_at_run self pos :
  LinkedList._node_at pos self
  = if bool_decide (Z.max 0 pos < len (LinkedList.traverse self))
    then (Ok (Z.to_nat pos), self) else (Raise IndexError, self).
Proof.
  unfold LinkedList._node_at. rewrite run_bind. cbn [get_state].
  rewrite node_at_loop_spec, Z.sub_0_r. unfold LinkedList.traverse.
  by case_bool_decide.
Qed.

Lemma values_next_of l (d : nat) :
  LinkedList.values (LinkedList.next_of l d) = drop (S d) (LinkedList.values l).
Proof.
  unfold LinkedList.next_of. revert l.
  induction d as [|d IH]; intros [|v nxt]; cbn; done.
Qed.

Lemma values_set_next l (d : nat) new :
  (d < length (LinkedList.values l))%nat →
  LinkedList.values (LinkedList.set_next l d new)
  = take (S d) (LinkedList.values l) ++ LinkedList.values new.
Proof.
  revert d. induction l as [|v nxt IH]; intros [|d] Hd; cbn in *; try lia.
  - by rewrite take_0.
  - f_equal. apply IH. lia.
Qed.

Lemma next_of_null l (d : nat) :
  LinkedList.next_of l d = LinkedList.null ↔ (length (LinkedList.values l) ≤ S d)%nat.
Proof.
  split.
  - intros Hn. pose proof (values_next_of l d) as Hv. rewrite Hn in Hv. cbn in Hv.
    symmetry in Hv. apply (f_equal length) in Hv. rewrite length_drop in Hv. cbn in Hv. lia.
  - intros Hd. pose proof (values_next_of l d) as Hv.
    rewrite drop_ge in Hv by done. by destruct (LinkedList.next_of l d).
Qed.

(** When [insert(pos, value)] raises and when it does not, for every integer
    [pos]. *)
Lemma linked_list_insert_run self pos value :
  let n := len (LinkedList.traverse self) in
  let at_ := Z.to_nat (if bool_decide (pos = 0) then 0 else Z.max 0 (pos - 1) + 1) in
  if bool_decide (pos = 0 ∨ Z.max 0 (pos - 1) < n)
  then ∃ self', LinkedList.insert pos value self = (Ok tt, self') ∧
                LinkedList.traverse self'
                = take at_ (LinkedList.traverse self) ++ value :: drop at_ (LinkedList.traverse self)
  else LinkedList.insert pos value self = (Raise IndexError, self).
Proof.
  intros n at_. unfold LinkedList.insert. subst n at_.
  destruct (decide (pos = 0)) as [Hpos0|Hpos0].
  - rewrite !(bool_decide_eq_true_2 (pos = 0)) by done.
    rewrite bool_decide_eq_true_2 by auto. eexists. split; [reflexivity|].
    unfold LinkedList.traverse. cbn. by rewrite drop_0.
  - rewrite !(bool_decide_eq_false_2 (pos = 0)) by done.
    rewrite run_bind, node_at_run.
    destruct (decide (Z.max 0 (pos - 1) < len (LinkedList.traverse self))) as [Hn|Hn].
    + rewrite !bool_decide_eq_true_2 by auto. eexists. split; [reflexivity|].
      unfold LinkedList.traverse in *. cbn [LinkedList.head].
      rewrite values_set_next by (unfold len in Hn; lia).
      cbn [LinkedList.values]. rewrite values_next_of.
      by replace (Z.to_nat (Z.max 0 (pos - 1) + 1)) with (S (Z.to_nat (pos - 1))) by lia.
    + rewrite (bool_decide_eq_false_2 _ Hn).
      rewrite bool_decide_eq_false_2; [done|]. intros [?|?]; done.
Qed.

(** The same for [delete(pos)]. *)
Lemma linked_list_delete_run self pos :
  let n := len (LinkedList.traverse self) in
  let at_ := Z.to_nat (if bool_decide (pos = 0) then 0 else Z.max 0 (pos - 1) + 1) in
  if bool_decide (Z.of_nat at_ < n)
  then ∃ self', LinkedList.delete pos self = (Ok tt, self') ∧
                LinkedList.traverse self'
                = take at_ (LinkedList.traverse self) ++ drop (S at_) (LinkedList.traverse self)
  else LinkedList.delete pos self = (Raise IndexError, self).
Proof.
  intros n at_. unfold LinkedList.delete. subst n at_.
  destruct self as [l]. unfold LinkedList.traverse. cbn [LinkedList.head].
  destruct (decide (pos = 0)) as [Hpos0|Hpos0].
  - rewrite !(bool_decide_eq_true_2 (pos = 0)) by done.
    rewrite run_bind. cbn [get_state LinkedList.head].
    destruct l as [|v nxt]; cbn.
    + done.
    + rewrite bool_decide_eq_true_2 by (unfold len; cbn; lia).
      eexists. split; [reflexivity|]. by rewrite drop_0.
  - rewrite !(bool_decide_eq_false_2 (pos = 0)) by done.
    rewrite run_bind, node_at_run. unfold LinkedList.traverse. cbn [LinkedList.head].
    replace (Z.to_nat (Z.max 0 (pos - 1) + 1)) with (S (Z.to_nat (pos - 1))) by lia.
    destruct (decide (Z.max 0 (pos - 1) < len (LinkedList.values l))) as [Hn|Hn].
    2:{ rewrite (bool_decide_eq_false_2 _ Hn).
        by rewrite bool_decide_eq_false_2 by (unfold len in *; lia). }
    rewrite (bool_decide_eq_true_2 _ Hn).
    rewrite run_bind. cbn [get_state LinkedList.head].
    destruct (LinkedList.next_of l (Z.to_nat (pos - 1))) as [|v nxt] eqn:Hnext.
    + apply next_of_null in Hnext.
      by rewrite bool_decide_eq_false_2 by (unfold len in *; lia).
    + assert (¬ (length (LinkedList.values l) ≤ S (Z.to_nat (pos - 1)))%nat) as Hlen.
      { rewrite <-next_of_null, Hnext. done. }
      rewrite bool_decide_eq_true_2 by (unfold len; lia).
      eexists. split; [reflexivity|]. cbn [LinkedList.head].
      rewrite values_set_next by (unfold len in Hn; lia).
      pose proof (values_next_of l (Z.to_nat (pos - 1))) as Hv.
      rewrite Hnext in Hv. cbn [LinkedList.values] in Hv.
      f_equal. change (S (S (Z.to_nat (pos - 1)))) with (1 + S (Z.to_nat (pos - 1)))%nat.
      rewrite Nat.add_comm, <-drop_drop, <-Hv. done.
Qed.

End LinkedListFacts.

(** C7, at the list [[10]] (and [[10, 20]]) and [pos = -1]: the position is
    outside [[0, n]], yet [insert(-1, 20)] does not raise and puts the value
    after the head, and [delete(-1)] removes the node after the head. *)
Theorem linked_list_negative_position :
  LinkedList.insert (-1) 20 {| LinkedList.head := LinkedList.Node 10 LinkedList.null |}
  = (Ok tt, {| LinkedList.head :=
                 LinkedList.Node 10 (LinkedList.Node 20 LinkedList.null) |}) ∧
  LinkedList.delete (-1)
    {| LinkedList.head := LinkedList.Node 10 (LinkedList.Node 20 LinkedList.null) |}
  = (Ok tt, {| LinkedList.head := LinkedList.Node 10 LinkedList.null |}).
Proof. split; reflexivity. Qed.

(** ** Loops that keep an invariant of the state *)

Lemma for_each_ok {St I T} (Inv : St → Prop) (Q : I → Prop)
    (body : I → T → M St T) xs :
  (∀ x acc s, Q x → Inv s → ∃ acc' s', body x acc s = (Ok acc', s') ∧ Inv s') →
  Forall Q xs → ∀ acc s, Inv s →
  ∃ acc' s', for_each xs body acc s = (Ok acc', s') ∧ Inv s'.
Proof.
  intros Hbody. induction xs as [|x xs IH]; intros HQ acc s HInv; cbn [for_each].
  - exists acc, s. by rewrite run_ret.
  - apply Forall_cons in HQ as [Hx HQ].
    destruct (Hbody x acc s Hx HInv) as (acc1 & s1 & Hrun & HInv1).
    rewrite run_bind, Hrun. by apply IH.
Qed.

(** ** Array *)

Section ArrayFacts.
Context {V : Type} `{!HasNone V}.
Implicit Types self : Array.Array V.

Lemma array_init_wf capacity : array_wf (Array.__init__ capacity).
Proof.
  unfold array_wf, Array.__init__, py_repeat, len. cbn. lia.
Qed.

(** Copying one slot into another, both inside the buffer, succeeds and
    keeps the shape. *)
Lemma array_move_run self src dst :
  0 ≤ src < len (Array._data self) → 0 ≤ dst < len (Array._data self) →
  ∃ self', (v ← Array.get_data src; Array.set_data dst v) self = (Ok tt, self') ∧
           Array._size self' = Array._size self ∧
           length (Array._data self') = length (Array._data self).
Proof.
  intros Hsrc Hdst.
  destruct (lookup_lt_is_Some_2 (Array._data self) (Z.to_nat src)) as [v Hv];
    [unfold len in *; lia|].
  rewrite run_bind. unfold Array.get_data.
  rewrite (py_getitem_nonneg _ src v) by (done || lia).
  unfold Array.set_data. rewrite py_setitem_nonneg by done.
  eexists. split; [reflexivity|]. cbn. by rewrite length_insert.
Qed.

Lemma array_moves_run self (f : Z → Z) (xs : list Z) :
  Forall (λ i, 0 ≤ f i < len (Array._data self) ∧ 0 ≤ i < len (Array._data self)) xs →
  ∃ self', for_each xs (λ i _, v ← Array.get_data (f i); Array.set_data i v) tt self
           = (Ok tt, self') ∧
           Array._size self' = Array._size self ∧
           length (Array._data self') = length (Array._data self).
Proof.
  intros Hxs.
  destruct (for_each_ok
              (λ s : Array.Array V,
                 Array._size s = Array._size self ∧
                 length (Array._data s) = length (Array._data self))
              (λ i, 0 ≤ f i < len (Array._data self) ∧ 0 ≤ i < len (Array._data self))
              (λ i (_ : unit), v ← Array.get_data (f i); Array.set_data i v) xs)
    with (acc := tt) (s := self) as ([] & self' & Hrun & Hinv); [|done|done|by exists self'].
  intros i [] s [Hsrc Hdst] [Hsz Hlen].
  destruct (array_move_run s (f i) i) as (s' & Hrun & Hsz' & Hlen');
    [unfold len in *; lia..|].
  exists tt, s'. split; [done|]. split; congruence.
Qed.

Lemma array_make_room_run self index :
  0 ≤ index ≤ Array._size self → Array._size self < len (Array._data self) →
  ∃ self', Array._make_room index self = (Ok tt, self') ∧
           Array._size self' = Array._size self ∧
           length (Array._data self') = length (Array._data self).
Proof.
  intros Hindex Hsize. unfold Array._make_room. rewrite run_bind. cbn [get_state].
  apply (array_moves_run self (λ i, i - 1)).
  unfold py_range_down. rewrite Forall_fmap, Forall_seqZ. intros t Ht. cbn. lia.
Qed.

Lemma array_close_gap_run self index :
  0 ≤ index < Array._size self → Array._size self ≤ len (Array._data self) →
  ∃ self', Array._close_gap index self = (Ok tt, self') ∧
           Array._size self' = Array._size self ∧
           length (Array._data self') = length (Array._data self).
Proof.
  intros Hindex Hsize. unfold Array._close_gap. rewrite run_bind. cbn [get_state].
  destruct (array_moves_run self (λ i, i + 1) (py_range index (Array._size self - 1)))
    as (s1 & Hrun & Hsz & Hlen).
  { rewrite Forall_forall. intros i Hi%elem_of_py_range. lia. }
  rewrite run_bind, Hrun, run_bind. cbn [get_state].
  unfold Array.set_data. rewrite py_setitem_nonneg by (unfold len in *; lia).
  eexists. split; [reflexivity|]. cbn. rewrite length_insert. done.
Qed.

(** [insert] raises at one of its two checks, before it has written
    anything, or goes through. *)
Lemma array_insert_run self index value :
  array_wf self →
  (Array._size self = len (Array._data self) →
   Array.insert index value self = (Raise OverflowError, self)) ∧
  (Array._size self ≠ len (Array._data self) → ¬ 0 ≤ index ≤ Array._size self →
   Array.insert index value self = (Raise IndexError, self)) ∧
  (Array._size self ≠ len (Array._data self) → 0 ≤ index ≤ Array._size self →
   ∃ self', Array.insert index value self = (Ok tt, self') ∧ array_wf self').
Proof.
  intros Hwf. unfold array_wf in Hwf. unfold Array.insert.
  rewrite !run_bind. cbn [get_state].
  split_and!.
  - intros Hfull. by rewrite bool_decide_eq_true_2.
  - intros Hfull Hindex. by rewrite !bool_decide_eq_false_2.
  - intros Hfull Hindex. rewrite bool_decide_eq_false_2, bool_decide_eq_true_2 by done.
    cbn [negb].
    destruct (array_make_room_run self index) as (s1 & Hrun1 & Hsz1 & Hlen1); [lia..|].
    rewrite run_bind, Hrun1, run_bind.
    unfold Array.set_data at 1. rewrite py_setitem_nonneg by (unfold len in *; lia).
    rewrite run_bind. cbn [get_state Array.set_size].
    eexists. split; [reflexivity|]. unfold array_wf, len in *. cbn.
    rewrite length_insert. lia.
Qed.

(** [delete] and [access] raise at the bounds check or go through. *)
Lemma array_delete_run self index :
  array_wf self →
  (¬ 0 ≤ index < Array._size self →
   Array.delete index self = (Raise IndexError, self)) ∧
  (0 ≤ index < Array._size self →
   ∃ self', Array.delete index self = (Ok tt, self') ∧ array_wf self').
Proof.
  intros Hwf. unfold array_wf in Hwf. unfold Array.delete, Array._check_bounds.
  rewrite !run_bind. cbn [get_state].
  split.
  - intros Hindex. by rewrite bool_decide_eq_false_2.
  - intros Hindex. rewrite bool_decide_eq_true_2 by done. cbn [negb]. rewrite run_ret.
    destruct (array_close_gap_run self index) as (s1 & Hrun1 & Hsz1 & Hlen1); [lia..|].
    rewrite run_bind, Hrun1, run_bind. cbn [get_state Array.set_size].
    eexists. split; [reflexivity|]. unfold array_wf, len in *. cbn. lia.
Qed.

Lemma array_access_run self index :
  array_wf self →
  (¬ 0 ≤ index < Array._size self →
   Array.access index self = (Raise IndexError, self)) ∧
  (0 ≤ index < Array._size self →
   ∃ v, Array.access index self = (Ok v, self) ∧
        Array._data self !! Z.to_nat index = Some v).
Proof.
  intros Hwf. unfold array_wf in Hwf. unfold Array.access, Array._check_bounds.
  rewrite !run_bind. cbn [get_state].
  split.
  - intros Hindex. by rewrite bool_decide_eq_false_2.
  - intros Hindex. rewrite bool_decide_eq_true_2 by done. cbn [negb]. rewrite run_ret.
    destruct (lookup_lt_is_Some_2 (Array._data self) (Z.to_nat index)) as [v Hv];
      [unfold len in *; lia|].
    exists v. unfold Array.get_data.
    by rewrite (py_getitem_nonneg _ index v) by (done || lia).
Qed.

End ArrayFacts.

(** ** Queue *)

Lemma mod_wrap cap x : 0 ≤ x < 2 * cap →
  x `mod` cap = if bool_decide (x < cap) then x else x - cap.
Proof.
  intros. case_bool_decide.
  - apply Z.mod_small. lia.
  - replace x with (x - cap + 1 * cap) at 1 by lia.
    rewrite Z.mod_add by lia. apply Z.mod_small. lia.
Qed.

Lemma mod_offset cap head j : 0 ≤ head < cap → 0 ≤ j < cap →
  (j - head) `mod` cap = if bool_decide (head ≤ j) then j - head else j - head + cap.
Proof.
  intros. replace (j - head) with (j - head + cap + (-1) * cap) at 1 by lia.
  rewrite Z.mod_add by lia. rewrite mod_wrap by lia.
  repeat case_bool_decide; lia.
Qed.

Section QueueFacts.
Context {V : Type} `{!HasNone V}.
Implicit Types (q : Queue.Queue V) (m : list V).

Lemma queue_init_holds capacity : queue_holds (Queue.__init__ capacity) [].
Proof.
  unfold queue_holds, Queue.__init__, py_repeat, len. cbn.
  rewrite length_replicate. split_and!; [done|lia|done| |].
  - intros. split; [lia|]. rewrite Z.add_0_r. by rewrite Z.mod_0_l by lia.
  - intros j Hj. by rewrite lookup_replicate_2.
Qed.

Lemma enqueue_run q m val :
  queue_holds q m → len m < len (Queue._buf q) →
  ∃ q', Queue.enqueue val q = (Ok tt, q') ∧ queue_holds q' (m ++ [val]) ∧
        length (Queue._buf q') = length (Queue._buf q).
Proof.
  destruct q as [buf head tail size]. unfold queue_holds. cbn [Queue._buf Queue._head Queue._tail Queue._size].
  intros (Hsize & Hcap & _ & Hpos & Hslots) Hroom.
  destruct Hpos as [Hhead Htail]; [unfold len in *; lia|].
  assert (Htail' : 0 ≤ tail < len buf).
  { rewrite Htail. apply Z.mod_pos_bound. lia. }
  unfold Queue.enqueue. rewrite run_bind. cbn [get_state Queue._buf Queue._size].
  rewrite bool_decide_eq_false_2 by lia.
  rewrite run_bind. unfold Queue.set_buf at 1. cbn [Queue._buf Queue._head Queue._tail Queue._size].
  rewrite py_setitem_nonneg by done.
  rewrite run_bind. cbn [get_state]. rewrite run_bind. unfold lift, py_mod.
  cbn [Queue._buf Queue._head Queue._tail Queue._size].
  assert (Hlen : len (<[Z.to_nat tail:=val]> buf) = len buf).
  { unfold len. by rewrite length_insert. }
  rewrite Hlen, bool_decide_eq_false_2 by lia.
  rewrite run_bind. cbn [put_state]. rewrite run_bind. cbn [get_state put_state].
  cbn [Queue._buf Queue._head Queue._tail Queue._size].
  eexists. split; [reflexivity|]. cbn [Queue._buf Queue._head Queue._tail Queue._size].
  rewrite Hlen, length_insert. split; [|done].
  split_and!.
  - unfold len in *. rewrite length_app. cbn. lia.
  - lia.
  - lia.
  - intros _. split; [done|]. rewrite Htail, Zplus_mod_idemp_l. f_equal. lia.
  - intros j Hj. destruct (decide (j = Z.to_nat tail)) as [->|Hne].
    + rewrite list_lookup_insert_eq by (unfold len in *; lia).
      rewrite Z2Nat.id by lia. rewrite Htail, Zminus_mod_idemp_l.
      replace (head + size - head) with size by lia.
      rewrite Z.mod_small by (unfold len in *; lia).
      rewrite lookup_app_r by (unfold len in *; lia).
      replace (Z.to_nat size - length m)%nat with 0%nat by (unfold len in *; lia). done.
    + rewrite list_lookup_insert_ne by done. rewrite Hslots by done.
      assert (Hoff : (Z.of_nat j - head) `mod` len buf ≠ size).
      { rewrite mod_offset by (unfold len in *; lia).
        rewrite Htail, mod_wrap in Hne by (unfold len in *; lia).
        repeat case_bool_decide; unfold len in *; lia. }
      pose proof (Z.mod_pos_bound (Z.of_nat j - head) (len buf)) as Hb.
      destruct (decide ((Z.of_nat j - head) `mod` len buf < size)).
      * by rewrite lookup_app_l by (unfold len in *; lia).
      * rewrite !lookup_ge_None_2; [done| |]; rewrite ?length_app; unfold len in *; cbn; lia.
Qed.

Lemma dequeue_run q val m :
  queue_holds q (val :: m) →
  ∃ q', Queue.dequeue q = (Ok val, q') ∧ queue_holds q' m ∧
        length (Queue._buf q') = length (Queue._buf q).
Proof.
  destruct q as [buf head tail size]. unfold queue_holds. cbn [Queue._buf Queue._head Queue._tail Queue._size].
  intros (Hsize & Hcap & _ & Hpos & Hslots).
  assert (Hsize' : size = len m + 1) by (unfold len in *; cbn in Hsize; lia).
  destruct Hpos as [Hhead Htail]; [unfold len in *; lia|].
  unfold Queue.dequeue. rewrite run_bind. cbn [get_state Queue._buf Queue._size Queue._head].
  rewrite bool_decide_eq_false_2 by (unfold len in *; lia).
  rewrite run_bind. unfold Queue.get_buf. cbn [Queue._buf].
  assert (Hval : buf !! Z.to_nat head = Some val).
  { rewrite Hslots by (unfold len in *; lia). rewrite Z2Nat.id by lia.
    rewrite Z.sub_diag, Z.mod_0_l by lia. done. }
  rewrite (py_getitem_nonneg buf head val) by (done || lia).
  rewrite run_bind. unfold Queue.set_buf. cbn [Queue._buf Queue._head Queue._tail Queue._size].
  rewrite py_setitem_nonneg by done.
  rewrite run_bind. cbn [get_state]. rewrite run_bind. unfold lift, py_mod.
  cbn [Queue._buf Queue._head Queue._tail Queue._size].
  assert (Hlen : len (<[Z.to_nat head:=pyNone]> buf) = len buf).
  { unfold len. by rewrite length_insert. }
  rewrite Hlen, bool_decide_eq_false_2 by lia.
  rewrite run_bind. cbn [put_state]. rewrite run_bind. cbn [get_state put_state].
  rewrite run_bind. cbn [get_state put_state]. rewrite run_ret.
  cbn [Queue._buf Queue._head Queue._tail Queue._size].
  eexists. split; [reflexivity|]. cbn [Queue._buf Queue._head Queue._tail Queue._size].
  rewrite Hlen, length_insert. split; [|done].
  assert (Hhead' : 0 ≤ (head + 1) `mod` len buf < len buf) by (apply Z.mod_pos_bound; lia).
  split_and!.
  - lia.
  - lia.
  - lia.
  - intros _. split; [done|]. rewrite Htail, Zplus_mod_idemp_l. f_equal. lia.
  - intros j Hj. destruct (decide (j = Z.to_nat head)) as [->|Hne].
    + rewrite list_lookup_insert_eq by (unfold len in *; lia).
      rewrite Z2Nat.id by lia. rewrite lookup_ge_None_2; [done|].
      rewrite mod_offset by lia. rewrite (mod_wrap _ (head + 1)) by lia.
      repeat case_bool_decide; unfold len in *; lia.
    + rewrite list_lookup_insert_ne by done. rewrite Hslots by done.
      f_equal. f_equal.
      assert (Hoff : (Z.of_nat j - (head + 1) `mod` len buf) `mod` len buf
                     = (Z.of_nat j - head) `mod` len buf - 1 ∧
                     1 ≤ (Z.of_nat j - head) `mod` len buf).
      { rewrite !mod_offset by (unfold len in *; lia).
        rewrite (mod_wrap _ (head + 1)) by lia.
        repeat case_bool_decide; unfold len in *; lia. }
      destruct Hoff as [-> Hge].
      replace (Z.to_nat ((Z.of_nat j - head) `mod` len buf))
        with (S (Z.to_nat ((Z.of_nat j - head) `mod` len buf - 1))) by lia.
      done.
Qed.

Lemma queue_holds_cleared q m : queue_holds q m → cleared q.
Proof.
  unfold queue_holds. intros (Hsize & Hcap & _ & Hpos & Hslots) j Hj Hout.
  destruct Hpos as [Hhead Htail]; [unfold len; lia|].
  rewrite Hslots by done. rewrite lookup_ge_None_2; [done|].
  pose proof (Z.mod_pos_bound (Z.of_nat j - Queue._head q) (len (Queue._buf q))) as Hb.
  destruct (decide ((Z.of_nat j - Queue._head q) `mod` len (Queue._buf q) < Queue._size q))
    as [Hin|]; [|unfold len in *; lia].
  destruct Hout. exists ((Z.of_nat j - Queue._head q) `mod` len (Queue._buf q)).
  split; [unfold len in *; lia|].
  rewrite Zplus_mod_idemp_r.
  replace (Queue._head q + (Z.of_nat j - Queue._head q)) with (Z.of_nat j) by lia.
  symmetry. apply Z.mod_small. unfold len. lia.
Qed.

(** The list [__repr__] computes is the abstract queue. *)
Lemma queue_holds_items q m : queue_holds q m → Queue.items q = (Ok m, q).
Proof.
  unfold queue_holds. intros (Hsize & Hcap & _ & Hpos & Hslots).
  unfold Queue.items. rewrite run_bind. cbn [get_state].
  set (body := λ (i : Z) (acc : list V),
         j ← lift (py_mod (Queue._head q + i) (len (Queue._buf q)));
         v ← Queue.get_buf j; mret (acc ++ [v])).
  assert (Hbody : ∀ i acc x, 0 ≤ i → m !! Z.to_nat i = Some x →
            body i acc q = (Ok (acc ++ [x]), q)).
  { intros i acc x Hi Hx. apply lookup_lt_Some in Hx as Hlt.
    destruct Hpos as [Hhead Htail]; [unfold len in *; lia|].
    unfold body. rewrite run_bind. unfold lift, py_mod.
    rewrite bool_decide_eq_false_2 by (unfold len in *; lia).
    pose proof (Z.mod_pos_bound (Queue._head q + i) (len (Queue._buf q))) as Hb.
    rewrite run_bind. unfold Queue.get_buf.
    erewrite py_getitem_nonneg; [by rewrite run_ret|unfold len in *; lia|].
    rewrite Hslots by (unfold len in *; lia).
    rewrite Z2Nat.id by (unfold len in *; lia).
    rewrite Zminus_mod_idemp_l.
    replace (Queue._head q + i - Queue._head q) with i by lia.
    rewrite Z.mod_small by (unfold len in *; lia). by rewrite Hx. }
  assert (Hloop : ∀ (n : nat) i acc, 0 ≤ i → i + Z.of_nat n = Queue._size q →
            for_each (py_range i (Queue._size q)) body acc q
            = (Ok (acc ++ drop (Z.to_nat i) m), q)).
  { clearbody body. induction n as [|n IH]; intros i acc Hi Hn.
    - rewrite py_range_nil by lia. cbn [for_each]. rewrite run_ret.
      rewrite drop_ge by (unfold len in *; lia). by rewrite app_nil_r.
    - rewrite py_range_cons by lia. cbn [for_each].
      destruct (lookup_lt_is_Some_2 m (Z.to_nat i)) as [x Hx]; [unfold len in *; lia|].
      rewrite run_bind, (Hbody i acc x) by done. rewrite IH by lia.
      rewrite <-app_assoc. cbn [app].
      replace (Z.to_nat (i + 1)) with (S (Z.to_nat i)) by lia.
      by rewrite <-(drop_S m x (Z.to_nat i) Hx). }
  rewrite (Hloop (Z.to_nat (Queue._size q)) 0 []) by (unfold len in *; lia).
  by rewrite drop_0.
Qed.

(** Run over admissible operations, the queue returns what the list-based
    queue returns and ends holding what it holds. *)
Lemma queue_run_from ops : ∀ q m acc,
  queue_holds q m → admissible (len (Queue._buf q)) ops m →
  ∃ q', for_each ops (λ o acc, r ← queue_step o; mret (acc ++ [r])) acc q
        = (Ok (acc ++ (list_queue_run ops m).1), q') ∧
        queue_holds q' (list_queue_run ops m).2 ∧
        length (Queue._buf q') = length (Queue._buf q).
Proof.
  induction ops as [|o ops IH]; intros q m acc Hq Hadm; cbn [for_each list_queue_run].
  - exists q. rewrite run_ret. cbn. by rewrite app_nil_r.
  - destruct o as [val|]; cbn [admissible] in Hadm; destruct Hadm as [Hok Hadm];
      cbn [list_queue_step queue_step].
    + destruct (enqueue_run q m val Hq Hok) as (q1 & Hrun & Hq1 & Hlen).
      rewrite run_bind, run_bind, run_bind, Hrun, !run_ret.
      destruct (IH q1 (m ++ [val]) (acc ++ [None]) Hq1) as (q' & Hrun' & Hq' & Hlen').
      { unfold len in *. by rewrite Hlen. }
      destruct (list_queue_run ops (m ++ [val])) as [rs m'] eqn:Hm.
      exists q'. cbn [fst snd] in *. rewrite Hrun', <-app_assoc. split; [done|].
      split; [done|congruence].
    + destruct m as [|val m]; [done|]. cbn [head tail] in *.
      destruct (dequeue_run q val m Hq) as (q1 & Hrun & Hq1 & Hlen).
      rewrite run_bind, run_bind, run_bind, Hrun, !run_ret.
      destruct (IH q1 m (acc ++ [Some val]) Hq1) as (q' & Hrun' & Hq' & Hlen').
      { unfold len in *. by rewrite Hlen. }
      destruct (list_queue_run ops m) as [rs m'] eqn:Hm.
      exists q'. cbn [fst snd] in *. rewrite Hrun', <-app_assoc. split; [done|].
      split; [done|congruence].
Qed.

Lemma admissible_app capacity (ops1 ops2 : list (queue_op V)) : ∀ m,
  admissible capacity (ops1 ++ ops2) m → admissible capacity ops1 m.
Proof.
  induction ops1 as [|[val|] ops1 IH]; intros m; cbn; [done|..];
    intros [? ?]; split; auto.
Qed.

End QueueFacts.

Lemma admissible_mono {V} (c c' : Z) (ops : list (queue_op V)) : ∀ m,
  c ≤ c' → admissible c ops m → admissible c' ops m.
Proof.
  induction ops as [|[val|] ops IH]; intros m Hc; cbn; [done|..];
    intros [? ?]; split; auto with lia.
Qed.

(** C5: over every sequence of calls that never enqueues on a full queue nor
    dequeues from an empty one, however long, a [Queue(capacity)] returns
    what the unbounded list-based queue returns; and after every call (after
    every prefix [pre] of the sequence) it holds, in order, what the list
    holds, and every buffer slot outside the window [[head, head + size)]
    holds [None]. *)
Theorem queue_refines_list_queue {V} `{!HasNone V} (capacity : Z)
    (ops pre post : list (queue_op V)) :
  admissible capacity ops [] → ops = pre ++ post →
  ∃ q, queue_run pre (Queue.__init__ capacity) = (Ok (list_queue_run pre []).1, q) ∧
       Queue.items q = (Ok (list_queue_run pre []).2, q) ∧
       cleared q.
Proof.
  intros Hadm ->. apply admissible_app in Hadm.
  destruct (queue_run_from pre (Queue.__init__ capacity) [] [])
    as (q & Hrun & Hq & _).
  - apply queue_init_holds.
  - apply (admissible_mono capacity); [|done].
    unfold Queue.__init__, py_repeat, len. cbn. rewrite length_replicate. lia.
  - exists q. split; [done|]. split.
    + by apply queue_holds_items.
    + by apply (queue_holds_cleared q (list_queue_run pre []).2).
Qed.

Lemma queue_refines_list_queue_witness :
  ∃ q, queue_run [Enqueue (PyInt 1); Enqueue (PyInt 2); Dequeue; Enqueue (PyInt 3);
                  Dequeue; Dequeue; Enqueue (PyInt 4)]
         (Queue.__init__ 2)
       = (Ok (list_queue_run
                [Enqueue (PyInt 1); Enqueue (PyInt 2); Dequeue; Enqueue (PyInt 3);
                 Dequeue; Dequeue; Enqueue (PyInt 4)] []).1, q) ∧
       Queue.items q
       = (Ok (list_queue_run
                [Enqueue (PyInt 1); Enqueue (PyInt 2); Dequeue; Enqueue (PyInt 3);
                 Dequeue; Dequeue; Enqueue (PyInt 4)] []).2, q) ∧
       cleared q.
Proof.
  apply (queue_refines_list_queue 2
           [Enqueue (PyInt 1); Enqueue (PyInt 2); Dequeue; Enqueue (PyInt 3);
            Dequeue; Dequeue; Enqueue (PyInt 4); Dequeue]
           _ [Dequeue]).
  - cbn. unfold len. cbn. repeat split; (lia || discriminate).
  - reflexivity.
Defined.

(** The run of the witness above, spelled out: seven calls on a queue of
    capacity two, the indices wrapping around twice. *)
Example queue_wraps_around :
  queue_run [Enqueue (PyInt 1); Enqueue (PyInt 2); Dequeue; Enqueue (PyInt 3);
             Dequeue; Dequeue; Enqueue (PyInt 4)]
    (Queue.__init__ 2)
  = (Ok [None; None; Some (PyInt 1); None; Some (PyInt 2); Some (PyInt 3); None],
     {| Queue._buf := [PyNone; PyInt 4]; Queue._head := 1;
        Queue._tail := 0; Queue._size := 1 |}).
Proof. vm_compute. reflexivity. Qed.

(** ** Failing operations *)

Section CleanFailure.
Context {V : Type} `{!HasNone V}.

Lemma py_setitem_len (l l' : list V) i x :
  py_setitem l i x = Ok l' → len l' = len l ∧ len l ≠ 0.
Proof.
  unfold py_setitem. destruct (py_index _ _) as [j|] eqn:Hj; [|done].
  intros [= <-]. apply py_index_lt in Hj. unfold len. rewrite length_insert. lia.
Qed.

Lemma array_insert_clean (self : Array.Array V) index value :
  array_wf self → raises_cleanly (Array.insert index value) self.
Proof.
  intros Hwf e s' Hrun.
  destruct (array_insert_run self index value Hwf) as (Hfull & Hidx & Hok).
  destruct (decide (Array._size self = len (Array._data self))) as [Hf|Hf].
  { rewrite Hfull in Hrun by done. by simplify_eq. }
  destruct (decide (0 ≤ index ≤ Array._size self)) as [Hi|Hi].
  - destruct (Hok Hf Hi) as (s1 & Hrun1 & _). congruence.
  - rewrite Hidx in Hrun by done. by simplify_eq.
Qed.

Lemma array_delete_clean (self : Array.Array V) index :
  array_wf self → raises_cleanly (Array.delete index) self.
Proof.
  intros Hwf e s' Hrun.
  destruct (array_delete_run self index Hwf) as (Hidx & Hok).
  destruct (decide (0 ≤ index < Array._size self)) as [Hi|Hi].
  - destruct (Hok Hi) as (s1 & Hrun1 & _). congruence.
  - rewrite Hidx in Hrun by done. by simplify_eq.
Qed.

Lemma array_access_clean (self : Array.Array V) index :
  array_wf self → raises_cleanly (Array.access index) self.
Proof.
  intros Hwf e s' Hrun.
  destruct (array_access_run self index Hwf) as (Hidx & Hok).
  destruct (decide (0 ≤ index < Array._size self)) as [Hi|Hi].
  - destruct (Hok Hi) as (v & Hrun1 & _). congruence.
  - rewrite Hidx in Hrun by done. by simplify_eq.
Qed.

Lemma queue_enqueue_clean (q : Queue.Queue V) val :
  raises_cleanly (Queue.enqueue val) q.
Proof.
  intros e s'. unfold Queue.enqueue. rewrite run_bind. cbn [get_state].
  case_bool_decide; [by intros [= _ <-]|].
  rewrite run_bind. unfold Queue.set_buf at 1.
  destruct (py_setitem (Queue._buf q) (Queue._tail q) val) as [b| |] eqn:Hset;
    [|by intros [= _ <-]|done].
  apply py_setitem_len in Hset as [Hlen Hne].
  rewrite run_bind. cbn [get_state]. rewrite run_bind. unfold lift, py_mod.
  cbn [Queue._buf]. rewrite Hlen, bool_decide_eq_false_2 by done. done.
Qed.

Lemma queue_dequeue_clean (q : Queue.Queue V) :
  raises_cleanly Queue.dequeue q.
Proof.
  intros e s'. unfold Queue.dequeue. rewrite run_bind. cbn [get_state].
  case_bool_decide; [by intros [= _ <-]|].
  rewrite run_bind. unfold Queue.get_buf at 1.
  destruct (py_getitem (Queue._buf q) (Queue._head q)) as [v| |] eqn:Hget;
    [|by intros [= _ <-]|done].
  apply py_getitem_Ok in Hget as (j & Hj & _).
  rewrite run_bind. unfold Queue.set_buf at 1. unfold py_setitem. rewrite Hj.
  rewrite run_bind. cbn [get_state]. rewrite run_bind. unfold lift, py_mod.
  cbn [Queue._buf]. apply py_index_lt in Hj.
  rewrite bool_decide_eq_false_2 by (unfold len; rewrite length_insert; lia). done.
Qed.

Lemma stack_pop_clean (self : Stack.Stack V) : raises_cleanly Stack.pop self.
Proof.
  intros e s'. unfold Stack.pop. rewrite run_bind. cbn [get_state].
  case_bool_decide; [by intros [= _ <-]|].
  destruct (Stack.list_pop (Stack._s self)) as [[x l]| |]; [done| |done].
  by intros [= _ <-].
Qed.

Lemma linked_list_insert_clean (self : LinkedList.LinkedList V) pos value :
  raises_cleanly (LinkedList.insert pos value) self.
Proof.
  intros e s' Hrun. pose proof (linked_list_insert_run self pos value) as Hspec.
  cbv zeta in Hspec. case_bool_decide.
  - destruct Hspec as (s1 & Hrun1 & _). congruence.
  - rewrite Hspec in Hrun. by simplify_eq.
Qed.

Lemma linked_list_delete_clean (self : LinkedList.LinkedList V) pos :
  raises_cleanly (LinkedList.delete pos) self.
Proof.
  intros e s' Hrun. pose proof (linked_list_delete_run self pos) as Hspec.
  cbv zeta in Hspec. case_bool_decide.
  - destruct Hspec as (s1 & Hrun1 & _). congruence.
  - rewrite Hspec in Hrun. by simplify_eq.
Qed.

End CleanFailure.

(** C6: when [Array.insert], [Array.delete], [Array.access], [Queue.enqueue],
    [Queue.dequeue], [Stack.pop], [LinkedList.insert] or [LinkedList.delete]
    raises, the container is exactly what it was before the call. *)
Theorem failed_operation_has_no_effect {V} `{!HasNone V} :
  (∀ (self : Array.Array V) index value,
     array_wf self → raises_cleanly (Array.insert index value) self) ∧
  (∀ (self : Array.Array V) index,
     array_wf self → raises_cleanly (Array.delete index) self) ∧
  (∀ (self : Array.Array V) index,
     array_wf self → raises_cleanly (Array.access index) self) ∧
  (∀ (self : Queue.Queue V) val, raises_cleanly (Queue.enqueue val) self) ∧
  (∀ (self : Queue.Queue V), raises_cleanly Queue.dequeue self) ∧
  (∀ (self : Stack.Stack V), raises_cleanly Stack.pop self) ∧
  (∀ (self : LinkedList.LinkedList V) pos value,
     raises_cleanly (LinkedList.insert pos value) self) ∧
  (∀ (self : LinkedList.LinkedList V) pos,
     raises_cleanly (LinkedList.delete pos) self).
Proof.
  split_and!.
  - apply array_insert_clean.
  - apply array_delete_clean.
  - apply array_access_clean.
  - apply queue_enqueue_clean.
  - apply queue_dequeue_clean.
  - apply stack_pop_clean.
  - apply linked_list_insert_clean.
  - apply linked_list_delete_clean.
Qed.

Lemma failed_operation_has_no_effect_witness :
  let full := {| Array._data := [PyInt 7]; Array._size := 1 |} in
  let fullq := {| Queue._buf := [PyInt 7]; Queue._head := 0;
                  Queue._tail := 0; Queue._size := 1 |} in
  (Array.insert 0 (PyInt 8) full).2 = full ∧
  (Array.delete 3 full).2 = full ∧
  (Array.access (-1) full).2 = full ∧
  (Queue.enqueue (PyInt 8) fullq).2 = fullq ∧
  (Queue.dequeue (Queue.__init__ (V := pyval) 2)).2 = Queue.__init__ 2 ∧
  (Stack.pop (Stack.__init__ (V := pyval))).2 = Stack.__init__ ∧
  (LinkedList.insert 5 (PyInt 8) LinkedList.__init__).2 = LinkedList.__init__ ∧
  (LinkedList.delete 0 (LinkedList.__init__ (V := pyval))).2 = LinkedList.__init__.
Proof.
  pose proof (failed_operation_has_no_effect (V := pyval))
    as (Hai & Had & Haa & Hqe & Hqd & Hsp & Hli & Hld).
  assert (Hwf : array_wf {| Array._data := [PyInt 7]; Array._size := 1 |}).
  { unfold array_wf, len. cbn. lia. }
  cbv zeta. split_and!.
  - apply (Hai _ 0 (PyInt 8) Hwf OverflowError). reflexivity.
  - apply (Had _ 3 Hwf IndexError). reflexivity.
  - apply (Haa _ (-1) Hwf IndexError). reflexivity.
  - apply (Hqe _ (PyInt 8) OverflowError). reflexivity.
  - apply (Hqd _ IndexError). reflexivity.
  - apply (Hsp _ IndexError). reflexivity.
  - apply (Hli _ 5 (PyInt 8) IndexError). reflexivity.
  - apply (Hld _ 0 IndexError). reflexivity.
Defined.

(** ** Matrix *)

Section MatrixFacts.
Context {V : Type} `{!HasNone V} `{!HasZero V}.

(** Inserting at the end of a buffer that has room writes the slot and
    grows the size. *)
Lemma array_insert_at_end (self : Array.Array V) value :
  0 ≤ Array._size self < len (Array._data self) →
  Array.insert (Array._size self) value self
  = (Ok tt, {| Array._data := <[Z.to_nat (Array._size self):=value]> (Array._data self);
               Array._size := Array._size self + 1 |}).
Proof.
  intros Hsize. unfold Array.insert. rewrite run_bind. cbn [get_state].
  rewrite bool_decide_eq_false_2 by lia. rewrite bool_decide_eq_true_2 by lia.
  cbn [negb]. rewrite run_bind. unfold Array._make_room.
  rewrite run_bind. cbn [get_state]. unfold py_range_down.
  rewrite seqZ_nil by lia. cbn [fmap list_fmap for_each]. rewrite run_ret.
  rewrite run_bind. unfold Array.set_data. rewrite py_setitem_nonneg by done.
  rewrite run_bind. reflexivity.
Qed.

(** The inner loop of [Matrix.__init__] fills a fresh row with zeros. *)
Lemma fill_row_run (cols : Z) (n : nat) : ∀ c (self : Array.Array V),
  0 ≤ c → c + Z.of_nat n = Z.max 0 cols →
  self = {| Array._data := replicate (Z.to_nat c) pyZero ++ replicate n pyNone;
            Array._size := c |} →
  for_each (py_range c cols) (λ c (_ : unit), Array.insert c pyZero) tt self
  = (Ok tt, {| Array._data := replicate (Z.to_nat (Z.max 0 cols)) pyZero;
               Array._size := Z.max 0 cols |}).
Proof.
  induction n as [|n IH]; intros c self Hc Hn ->.
  - rewrite py_range_nil by lia. cbn [for_each replicate]. rewrite run_ret, app_nil_r.
    by replace (Z.max 0 cols) with c by lia.
  - rewrite py_range_cons by lia. cbn [for_each]. rewrite run_bind.
    rewrite (array_insert_at_end {| Array._data := _; Array._size := c |}); cbn [Array._data Array._size].
    2:{ unfold len. rewrite length_app, !length_replicate. lia. }
    apply IH; [lia|lia|]. f_equal.
    rewrite insert_app_r_alt by (rewrite length_replicate; lia).
    rewrite length_replicate, Nat.sub_diag. cbn [replicate].
    replace (Z.to_nat (c + 1)) with (S (Z.to_nat c)) by lia.
    rewrite replicate_S_end, <-app_assoc. done.
Qed.

(** [Matrix(rows, cols)] is built without an exception and is full of
    zeros. *)
Lemma matrix_init_run (rows cols : Z) :
  Matrix.__init__ rows cols
  = Ok {| Matrix._rows := replicate (Z.to_nat rows) (zero_row cols) |}.
Proof.
  unfold Matrix.__init__. rewrite length_replicate.
  set (fill := for_each (py_range 0 cols) (λ c (_ : unit), Array.insert c pyZero) tt).
  assert (Hfill : fill (Array.__init__ cols) = (Ok tt, zero_row cols)).
  { unfold fill, Array.__init__, py_repeat.
    apply (fill_row_run cols (Z.to_nat cols)); [lia|lia|].
    by rewrite Z2Nat.inj_0. }
  assert (Hloop : ∀ (todo done_ : nat),
            for_each (seq done_ todo) (λ r (_ : unit), Matrix.on_row r fill) tt
              (replicate done_ (zero_row cols) ++ replicate todo (Array.__init__ cols))
            = (Ok tt, replicate (done_ + todo) (zero_row cols))).
  { clearbody fill. induction todo as [|todo IH]; intros done_; cbn [seq for_each].
    - by rewrite run_ret, app_nil_r, Nat.add_0_r.
    - rewrite run_bind. unfold Matrix.on_row at 1.
      rewrite lookup_app_r by (rewrite length_replicate; lia).
      rewrite length_replicate, Nat.sub_diag. cbn [replicate lookup list_lookup].
      rewrite Hfill.
      rewrite insert_app_r_alt by (rewrite length_replicate; lia).
      rewrite length_replicate, Nat.sub_diag. cbn [insert list_insert].
      rewrite (cons_middle _ (replicate done_ _)), app_assoc.
      rewrite <-replicate_S_end. rewrite (IH (S done_)).
      by replace (S done_ + todo)%nat with (done_ + S todo)%nat by lia. }
  specialize (Hloop (Z.to_nat rows) 0%nat). cbn [replicate app] in Hloop.
  by rewrite Hloop.
Qed.

Lemma matrix_init_shape (rows cols : Z) :
  0 ≤ rows → 0 ≤ cols →
  matrix_shape rows cols {| Matrix._rows := replicate (Z.to_nat rows) (zero_row cols) |}.
Proof.
  intros. unfold matrix_shape, len. cbn. rewrite length_replicate. split; [lia|].
  apply Forall_replicate. cbn. rewrite length_replicate. lia.
Qed.

End MatrixFacts.

Lemma py_index_from_end (k : nat) i :
  - Z.of_nat k ≤ i < Z.of_nat k → py_index k i = Some (from_end (Z.of_nat k) i).
Proof.
  intros Hi. unfold from_end. case_bool_decide.
  - by rewrite py_index_neg by lia.
  - by rewrite py_index_nonneg by lia.
Qed.

Lemma from_end_lt (n i : Z) : - n ≤ i < n → (from_end n i < Z.to_nat n)%nat.
Proof. unfold from_end. case_bool_decide; lia. Qed.

(** C10: [Matrix.get] and [Matrix.set] check no bounds of their own and go
    past [Array.access] and [Array.insert]: on every [Matrix(rows, cols)],
    for [-rows <= r < rows] and [-cols <= c < cols], negative values included,
    both succeed; they read and write slot [c] (from the end when negative)
    of the buffer of row [r] (from the end when negative) and nothing else;
    [Array.access] on that row would raise for a negative [c], and
    [Array.insert] would raise because the row is full. *)
Theorem matrix_accepts_negative_indices {V} `{!HasNone V} `{!HasZero V}
    (rows cols r c : Z) (val : V) (m : Matrix.Matrix V) :
  - rows ≤ r < rows → - cols ≤ c < cols →
  Matrix.__init__ rows cols = Ok m ∨ matrix_shape rows cols m →
  ∃ row v,
    Matrix._rows m !! from_end rows r = Some row ∧
    Array._data row !! from_end cols c = Some v ∧
    Matrix.get r c m = (Ok v, m) ∧
    let m' := {| Matrix._rows :=
                   <[from_end rows r :=
                       {| Array._data := <[from_end cols c := val]> (Array._data row);
                          Array._size := Array._size row |}]> (Matrix._rows m) |} in
    Matrix.set r c val m = (Ok tt, m') ∧
    Matrix.get r c m' = (Ok val, m') ∧
    matrix_shape rows cols m' ∧
    (c < 0 → Array.access c row = (Raise IndexError, row)) ∧
    Array.insert c val row = (Raise OverflowError, row).
Proof.
  intros Hr Hc Hm.
  assert (Hshape : matrix_shape rows cols m).
  { destruct Hm as [Hinit|]; [|done]. rewrite matrix_init_run in Hinit.
    simplify_eq. apply matrix_init_shape; lia. }
  clear Hm. destruct Hshape as [Hrows Hall]. destruct m as [rs]. cbn [Matrix._rows] in *.
  pose proof (from_end_lt rows r Hr) as Hi. pose proof (from_end_lt cols c Hc) as Hj.
  destruct (lookup_lt_is_Some_2 rs (from_end rows r)) as [row Hrow]; [unfold len in *; lia|].
  pose proof (proj1 (Forall_lookup _ _) Hall _ _ Hrow) as [Hdata Hsize].
  destruct (lookup_lt_is_Some_2 (Array._data row) (from_end cols c)) as [v Hv];
    [unfold len in *; lia|].
  assert (Hri : py_index (length rs) r = Some (from_end rows r)).
  { rewrite <-Hrows. apply py_index_from_end. unfold len in *. lia. }
  assert (Hci : py_index (length (Array._data row)) c = Some (from_end cols c)).
  { rewrite <-Hdata. apply py_index_from_end. unfold len in *. lia. }
  exists row, v. cbv zeta. split_and!.
  - done.
  - done.
  - unfold Matrix.get, py_getitem. cbn [Matrix._rows]. by rewrite Hri, Hrow, Hci, Hv.
  - unfold Matrix.set, py_setitem. cbn [Matrix._rows]. by rewrite Hri, Hrow, Hci.
  - unfold Matrix.get, py_getitem. cbn [Matrix._rows Array._data].
    rewrite !length_insert, Hri.
    rewrite list_lookup_insert_eq by (unfold len in *; lia). cbn [Array._data].
    rewrite length_insert, Hci.
    by rewrite list_lookup_insert_eq by (unfold len in *; lia).
  - split; cbn [Matrix._rows].
    + unfold len in *. by rewrite length_insert.
    + apply Forall_insert; [done|]. cbn. unfold len in *. by rewrite length_insert.
  - intros Hneg. unfold Array.access, Array._check_bounds.
    rewrite run_bind, run_bind. cbn [get_state].
    by rewrite bool_decide_eq_false_2 by lia.
  - unfold Array.insert. rewrite run_bind. cbn [get_state].
    by rewrite bool_decide_eq_true_2 by lia.
Qed.

Lemma matrix_accepts_negative_indices_witness :
  ∃ row v,
    Matrix._rows {| Matrix._rows := replicate 2 (zero_row 3) |} !! from_end 2 (-1) = Some row ∧
    Array._data row !! from_end 3 (-3) = Some v ∧
    Matrix.get (-1) (-3) {| Matrix._rows := replicate 2 (zero_row 3) |}
    = (Ok v, {| Matrix._rows := replicate 2 (zero_row 3) |}) ∧
    let m' := {| Matrix._rows :=
                   <[from_end 2 (-1) :=
                       {| Array._data := <[from_end 3 (-3) := PyInt 5]> (Array._data row);
                          Array._size := Array._size row |}]>
                     (Matrix._rows {| Matrix._rows := replicate 2 (zero_row 3) |}) |} in
    Matrix.set (-1) (-3) (PyInt 5) {| Matrix._rows := replicate 2 (zero_row 3) |} = (Ok tt, m') ∧
    Matrix.get (-1) (-3) m' = (Ok (PyInt 5), m') ∧
    matrix_shape 2 3 m' ∧
    (-3 < 0 → Array.access (-3) row = (Raise IndexError, row)) ∧
    Array.insert (-3) (PyInt 5) row = (Raise OverflowError, row).
Proof.
  apply (matrix_accepts_negative_indices 2 3 (-1) (-3) (PyInt 5)).
  - lia.
  - lia.
  - left. vm_compute. reflexivity.
Defined.

(** * Further properties *)

(** ** Selection engine *)

Lemma filter_all {A} (P : A → Prop) `{!∀ x, Decision (P x)} (l : list A) :
  Forall P l → filter P l = l.
Proof.
  induction 1 as [|x l Hx _ IH]; [done|]. by rewrite filter_cons_True, IH.
Qed.

Lemma filter_none {A} (P : A → Prop) `{!∀ x, Decision (P x)} (l : list A) :
  Forall (λ x, ¬ P x) l → filter P l = [].
Proof.
  induction 1 as [|x l Hx _ IH]; [done|]. by rewrite filter_cons_False.
Qed.

(** Under a strict weak order [stable_sort] does what [list.sort]
    promises: the result holds the same entries, in ascending order of key,
    and the entries whose keys tie stand in the order they had. *)
Lemma stable_sort_is_stable {A} (ltb : A → A → bool) (l : list (A * Z)) :
  strict_weak_order ltb →
  stable_sort ltb l ≡ₚ l ∧
  StronglySorted (λ p q : A * Z, py_le ltb p.1 q.1) (stable_sort ltb l) ∧
  ∀ v, filter (λ p : A * Z, tied ltb p.1 v = true) (stable_sort ltb l)
       = filter (λ p : A * Z, tied ltb p.1 v = true) l.
Proof.
  intros (Hirr & Htrans & Hneg). split; [apply stable_sort_perm|].
  assert (Hins_sorted : ∀ x l0,
    StronglySorted (λ p q : A * Z, py_le ltb p.1 q.1) l0 →
    StronglySorted (λ p q : A * Z, py_le ltb p.1 q.1) (insert_by_key ltb x l0)).
  { intros x l0. induction 1 as [|y l0 Hl IH Hy]; cbn [insert_by_key].
    - repeat constructor.
    - destruct (ltb y.1 x.1) eqn:Hyx.
      + constructor; [done|]. rewrite insert_by_key_perm. constructor; [|done].
        unfold py_le. destruct (ltb x.1 y.1) eqn:Hxy; [|done].
        pose proof (Htrans _ _ _ Hxy Hyx) as Hxx. by rewrite Hirr in Hxx.
      + constructor; [by constructor|]. constructor; [done|].
        eapply Forall_impl; [exact Hy|]. intros z Hz. unfold py_le in *.
        by apply (Hneg _ y.1). }
  assert (Hins_filter : ∀ v x l0,
    filter (λ p : A * Z, tied ltb p.1 v = true) (insert_by_key ltb x l0)
    = filter (λ p : A * Z, tied ltb p.1 v = true) (x :: l0)).
  { intros v x l0. induction l0 as [|y l0 IH]; cbn [insert_by_key]; [done|].
    destruct (ltb y.1 x.1) eqn:Hyx; [|done].
    rewrite (filter_cons _ y), IH, !(filter_cons _ x), (filter_cons _ y).
    destruct (decide (tied ltb y.1 v = true)) as [Hy|]; [|done].
    destruct (decide (tied ltb x.1 v = true)) as [Hx|]; [|done].
    unfold tied in Hx, Hy.
    apply andb_true_iff in Hx as [Hxv Hvx], Hy as [Hyv Hvy].
    apply negb_true_iff in Hxv, Hvx, Hyv, Hvy.
    by rewrite (Hneg _ _ _ Hyv Hvx) in Hyx. }
  split.
  - induction l as [|x l IH]; cbn [stable_sort]; [constructor|]. by apply Hins_sorted.
  - intros v. induction l as [|x l IH]; cbn [stable_sort]; [done|].
    by rewrite Hins_filter, !(filter_cons _ x), IH.
Qed.

(** A list whose first [k] elements satisfy [P] and whose others do not has
    [k] elements that satisfy [P]. *)
Lemma length_filter_prefix {A} (P : A → Prop) `{!∀ x, Decision (P x)}
    (l : list A) (k : nat) :
  (k ≤ length l)%nat →
  (∀ i x, (i < k)%nat → l !! i = Some x → P x) →
  (∀ i x, (k ≤ i)%nat → l !! i = Some x → ¬ P x) →
  length (filter P l) = k.
Proof.
  intros Hk Hin Hout. rewrite <-(take_drop k l), filter_app, length_app.
  rewrite filter_all, filter_none, length_take; [cbn; lia| |].
  - apply Forall_lookup. intros i x Hx. rewrite lookup_drop in Hx.
    apply (Hout (k + i)%nat x); [lia|done].
  - apply Forall_lookup. intros i x Hx.
    apply lookup_take_Some in Hx as [Hx ?]. by apply (Hin i x).
Qed.

(** X1: on a list whose elements [<] orders as a strict weak order, and
    for valid bounds, [_median_of_medians] raises nothing, leaves the list as
    it is and returns one of the indices [low..high]. *)
Theorem median_of_medians_in_range {A} (ltb : A → A → bool) (a : list A) (low high : Z) :
  strict_weak_order ltb →
  0 ≤ low → low ≤ high → high < len a →
  ∃ p, _median_of_medians ltb low high a = (Ok p, a) ∧ low ≤ p ≤ high.
Proof. intros _. apply median_of_medians_run. Qed.

Lemma median_of_medians_in_range_witness :
  ∃ p, _median_of_medians Z.ltb 1 7 [4; 8; 1; 9; 3; 7; 2; 6; 5] = (Ok p, [4; 8; 1; 9; 3; 7; 2; 6; 5]) ∧
       1 ≤ p ≤ 7.
Proof.
  apply (median_of_medians_in_range Z.ltb [4; 8; 1; 9; 3; 7; 2; 6; 5] 1 7);
    [|lia|lia|vm_compute; reflexivity].
  split_and!; intros; lia.
Defined.

(** X2: the index [_partition] returns is [low] plus the number of elements
    of [a[low:high+1]] that are smaller than the pivot. *)
Theorem partition_index_counts_smaller {A} (ltb : A → A → bool) (a : list A)
    (low high pivot_index : Z) :
  (∀ x, ltb x x = false) →
  0 ≤ low → low ≤ pivot_index → pivot_index ≤ high → high < len a →
  ∃ p a' pivot,
    _partition ltb low high pivot_index a = (Ok p, a') ∧
    py_getitem a pivot_index = Ok pivot ∧
    p = low + len (filter (λ x, ltb x pivot = true) (py_slice a low (high + 1))).
Proof.
  intros Hirr Hlow Hpi Hpi' Hhigh.
  destruct (partition_run ltb a low high pivot_index)
    as (p & a' & pivot & Hrun & Hp & Hlen & Hperm & Hpiv0 & Hpiv & Hfr & Hlt & Hge);
    [lia..|].
  exists p, a', pivot. split_and!; [done|by apply py_getitem_nonneg; [lia|]|].
  assert (Hslice : py_slice a' low (high + 1) ≡ₚ py_slice a low (high + 1)).
  { rewrite !py_slice_range by (unfold len in *; lia).
    apply frame_slice_perm; [done|]. intros q Hq. apply Hfr. lia. }
  unfold len at 1. rewrite <-Hslice, py_slice_range by (unfold len in *; lia).
  rewrite (length_filter_prefix _ _ (Z.to_nat (p - low))); [lia| | |].
  - rewrite length_take, length_drop. unfold len in *. lia.
  - intros i x Hi Hx. apply lookup_take_Some in Hx as [Hx _]. rewrite lookup_drop in Hx.
    apply (Hlt (low + Z.of_nat i) x); [lia|].
    by replace (Z.to_nat (low + Z.of_nat i)) with (Z.to_nat low + i)%nat by lia.
  - intros i x Hi Hx. apply lookup_take_Some in Hx as [Hx Hi']. rewrite lookup_drop in Hx.
    apply not_true_iff_false.
    destruct (decide (low + Z.of_nat i = p)) as [Heq|Hne].
    + replace (Z.to_nat low + i)%nat with (Z.to_nat p) in Hx by lia.
      simplify_eq. apply Hirr.
    + apply (Hge (low + Z.of_nat i) x); [lia|].
      by replace (Z.to_nat (low + Z.of_nat i)) with (Z.to_nat low + i)%nat by lia.
Qed.

Lemma partition_index_counts_smaller_witness :
  ∃ p a' pivot,
    _partition Z.ltb 1 5 3 [9; 4; 7; 5; 1; 5; 0] = (Ok p, a') ∧
    py_getitem [9; 4; 7; 5; 1; 5; 0] 3 = Ok pivot ∧
    p = 1 + len (filter (λ x, Z.ltb x pivot = true) (py_slice [9; 4; 7; 5; 1; 5; 0] 1 (5 + 1))).
Proof.
  apply (partition_index_counts_smaller Z.ltb [9; 4; 7; 5; 1; 5; 0] 1 5 3).
  - intros x. apply Z.ltb_irrefl.
  - lia.
  - lia.
  - lia.
  - vm_compute. reflexivity.
Defined.

Section SelectSlot.
Context {A : Type}.
Variable ltb : A → A → bool.
Implicit Types a : list A.

(** Whatever [<] is, the loop returns what it leaves at position [k]. *)
Lemma select_loop_slot pick k :
  picks_in_range pick →
  ∀ (fuel n : nat) low high a,
    (Z.to_nat (high - low) < fuel)%nat →
    0 ≤ low → low ≤ k ≤ high → high < len a →
    ∃ x a', select_loop ltb pick fuel n k low high a = (Ok x, a') ∧
            a' ≡ₚ a ∧ a' !! Z.to_nat k = Some x.
Proof.
  intros Hpick fuel.
  induction fuel as [|fuel IH]; intros n low high a Hfuel Hlow Hk Hhigh; [lia|].
  cbn [select_loop]. case_bool_decide as Heq.
  - assert (k = low) as -> by lia.
    destruct (lookup_lt_is_Some_2 a (Z.to_nat low)) as [x Hx]; [unfold len in *; lia|].
    exists x, a. by rewrite (getitem_run a low x) by done.
  - destruct (Hpick n low high a) as (p0 & Hrun0 & Hp0); [lia..|].
    rewrite run_bind, Hrun0.
    destruct (partition_run ltb a low high p0)
      as (p & a1 & pivot & Hrun1 & Hp & Hlen1 & Hperm1 & _ & Hpiv1 & _); [lia..|].
    rewrite run_bind, Hrun1.
    case_bool_decide as Hkp; [|case_bool_decide as Hlt].
    + subst p. exists pivot, a1. by rewrite (getitem_run a1 k pivot) by (done || lia).
    + destruct (IH (S n) low (p - 1) a1) as (x & a2 & Hrun2 & Hperm2 & Hx);
        [lia|lia|lia|unfold len in *; lia|].
      exists x, a2. split; [done|]. split; [by etrans|done].
    + destruct (IH (S n) (p + 1) high a1) as (x & a2 & Hrun2 & Hperm2 & Hx);
        [lia|lia|lia|unfold len in *; lia|].
      exists x, a2. split; [done|]. split; [by etrans|done].
Qed.

End SelectSlot.

(** X3: for every valid [k], [select_deterministic] under any strict weak
    order [<] (elements may tie without being equal), and
    [randomized_quickselect] under any comparison [<] at all, return without
    an exception within [len(a)] rounds of their loop; the value returned is
    an element of [a], the one the rearranged list holds at position [k]. *)
Theorem select_returns_kth_slot {A} (ltb : A → A → bool) (a : list A) (k : Z)
    (fuel : nat) (randint : nat → Z → Z → Z) :
  0 ≤ k < len a → (length a ≤ fuel)%nat →
  (∀ n low high, low ≤ high → low ≤ randint n low high ≤ high) →
  (strict_weak_order ltb →
   ∃ x a', select_deterministic ltb fuel k a = (Ok x, a') ∧
           a' ≡ₚ a ∧ py_getitem a' k = Ok x ∧ x ∈ a) ∧
  (∃ x a', randomized_quickselect ltb randint fuel k a = (Ok x, a') ∧
           a' ≡ₚ a ∧ py_getitem a' k = Ok x ∧ x ∈ a).
Proof.
  intros Hk Hfuel Hrand.
  assert (Hloop : ∀ pick, picks_in_range pick →
            ∃ x a', select_loop ltb pick fuel 0 k 0 (len a - 1) a = (Ok x, a') ∧
                    a' ≡ₚ a ∧ py_getitem a' k = Ok x ∧ x ∈ a).
  { intros pick Hpick.
    destruct (select_loop_slot ltb pick k Hpick fuel 0%nat 0 (len a - 1) a)
      as (x & a' & Hrun & Hperm & Hx); [unfold len in *; lia|lia|lia|lia|].
    exists x, a'. split_and!; [done|done| |].
    - apply py_getitem_nonneg; [lia|done].
    - rewrite <-Hperm. by eapply list_elem_of_lookup_2. }
  split.
  - intros _. unfold select_deterministic. rewrite run_bind. cbn [get_state].
    apply Hloop, median_of_medians_picks.
  - unfold randomized_quickselect. rewrite run_bind. cbn [get_state].
    by apply Hloop, randint_picks.
Qed.

Lemma select_returns_kth_slot_witness :
  (∃ x a', select_deterministic (λ p q : Z * string, p.1 <? q.1) 4 2
             [(3, "c"); (1, "a"); (4, "d"); (1, "b")] = (Ok x, a') ∧
           a' ≡ₚ [(3, "c"); (1, "a"); (4, "d"); (1, "b")] ∧
           py_getitem a' 2 = Ok x ∧ x ∈ [(3, "c"); (1, "a"); (4, "d"); (1, "b")]) ∧
  (∃ x a', randomized_quickselect (λ p q : Z * string, p.1 <? q.1) (λ _ _ high, high) 4 2
             [(3, "c"); (1, "a"); (4, "d"); (1, "b")] = (Ok x, a') ∧
           a' ≡ₚ [(3, "c"); (1, "a"); (4, "d"); (1, "b")] ∧
           py_getitem a' 2 = Ok x ∧ x ∈ [(3, "c"); (1, "a"); (4, "d"); (1, "b")]).
Proof.
  destruct (select_returns_kth_slot (λ p q : Z * string, p.1 <? q.1)
              [(3, "c"); (1, "a"); (4, "d"); (1, "b")] 2 4 (λ _ _ high, high))
    as [Hdet Hrand].
  - vm_compute. split; [discriminate|reflexivity].
  - simpl. lia.
  - intros. lia.
  - split; [|exact Hrand]. apply Hdet. split_and!; intros; lia.
Defined.

(** X4: the edges of the unchecked input.  On the empty list
    [select_deterministic] raises [IndexError] (from the median of no
    indices) and [randomized_quickselect] raises [ValueError] (from
    [randint(0, -1)]), whatever [k] is; on a list of one element both return
    that element whatever [k] is, valid or not, and leave the list alone. *)
Theorem select_on_short_lists {A} (ltb : A → A → bool) (x : A) (k : Z)
    (fuel : nat) (randint : nat → Z → Z → Z) :
  select_deterministic ltb (S fuel) k [] = (Raise IndexError, []) ∧
  randomized_quickselect ltb randint (S fuel) k [] = (Raise ValueError, []) ∧
  select_deterministic ltb (S fuel) k [x] = (Ok x, [x]) ∧
  randomized_quickselect ltb randint (S fuel) k [x] = (Ok x, [x]).
Proof. split_and!; reflexivity. Qed.

Section SmallMedian.
Context {A : Type}.
Variable ltb : A → A → bool.
Hypothesis ltb_irrefl : ∀ x, ltb x x = false.
Hypothesis ltb_trans : ∀ x y z, ltb x y = true → ltb y z = true → ltb x z = true.
Hypothesis ltb_total : ∀ x y, ltb x y = false → ltb y x = false → x = y.
Implicit Types a : list A.

Lemma insert_by_key_sorted x l :
  StronglySorted (λ p q : A * Z, py_le ltb p.1 q.1) l →
  StronglySorted (λ p q : A * Z, py_le ltb p.1 q.1) (insert_by_key ltb x l).
Proof.
  induction 1 as [|y l Hl IH Hy]; cbn [insert_by_key].
  - repeat constructor.
  - destruct (ltb y.1 x.1) eqn:Hyx.
    + constructor; [done|]. rewrite insert_by_key_perm. constructor; [|done].
      by apply ltb_py_le.
    + constructor; [by constructor|]. constructor; [done|].
      eapply Forall_impl; [exact Hy|]. intros z Hz. cbn in *.
      by eapply py_le_trans.
Qed.

Lemma stable_sort_sorted l :
  StronglySorted (λ p q : A * Z, py_le ltb p.1 q.1) (stable_sort ltb l).
Proof.
  induction l as [|x l IH]; cbn [stable_sort]; [constructor|].
  by apply insert_by_key_sorted.
Qed.

(** The keys [sort_by_key] sorts by are the values at the indices. *)
Lemma sort_by_key_keys a group :
  Forall (λ i, 0 ≤ i < len a) group →
  ∃ keys, sort_by_key ltb group a = (Ok ((stable_sort ltb keys).*2), a) ∧
          keys.*2 = group ∧
          Forall (λ kv : A * Z, 0 ≤ kv.2 ∧ a !! Z.to_nat kv.2 = Some kv.1) keys.
Proof.
  intros Hgroup. unfold sort_by_key.
  assert (Hkeys : ∀ group acc,
            Forall (λ i, 0 ≤ i < len a) group →
            Forall (λ kv : A * Z, 0 ≤ kv.2 ∧ a !! Z.to_nat kv.2 = Some kv.1) acc →
            ∃ keys, for_each group (λ i acc, v ← getitem i; mret (acc ++ [(v, i)])) acc a
                    = (Ok keys, a) ∧ keys.*2 = acc.*2 ++ group ∧
                    Forall (λ kv : A * Z, 0 ≤ kv.2 ∧ a !! Z.to_nat kv.2 = Some kv.1) keys).
  { clear. induction group as [|i group IH]; intros acc Hg Hacc; cbn [for_each].
    - exists acc. by rewrite run_ret, app_nil_r.
    - apply Forall_cons in Hg as [Hi Hg].
      destruct (lookup_lt_is_Some_2 a (Z.to_nat i)) as [v Hv]; [unfold len in Hi; lia|].
      rewrite run_bind, run_bind, (getitem_run a i v) by (done || lia).
      rewrite run_ret.
      destruct (IH (acc ++ [(v, i)]) Hg) as (keys & Hrun & Hk & Hall).
      { apply Forall_app. split; [done|]. constructor; [|done]. cbn. split; [lia|done]. }
      exists keys. split; [done|]. split; [|done].
      rewrite Hk, fmap_app, <-app_assoc. done. }
  destruct (Hkeys group [] Hgroup) as (keys & Hrun & Hk & Hall); [done|].
  exists keys. rewrite run_bind, Hrun, run_ret. done.
Qed.

(** The values at consecutive indices are a slice of the list. *)
Lemma keys_of_range a low (n : nat) (keys : list (A * Z)) :
  0 ≤ low →
  keys.*2 = seqZ low (Z.of_nat n) →
  Forall (λ kv : A * Z, 0 ≤ kv.2 ∧ a !! Z.to_nat kv.2 = Some kv.1) keys →
  keys.*1 = take n (drop (Z.to_nat low) a).
Proof.
  intros Hlow Hk Hall.
  assert (Hlen : length keys = n).
  { rewrite <-(length_fmap snd), Hk, length_seqZ. lia. }
  apply list_eq. intros i. rewrite list_lookup_fmap.
  destruct (keys !! i) as [[v j]|] eqn:Hi; cbn.
  - pose proof (proj1 (Forall_lookup _ _) Hall _ _ Hi) as [_ Hv]. cbn in Hv.
    assert (Hj : keys.*2 !! i = Some j) by (by rewrite list_lookup_fmap, Hi).
    rewrite Hk in Hj. apply lookup_seqZ in Hj as [-> Hlt].
    rewrite lookup_take_lt by lia. rewrite lookup_drop.
    by replace (Z.to_nat low + i)%nat with (Z.to_nat (low + Z.of_nat i)) by lia.
  - apply lookup_ge_None in Hi. symmetry. apply lookup_ge_None.
    rewrite length_take. lia.
Qed.

Lemma small_median_run a low high s :
  0 ≤ low → low ≤ high → high < len a → high - low + 1 ≤ 5 →
  sorted_arrangement ltb (py_slice a low (high + 1)) s →
  ∃ p v, _median_of_medians ltb low high a = (Ok p, a) ∧
         py_getitem a p = Ok v ∧
         s !! Z.to_nat ((high - low + 1) `div` 2) = Some v.
Proof.
  intros Hlow Hle Hhigh Hsmall [Hperm Hsorted].
  unfold _median_of_medians.
  assert (Hn : len (py_range low (high + 1)) = high - low + 1).
  { unfold len, py_range. rewrite length_seqZ. lia. }
  assert (compress ltb (length (py_range low (high + 1))) (py_range low (high + 1)) a
          = (Ok (py_range low (high + 1)), a)) as Hcompress.
  { destruct (length (py_range low (high + 1))); cbn [compress];
      by rewrite bool_decide_eq_false_2 by lia. }
  rewrite run_bind, Hcompress.
  destruct (sort_by_key_keys a (py_range low (high + 1))) as (keys & Hrun & Hk & Hall).
  { rewrite Forall_forall. intros i Hi%elem_of_py_range. lia. }
  rewrite run_bind, Hrun. unfold lift.
  set (sk := stable_sort ltb keys).
  assert (Hsk : sk ≡ₚ keys) by apply stable_sort_perm.
  assert (Hlen : len (sk.*2) = high - low + 1).
  { unfold len. rewrite length_fmap, Hsk, <-(length_fmap snd), Hk. exact Hn. }
  rewrite Hlen.
  assert (0 ≤ (high - low + 1) `div` 2 < high - low + 1) as Hmid.
  { split; [apply Z.div_pos; lia|apply Z.div_lt; lia]. }
  destruct (lookup_lt_is_Some_2 sk (Z.to_nat ((high - low + 1) `div` 2))) as [[v p] Hvp].
  { unfold len in Hlen. rewrite length_fmap in Hlen. lia. }
  assert (Hall' : Forall (λ kv : A * Z, 0 ≤ kv.2 ∧ a !! Z.to_nat kv.2 = Some kv.1) sk).
  { by rewrite Hsk. }
  pose proof (proj1 (Forall_lookup _ _) Hall' _ _ Hvp) as [Hp Hv]. cbn in Hp, Hv.
  exists p, v. split_and!.
  - erewrite py_getitem_nonneg; [done|lia|]. by rewrite list_lookup_fmap, Hvp.
  - by apply py_getitem_nonneg.
  - assert (s = sk.*1) as ->; [|by rewrite list_lookup_fmap, Hvp].
    pose proof (py_le_antisymm ltb ltb_total) as Hanti.
    pose proof (py_le_transitive ltb ltb_irrefl ltb_trans ltb_total) as Htrans.
    apply (StronglySorted_unique (py_le ltb)).
    + by apply Sorted_StronglySorted.
    + apply (StronglySorted_fmap fst (λ p q : A * Z, py_le ltb p.1 q.1));
        [by intros ???|apply stable_sort_sorted].
    + rewrite Hperm, Hsk. rewrite py_slice_range by lia.
      rewrite (keys_of_range a low (Z.to_nat (high + 1 - low)) keys); [done|done| |done].
      rewrite Hk. unfold py_range. f_equal. lia.
Qed.

End SmallMedian.

(** X5: on a range of at most five elements of a totally ordered list,
    [_median_of_medians] returns the index of the true (upper) median: its
    value is the one at position [n // 2] of the sorted arrangement of the
    [n] elements of the range. *)
Theorem median_of_medians_small_range {A} (ltb : A → A → bool) (a s : list A)
    (low high : Z) :
  (∀ x, ltb x x = false) →
  (∀ x y z, ltb x y = true → ltb y z = true → ltb x z = true) →
  (∀ x y, ltb x y = false → ltb y x = false → x = y) →
  0 ≤ low → low ≤ high → high < len a → high - low + 1 ≤ 5 →
  sorted_arrangement ltb (py_slice a low (high + 1)) s →
  ∃ p v, _median_of_medians ltb low high a = (Ok p, a) ∧
         py_getitem a p = Ok v ∧
         s !! Z.to_nat ((high - low + 1) `div` 2) = Some v.
Proof. intros. by apply small_median_run. Qed.

Lemma median_of_medians_small_range_witness :
  ∃ p v, _median_of_medians Z.ltb 1 4 [9; 4; 7; 5; 1; 8] = (Ok p, [9; 4; 7; 5; 1; 8]) ∧
         py_getitem [9; 4; 7; 5; 1; 8] p = Ok v ∧
         [1; 4; 5; 7] !! Z.to_nat ((4 - 1 + 1) `div` 2) = Some v.
Proof.
  apply (median_of_medians_small_range Z.ltb [9; 4; 7; 5; 1; 8] [1; 4; 5; 7] 1 4).
  - intros x. apply Z.ltb_irrefl.
  - intros x y z ?%Z.ltb_lt ?%Z.ltb_lt. apply Z.ltb_lt. lia.
  - intros x y ?%Z.ltb_ge ?%Z.ltb_ge. lia.
  - lia.
  - lia.
  - vm_compute. reflexivity.
  - lia.
  - split.
    + apply (bool_decide_unpack _). vm_compute. exact I.
    + apply (bool_decide_unpack _). vm_compute. exact I.
Defined.

(** ** Array *)

Section ArrayMore.
Context {V : Type} `{!HasNone V}.
Implicit Types self : Array.Array V.

(** A loop that copies slot [f i] into slot [i] for each [i] of [xs], where
    no slot is written twice and none is read after it was written: every
    slot written holds what its source held before the loop. *)
Lemma array_moves_lookup (f : Z → Z) (xs : list Z) : ∀ self,
  Forall (λ i, 0 ≤ f i < len (Array._data self) ∧ 0 ≤ i < len (Array._data self)) xs →
  (∀ (i1 i2 : nat) x1 x2, (i1 < i2)%nat → xs !! i1 = Some x1 → xs !! i2 = Some x2 →
     x1 ≠ x2 ∧ f x2 ≠ x1) →
  ∃ self', for_each xs (λ i _, v ← Array.get_data (f i); Array.set_data i v) tt self
           = (Ok tt, self') ∧
           Array._size self' = Array._size self ∧
           length (Array._data self') = length (Array._data self) ∧
           ∀ j, 0 ≤ j →
             Array._data self' !! Z.to_nat j
             = if bool_decide (j ∈ xs) then Array._data self !! Z.to_nat (f j)
               else Array._data self !! Z.to_nat j.
Proof.
  induction xs as [|x xs IH]; intros self Hxs Hord; cbn [for_each].
  - exists self. rewrite run_ret. split_and!; [done..|].
    intros j Hj. rewrite bool_decide_eq_false_2; [done|]. apply not_elem_of_nil.
  - apply Forall_cons in Hxs as [[Hsrc Hdst] Hxs].
    destruct (lookup_lt_is_Some_2 (Array._data self) (Z.to_nat (f x))) as [v Hv];
      [unfold len in *; lia|].
    rewrite run_bind, run_bind. unfold Array.get_data at 1.
    rewrite (py_getitem_nonneg _ (f x) v) by (done || lia).
    unfold Array.set_data at 1. rewrite py_setitem_nonneg by done.
    set (s1 := {| Array._data := <[Z.to_nat x:=v]> (Array._data self);
                  Array._size := Array._size self |}).
    destruct (IH s1) as (s' & Hrun & Hsz & Hlen & Hlk).
    + cbn. unfold len in *. rewrite length_insert. done.
    + intros i1 i2 x1 x2 Hlt H1 H2. apply (Hord (S i1) (S i2)); [lia|done..].
    + exists s'. split; [done|]. cbn in Hsz, Hlen. rewrite length_insert in Hlen.
      split_and!; [done..|].
      intros j Hj. rewrite Hlk by done. cbn [s1 Array._data].
      destruct (decide (j ∈ xs)) as [Hin|Hout].
      * rewrite !bool_decide_eq_true_2 by (done || by right).
        apply list_elem_of_lookup in Hin as (i2 & Hi2).
        destruct (Hord 0%nat (S i2) x j) as [_ Hne]; [lia|done..|].
        rewrite list_lookup_insert_ne; [done|].
        pose proof (proj1 (Forall_lookup _ _) Hxs _ _ Hi2) as [? ?]. lia.
      * rewrite (bool_decide_eq_false_2 (j ∈ xs)) by done.
        destruct (decide (j = x)) as [->|Hne].
        -- rewrite bool_decide_eq_true_2 by (by left).
           rewrite list_lookup_insert_eq; [done|unfold len in *; lia].
        -- rewrite bool_decide_eq_false_2.
           ++ rewrite list_lookup_insert_ne; [done|lia].
           ++ intros [?|?]%elem_of_cons; done.
Qed.

Lemma elem_of_py_range_down hi lo j : j ∈ py_range_down hi lo ↔ lo < j ≤ hi.
Proof.
  unfold py_range_down. rewrite list_elem_of_fmap. split.
  - intros (t & -> & Ht%elem_of_seqZ). lia.
  - intros Hj. exists (hi - j). split; [lia|]. apply elem_of_seqZ. lia.
Qed.

Lemma lookup_py_range_down hi lo (i : nat) x :
  py_range_down hi lo !! i = Some x → x = hi - Z.of_nat i ∧ lo < x.
Proof.
  unfold py_range_down. rewrite list_lookup_fmap.
  destruct (seqZ 0 (hi - lo) !! i) as [t|] eqn:Ht; [|done].
  apply lookup_seqZ in Ht as [-> ?]. cbn. intros [= <-]. lia.
Qed.

Lemma lookup_py_range lo hi (i : nat) x :
  py_range lo hi !! i = Some x → x = lo + Z.of_nat i ∧ x < hi.
Proof. unfold py_range. intros [-> ?]%lookup_seqZ. lia. Qed.

(** What [_make_room] leaves in each slot. *)
Lemma array_make_room_lookup self index :
  0 ≤ index ≤ Array._size self → Array._size self < len (Array._data self) →
  ∃ self', Array._make_room index self = (Ok tt, self') ∧
           Array._size self' = Array._size self ∧
           length (Array._data self') = length (Array._data self) ∧
           ∀ j, 0 ≤ j →
             Array._data self' !! Z.to_nat j
             = if bool_decide (index < j ≤ Array._size self)
               then Array._data self !! Z.to_nat (j - 1)
               else Array._data self !! Z.to_nat j.
Proof.
  intros Hindex Hsize. unfold Array._make_room. rewrite run_bind. cbn [get_state].
  destruct (array_moves_lookup (λ i, i - 1) (py_range_down (Array._size self) index) self)
    as (s' & Hrun & Hsz & Hlen & Hlk).
  - rewrite Forall_forall. intros i Hi%elem_of_py_range_down. lia.
  - intros i1 i2 x1 x2 Hlt [-> ?]%lookup_py_range_down [-> ?]%lookup_py_range_down. lia.
  - exists s'. split_and!; [done..|]. intros j Hj. rewrite Hlk by done.
    by rewrite (bool_decide_ext _ _ (elem_of_py_range_down _ _ _)).
Qed.

(** What [_close_gap] leaves in each slot. *)
Lemma array_close_gap_lookup self index :
  0 ≤ index < Array._size self → Array._size self ≤ len (Array._data self) →
  ∃ self', Array._close_gap index self = (Ok tt, self') ∧
           Array._size self' = Array._size self ∧
           length (Array._data self') = length (Array._data self) ∧
           ∀ j, 0 ≤ j → j < len (Array._data self) →
             Array._data self' !! Z.to_nat j
             = if bool_decide (j = Array._size self - 1) then Some pyNone
               else if bool_decide (index ≤ j < Array._size self - 1)
                    then Array._data self !! Z.to_nat (j + 1)
                    else Array._data self !! Z.to_nat j.
Proof.
  intros Hindex Hsize. unfold Array._close_gap. rewrite run_bind. cbn [get_state].
  destruct (array_moves_lookup (λ i, i + 1) (py_range index (Array._size self - 1)) self)
    as (s1 & Hrun & Hsz & Hlen & Hlk).
  - rewrite Forall_forall. intros i Hi%elem_of_py_range. lia.
  - intros i1 i2 x1 x2 Hlt [-> ?]%lookup_py_range [-> ?]%lookup_py_range. lia.
  - rewrite run_bind, Hrun, run_bind. cbn [get_state].
    unfold Array.set_data. rewrite py_setitem_nonneg by (unfold len in *; lia).
    eexists. split; [reflexivity|]. cbn [Array._data Array._size].
    rewrite length_insert. split_and!; [done..|].
    intros j Hj Hj'. rewrite Hsz. case_bool_decide as Hlast.
    + subst j. rewrite list_lookup_insert_eq; [done|unfold len in *; lia].
    + rewrite list_lookup_insert_ne by lia. rewrite Hlk by done.
      by rewrite (bool_decide_ext _ _ (elem_of_py_range _ _ _)).
Qed.

(** What a successful [insert] leaves in each slot. *)
Lemma array_insert_lookup self index value :
  0 ≤ index ≤ Array._size self → Array._size self < len (Array._data self) →
  ∃ self', Array.insert index value self = (Ok tt, self') ∧
           Array._size self' = Array._size self + 1 ∧
           length (Array._data self') = length (Array._data self) ∧
           ∀ j, 0 ≤ j →
             Array._data self' !! Z.to_nat j
             = if bool_decide (j = index) then Some value
               else if bool_decide (index < j ≤ Array._size self)
                    then Array._data self !! Z.to_nat (j - 1)
                    else Array._data self !! Z.to_nat j.
Proof.
  intros Hindex Hsize. unfold Array.insert. rewrite run_bind. cbn [get_state].
  rewrite bool_decide_eq_false_2 by lia. rewrite bool_decide_eq_true_2 by lia.
  cbn [negb].
  destruct (array_make_room_lookup self index) as (s1 & Hrun & Hsz & Hlen & Hlk); [lia..|].
  rewrite run_bind, Hrun, run_bind. unfold Array.set_data at 1.
  rewrite py_setitem_nonneg by (unfold len in *; lia).
  rewrite run_bind. cbn [get_state Array.set_size Array._data Array._size].
  eexists. split; [reflexivity|]. cbn [Array._data Array._size].
  rewrite length_insert. split_and!; [lia|done|].
  intros j Hj. case_bool_decide as Heq.
  - subst j. rewrite list_lookup_insert_eq; [done|unfold len in *; lia].
  - rewrite list_lookup_insert_ne by lia. by apply Hlk.
Qed.

(** What a successful [delete] leaves in each slot. *)
Lemma array_delete_lookup self index :
  0 ≤ index < Array._size self → Array._size self ≤ len (Array._data self) →
  ∃ self', Array.delete index self = (Ok tt, self') ∧
           Array._size self' = Array._size self - 1 ∧
           length (Array._data self') = length (Array._data self) ∧
           ∀ j, 0 ≤ j → j < len (Array._data self) →
             Array._data self' !! Z.to_nat j
             = if bool_decide (j = Array._size self - 1) then Some pyNone
               else if bool_decide (index ≤ j < Array._size self - 1)
                    then Array._data self !! Z.to_nat (j + 1)
                    else Array._data self !! Z.to_nat j.
Proof.
  intros Hindex Hsize. unfold Array.delete, Array._check_bounds.
  rewrite !run_bind. cbn [get_state].
  rewrite bool_decide_eq_true_2 by done. cbn [negb]. rewrite run_ret.
  destruct (array_close_gap_lookup self index) as (s1 & Hrun & Hsz & Hlen & Hlk); [lia..|].
  rewrite run_bind, Hrun, run_bind. cbn [get_state Array.set_size].
  eexists. split; [reflexivity|]. cbn [Array._data Array._size].
  split_and!; [lia|done|done].
Qed.

(** The list [__repr__] shows is the first [_size] slots of the buffer. *)
Lemma array_items_run self :
  array_wf self →
  Array.items self = (Ok (take (Z.to_nat (Array._size self)) (Array._data self)), self).
Proof.
  intros [Hsz Hlen]. unfold Array.items. rewrite run_bind. cbn [get_state].
  assert (Hloop : ∀ (n : nat) i acc, 0 ≤ i → i + Z.of_nat n = Array._size self →
            for_each (py_range i (Array._size self))
              (λ i acc, v ← Array.get_data i; mret (acc ++ [v])) acc self
            = (Ok (acc ++ drop (Z.to_nat i)
                             (take (Z.to_nat (Array._size self)) (Array._data self))), self)).
  { induction n as [|n IH]; intros i acc Hi Hn.
    - rewrite py_range_nil by lia. cbn [for_each]. rewrite run_ret.
      rewrite drop_ge by (rewrite length_take; lia). by rewrite app_nil_r.
    - rewrite py_range_cons by lia. cbn [for_each].
      destruct (lookup_lt_is_Some_2 (Array._data self) (Z.to_nat i)) as [x Hx];
        [unfold len in *; lia|].
      rewrite run_bind, run_bind. unfold Array.get_data at 1.
      rewrite (py_getitem_nonneg _ i x) by (done || lia). rewrite run_ret.
      rewrite IH by lia. rewrite <-app_assoc. cbn [app].
      replace (Z.to_nat (i + 1)) with (S (Z.to_nat i)) by lia.
      rewrite <-(drop_S _ x (Z.to_nat i)); [done|].
      rewrite lookup_take_lt by lia. done. }
  rewrite (Hloop (Z.to_nat (Array._size self)) 0 []) by lia.
  by rewrite drop_0.
Qed.

End ArrayMore.

(** Lists that differ by one inserted, or one removed, element. *)
Lemma list_inserted_at {V} (l l' : list V) (k : nat) v :
  (k ≤ length l)%nat →
  (∀ i, l' !! i = if decide (i = k) then Some v
                  else if decide (i < k)%nat then l !! i else l !! (i - 1)%nat) →
  l' = take k l ++ v :: drop k l.
Proof.
  intros Hk Hl'. apply list_eq. intros i. rewrite Hl'.
  destruct (decide (i = k)) as [->|Hne].
  - rewrite lookup_app_r by (rewrite length_take; lia).
    rewrite length_take. by replace (k - k `min` length l)%nat with 0%nat by lia.
  - destruct (decide (i < k)%nat).
    + rewrite lookup_app_l by (rewrite length_take; lia). by rewrite lookup_take_lt.
    + rewrite lookup_app_r by (rewrite length_take; lia). rewrite length_take.
      replace (i - k `min` length l)%nat with (S (i - k - 1)) by lia.
      rewrite lookup_cons_ne_0 by lia. rewrite Nat.pred_succ, lookup_drop. f_equal. lia.
Qed.

Lemma list_removed_at {V} (l l' : list V) (k : nat) :
  (∀ i, l' !! i = if decide (i < k)%nat then l !! i else l !! (S i)) →
  l' = take k l ++ drop (S k) l.
Proof.
  intros Hl'. apply list_eq. intros i. rewrite Hl'.
  destruct (decide (i < k)%nat).
  - destruct (decide (k ≤ length l)%nat).
    + rewrite lookup_app_l by (rewrite length_take; lia). by rewrite lookup_take_lt.
    + rewrite take_ge, drop_ge, app_nil_r by lia. done.
  - destruct (decide (k ≤ length l)%nat).
    + rewrite lookup_app_r by (rewrite length_take; lia). rewrite length_take, lookup_drop.
      f_equal. lia.
    + rewrite take_ge, drop_ge, app_nil_r by lia.
      rewrite !lookup_ge_None_2; [done|lia..].
Qed.

Lemma array_init_clean {V} `{!HasNone V} capacity :
  array_clean (Array.__init__ (V := V) capacity).
Proof.
  split; [apply array_init_wf|]. unfold Array.__init__, py_repeat. cbn.
  intros j _ Hj. rewrite length_replicate in Hj. by apply lookup_replicate_2.
Qed.

(** X6: on an array that is not full, [insert(index, value)] with
    [0 <= index <= len(self)] puts the value at position [index] of the
    logical sequence and shifts what was at [index] and after one place to the
    right; the length grows by one, the capacity stays, [access(index)] then
    returns the value, and the slots past the logical size still hold
    [None]. *)
Theorem array_insert_shifts_right {V} `{!HasNone V} (self : Array.Array V)
    (index : Z) (value : V) :
  array_clean self →
  Array._size self < len (Array._data self) →
  0 ≤ index ≤ Array._size self →
  ∃ self' l,
    Array.items self = (Ok l, self) ∧
    Array.insert index value self = (Ok tt, self') ∧
    Array.items self'
    = (Ok (take (Z.to_nat index) l ++ value :: drop (Z.to_nat index) l), self') ∧
    Array.__len__ self' = Array.__len__ self + 1 ∧
    len (Array._data self') = len (Array._data self) ∧
    Array.access index self' = (Ok value, self') ∧
    array_clean self'.
Proof.
  intros [Hwf Hclean] Hroom Hindex. pose proof Hwf as [Hsz0 Hsz1].
  destruct (array_insert_lookup self index value) as (s' & Hrun & Hsz & Hlen & Hlk);
    [done..|].
  assert (Hwf' : array_wf s').
  { unfold array_wf, len in *. lia. }
  exists s', (take (Z.to_nat (Array._size self)) (Array._data self)).
  split_and!; [by apply array_items_run|done| |unfold Array.__len__; lia|unfold len; by rewrite Hlen| |].
  - rewrite array_items_run by done. f_equal. f_equal.
    apply list_inserted_at; [rewrite length_take; unfold len in *; lia|].
    intros i. rewrite lookup_take.
    pose proof (Hlk (Z.of_nat i)) as Hi. rewrite Nat2Z.id in Hi.
    destruct (decide (i = Z.to_nat index)) as [->|Hne].
    + rewrite decide_True by lia. rewrite Hi by lia.
      by rewrite bool_decide_eq_true_2 by lia.
    + destruct (decide (i < Z.to_nat (Array._size s'))%nat).
      * rewrite Hi by lia. rewrite bool_decide_eq_false_2 by lia.
        destruct (decide (i < Z.to_nat index)%nat).
        -- rewrite bool_decide_eq_false_2 by lia. by rewrite lookup_take_lt by lia.
        -- rewrite bool_decide_eq_true_2 by lia. rewrite lookup_take_lt by lia.
           f_equal. lia.
      * rewrite decide_False by lia. rewrite lookup_take_ge; [done|lia].
  - destruct (array_access_run s' index Hwf') as [_ Hok].
    destruct Hok as (v & Hacc & Hv); [lia|].
    rewrite Hlk in Hv by lia. rewrite bool_decide_eq_true_2 in Hv by done.
    by simplify_eq.
  - split; [done|]. intros j Hj Hj'.
    pose proof (Hlk (Z.of_nat j)) as Hi. rewrite Nat2Z.id in Hi. rewrite Hi by lia.
    rewrite !bool_decide_eq_false_2 by lia. apply Hclean; lia.
Qed.

Lemma array_insert_shifts_right_witness :
  ∃ self' l,
    Array.items {| Array._data := [PyInt 1; PyInt 2; PyNone]; Array._size := 2 |}
    = (Ok l, {| Array._data := [PyInt 1; PyInt 2; PyNone]; Array._size := 2 |}) ∧
    Array.insert 1 (PyInt 9) {| Array._data := [PyInt 1; PyInt 2; PyNone]; Array._size := 2 |}
    = (Ok tt, self') ∧
    Array.items self'
    = (Ok (take (Z.to_nat 1) l ++ PyInt 9 :: drop (Z.to_nat 1) l), self') ∧
    Array.__len__ self'
    = Array.__len__ {| Array._data := [PyInt 1; PyInt 2; PyNone]; Array._size := 2 |} + 1 ∧
    len (Array._data self') = len [PyInt 1; PyInt 2; PyNone] ∧
    Array.access 1 self' = (Ok (PyInt 9), self') ∧
    array_clean self'.
Proof.
  apply (array_insert_shifts_right
           {| Array._data := [PyInt 1; PyInt 2; PyNone]; Array._size := 2 |} 1 (PyInt 9)).
  - split; [unfold array_wf, len; cbn; lia|]. cbn. intros [|[|[|j]]] ??; (done || lia).
  - vm_compute. reflexivity.
  - cbn. lia.
Defined.

(** X7: [insert] raises [OverflowError] exactly when the array is full,
    whatever the index is, and [IndexError] exactly when it is not full and
    the index lies outside [[0, len(self)]]. *)
Theorem array_insert_errors {V} `{!HasNone V} (self : Array.Array V)
    (index : Z) (value : V) :
  array_wf self →
  ((Array.insert index value self).1 = Raise OverflowError
   ↔ Array._size self = len (Array._data self)) ∧
  ((Array.insert index value self).1 = Raise IndexError
   ↔ Array._size self ≠ len (Array._data self) ∧ ¬ 0 ≤ index ≤ Array._size self).
Proof.
  intros Hwf. destruct (array_insert_run self index value Hwf) as (Hfull & Hidx & Hok).
  destruct (decide (Array._size self = len (Array._data self))) as [Hf|Hf].
  { rewrite Hfull by done. cbn. split; split; (done || tauto). }
  destruct (decide (0 ≤ index ≤ Array._size self)) as [Hi|Hi].
  - destruct (Hok Hf Hi) as (s' & -> & _). cbn. split; split; (done || tauto).
  - rewrite Hidx by done. cbn. split; split; (done || tauto).
Qed.

Lemma array_insert_errors_witness :
  ((Array.insert 7 (PyInt 9) {| Array._data := [PyInt 1]; Array._size := 1 |}).1
   = Raise OverflowError
   ↔ Array._size {| Array._data := [PyInt 1]; Array._size := 1 |} = len [PyInt 1]) ∧
  ((Array.insert 7 (PyInt 9) {| Array._data := [PyInt 1]; Array._size := 1 |}).1
   = Raise IndexError
   ↔ Array._size {| Array._data := [PyInt 1]; Array._size := 1 |} ≠ len [PyInt 1] ∧
     ¬ 0 ≤ 7 ≤ Array._size {| Array._data := [PyInt 1]; Array._size := 1 |}).
Proof.
  apply (array_insert_errors {| Array._data := [PyInt 1]; Array._size := 1 |} 7 (PyInt 9)).
  unfold array_wf, len. cbn. lia.
Defined.

(** X8: [delete(index)] with [0 <= index < len(self)] removes position
    [index] from the logical sequence and shifts what follows one place to the
    left; the length shrinks by one, the capacity stays, and the vacated slot
    is set to [None].  For any other index it raises [IndexError]. *)
Theorem array_delete_shifts_left {V} `{!HasNone V} (self : Array.Array V) (index : Z) :
  array_clean self →
  (0 ≤ index < Array._size self →
   ∃ self' l,
     Array.items self = (Ok l, self) ∧
     Array.delete index self = (Ok tt, self') ∧
     Array.items self'
     = (Ok (take (Z.to_nat index) l ++ drop (S (Z.to_nat index)) l), self') ∧
     Array.__len__ self' = Array.__len__ self - 1 ∧
     len (Array._data self') = len (Array._data self) ∧
     array_clean self') ∧
  (¬ 0 ≤ index < Array._size self →
   Array.delete index self = (Raise IndexError, self)).
Proof.
  intros [Hwf Hclean]. pose proof Hwf as [Hsz0 Hsz1]. split.
  - intros Hindex.
    destruct (array_delete_lookup self index) as (s' & Hrun & Hsz & Hlen & Hlk); [done..|].
    assert (Hwf' : array_wf s').
    { unfold array_wf, len in *. lia. }
    assert (Hlk' : ∀ i : nat, (i < length (Array._data self))%nat →
              Array._data s' !! i
              = if bool_decide (Z.of_nat i = Array._size self - 1) then Some pyNone
                else if bool_decide (index ≤ Z.of_nat i < Array._size self - 1)
                     then Array._data self !! S i
                     else Array._data self !! i).
    { intros i Hi. pose proof (Hlk (Z.of_nat i)) as Hlki. rewrite Nat2Z.id in Hlki.
      rewrite Hlki by (unfold len; lia).
      by replace (Z.to_nat (Z.of_nat i + 1)) with (S i) by lia. }
    exists s', (take (Z.to_nat (Array._size self)) (Array._data self)).
    split_and!; [by apply array_items_run|done| |unfold Array.__len__; lia
                |unfold len; by rewrite Hlen|].
    + rewrite array_items_run by done. f_equal. f_equal.
      apply list_removed_at. intros i. rewrite lookup_take.
      destruct (decide (i < Z.to_nat (Array._size s'))%nat).
      * rewrite Hlk' by (unfold len in *; lia).
        rewrite bool_decide_eq_false_2 by lia.
        destruct (decide (i < Z.to_nat index)%nat).
        -- rewrite bool_decide_eq_false_2 by lia. by rewrite lookup_take_lt by lia.
        -- rewrite bool_decide_eq_true_2 by lia. by rewrite lookup_take_lt by lia.
      * destruct (decide (i < Z.to_nat index)%nat); [lia|].
        rewrite lookup_take_ge; [done|lia].
    + split; [done|]. intros j Hj Hj'. rewrite Hlen in Hj'. rewrite Hlk' by done.
      case_bool_decide; [done|]. rewrite bool_decide_eq_false_2 by lia.
      apply Hclean; [lia|done].
  - intros Hindex. by apply array_delete_run.
Qed.

Lemma array_delete_shifts_left_witness :
  (∃ self' l,
     Array.items {| Array._data := [PyInt 1; PyInt 2; PyNone]; Array._size := 2 |}
     = (Ok l, {| Array._data := [PyInt 1; PyInt 2; PyNone]; Array._size := 2 |}) ∧
     Array.delete 0 {| Array._data := [PyInt 1; PyInt 2; PyNone]; Array._size := 2 |}
     = (Ok tt, self') ∧
     Array.items self' = (Ok (take (Z.to_nat 0) l ++ drop (S (Z.to_nat 0)) l), self') ∧
     Array.__len__ self'
     = Array.__len__ {| Array._data := [PyInt 1; PyInt 2; PyNone]; Array._size := 2 |} - 1 ∧
     len (Array._data self') = len [PyInt 1; PyInt 2; PyNone] ∧
     array_clean self') ∧
  Array.delete 2 {| Array._data := [PyInt 1; PyInt 2; PyNone]; Array._size := 2 |}
  = (Raise IndexError, {| Array._data := [PyInt 1; PyInt 2; PyNone]; Array._size := 2 |}).
Proof.
  assert (Hclean : array_clean {| Array._data := [PyInt 1; PyInt 2; PyNone]; Array._size := 2 |}).
  { split; [unfold array_wf, len; cbn; lia|]. cbn. intros [|[|[|j]]] ??; (done || lia). }
  split.
  - apply (proj1 (array_delete_shifts_left _ 0 Hclean)). cbn. lia.
  - apply (proj2 (array_delete_shifts_left _ 2 Hclean)). cbn. lia.
Defined.

(** X9: [access(index)] returns the element at position [index] of the
    logical sequence when [0 <= index < len(self)] and raises [IndexError]
    otherwise, also for a negative index and for a slot of the buffer past the
    logical size; it never changes the array. *)
Theorem array_access_reads_sequence {V} `{!HasNone V} (self : Array.Array V) (index : Z) :
  array_wf self →
  (0 ≤ index < Array._size self →
   ∃ l v, Array.items self = (Ok l, self) ∧ l !! Z.to_nat index = Some v ∧
          Array.access index self = (Ok v, self)) ∧
  (¬ 0 ≤ index < Array._size self →
   Array.access index self = (Raise IndexError, self)).
Proof.
  intros Hwf. destruct (array_access_run self index Hwf) as [Hbad Hok]. split; [|done].
  intros Hindex. destruct (Hok Hindex) as (v & Hrun & Hv).
  exists (take (Z.to_nat (Array._size self)) (Array._data self)), v.
  split_and!; [by apply array_items_run| |done].
  by rewrite lookup_take_lt by lia.
Qed.

Lemma array_access_reads_sequence_witness :
  (∃ l v, Array.items {| Array._data := [PyInt 1; PyInt 2; PyNone]; Array._size := 2 |}
          = (Ok l, {| Array._data := [PyInt 1; PyInt 2; PyNone]; Array._size := 2 |}) ∧
          l !! Z.to_nat 1 = Some v ∧
          Array.access 1 {| Array._data := [PyInt 1; PyInt 2; PyNone]; Array._size := 2 |}
          = (Ok v, {| Array._data := [PyInt 1; PyInt 2; PyNone]; Array._size := 2 |})) ∧
  Array.access (-1) {| Array._data := [PyInt 1; PyInt 2; PyNone]; Array._size := 2 |}
  = (Raise IndexError, {| Array._data := [PyInt 1; PyInt 2; PyNone]; Array._size := 2 |}).
Proof.
  assert (Hwf : array_wf {| Array._data := [PyInt 1; PyInt 2; PyNone]; Array._size := 2 |}).
  { unfold array_wf, len; cbn; lia. }
  split.
  - apply (proj1 (array_access_reads_sequence _ 1 Hwf)). cbn. lia.
  - apply (proj2 (array_access_reads_sequence _ (-1) Hwf)). cbn. lia.
Defined.

(** X10: [insert(index, value)] followed by [delete(index)] gives back the
    array exactly as it was, buffer and size. *)
Theorem array_insert_delete_round_trip {V} `{!HasNone V} (self : Array.Array V)
    (index : Z) (value : V) :
  array_clean self →
  Array._size self < len (Array._data self) →
  0 ≤ index ≤ Array._size self →
  (Array.insert index value;; Array.delete index) self = (Ok tt, self).
Proof.
  intros [Hwf Hclean] Hroom Hindex. pose proof Hwf as [Hsz0 Hsz1].
  destruct (array_insert_lookup self index value) as (s1 & Hrun1 & Hsz1' & Hlen1 & Hlk1);
    [done..|].
  destruct (array_delete_lookup s1 index) as (s2 & Hrun2 & Hsz2 & Hlen2 & Hlk2);
    [lia|unfold len in *; lia|].
  rewrite run_bind, Hrun1, Hrun2. f_equal.
  destruct self as [data size], s2 as [data2 size2]. cbn in *. f_equal; [|lia].
  apply list_eq. intros i.
  destruct (decide (i < length data)%nat) as [Hi|Hi].
  2:{ rewrite !lookup_ge_None_2; [done|lia..]. }
  pose proof (Hlk2 (Z.of_nat i)) as H2. rewrite Nat2Z.id in H2.
  rewrite H2 by (unfold len; lia). clear H2.
  case_bool_decide as Hlast.
  - symmetry. apply Hclean; lia.
  - case_bool_decide as Hmid.
    + rewrite Hlk1 by lia. rewrite bool_decide_eq_false_2 by lia.
      rewrite bool_decide_eq_true_2 by lia. f_equal. lia.
    + pose proof (Hlk1 (Z.of_nat i)) as H1. rewrite Nat2Z.id in H1.
      rewrite H1 by lia. by rewrite !bool_decide_eq_false_2 by lia.
Qed.

Lemma array_insert_delete_round_trip_witness :
  (Array.insert 1 (PyInt 9);; Array.delete 1)
    {| Array._data := [PyInt 1; PyInt 2; PyNone]; Array._size := 2 |}
  = (Ok tt, {| Array._data := [PyInt 1; PyInt 2; PyNone]; Array._size := 2 |}).
Proof.
  apply (array_insert_delete_round_trip
           {| Array._data := [PyInt 1; PyInt 2; PyNone]; Array._size := 2 |} 1 (PyInt 9)).
  - split; [unfold array_wf, len; cbn; lia|]. cbn. intros [|[|[|j]]] ??; (done || lia).
  - vm_compute. reflexivity.
  - cbn. lia.
Defined.

(** ** Matrix *)

Section MatrixMore.
Context {V : Type} `{!HasNone V} `{!HasZero V}.
Implicit Types m : Matrix.Matrix V.

Lemma matrix_get_run m rows cols r c :
  matrix_shape rows cols m → - rows ≤ r < rows → - cols ≤ c < cols →
  ∃ row v, Matrix._rows m !! from_end rows r = Some row ∧
           Array._data row !! from_end cols c = Some v ∧
           len (Array._data row) = cols ∧
           Matrix.get r c m = (Ok v, m).
Proof.
  intros [Hrows Hall] Hr Hc.
  pose proof (from_end_lt rows r Hr) as Hi. pose proof (from_end_lt cols c Hc) as Hj.
  destruct (lookup_lt_is_Some_2 (Matrix._rows m) (from_end rows r)) as [row Hrow];
    [unfold len in *; lia|].
  pose proof (proj1 (Forall_lookup _ _) Hall _ _ Hrow) as [Hdata Hsize].
  destruct (lookup_lt_is_Some_2 (Array._data row) (from_end cols c)) as [v Hv];
    [unfold len in *; lia|].
  assert (Hri : py_index (length (Matrix._rows m)) r = Some (from_end rows r)).
  { rewrite <-Hrows. apply py_index_from_end. unfold len in *. lia. }
  assert (Hci : py_index (length (Array._data row)) c = Some (from_end cols c)).
  { rewrite <-Hdata. apply py_index_from_end. unfold len in *. lia. }
  exists row, v. split_and!; [done..|].
  unfold Matrix.get, py_getitem. by rewrite Hri, Hrow, Hci, Hv.
Qed.

Lemma matrix_set_run m rows cols r c val :
  matrix_shape rows cols m → - rows ≤ r < rows → - cols ≤ c < cols →
  ∃ row, Matrix._rows m !! from_end rows r = Some row ∧
         Matrix.set r c val m
         = (Ok tt, {| Matrix._rows :=
                        <[from_end rows r :=
                            {| Array._data := <[from_end cols c := val]> (Array._data row);
                               Array._size := Array._size row |}]> (Matrix._rows m) |}) ∧
         matrix_shape rows cols
           {| Matrix._rows :=
                <[from_end rows r :=
                    {| Array._data := <[from_end cols c := val]> (Array._data row);
                       Array._size := Array._size row |}]> (Matrix._rows m) |}.
Proof.
  intros [Hrows Hall] Hr Hc.
  pose proof (from_end_lt rows r Hr) as Hi.
  destruct (lookup_lt_is_Some_2 (Matrix._rows m) (from_end rows r)) as [row Hrow];
    [unfold len in *; lia|].
  pose proof (proj1 (Forall_lookup _ _) Hall _ _ Hrow) as [Hdata Hsize].
  assert (Hri : py_index (length (Matrix._rows m)) r = Some (from_end rows r)).
  { rewrite <-Hrows. apply py_index_from_end. unfold len in *. lia. }
  assert (Hci : py_index (length (Array._data row)) c = Some (from_end cols c)).
  { rewrite <-Hdata. apply py_index_from_end. unfold len in *. lia. }
  exists row. split_and!; [done| |].
  - unfold Matrix.set, py_setitem. by rewrite Hri, Hrow, Hci.
  - split; cbn [Matrix._rows].
    + unfold len in *. by rewrite length_insert.
    + apply Forall_insert; [done|]. cbn. unfold len in *. by rewrite length_insert.
Qed.

End MatrixMore.

(** X11: [Matrix(rows, cols)] is built without an exception for all
    integers [rows] and [cols]; it has [max(rows, 0)] rows, each an array of
    length [max(cols, 0)] filled to capacity, and every cell reads [0]. *)
Theorem matrix_init_all_zero {V} `{!HasNone V} `{!HasZero V} (rows cols : Z) :
  ∃ m, Matrix.__init__ (V := V) rows cols = Ok m ∧
       len (Matrix._rows m) = Z.max 0 rows ∧
       Forall (λ row, Array.__len__ row = Z.max 0 cols ∧
                      len (Array._data row) = Z.max 0 cols) (Matrix._rows m) ∧
       ∀ r c, - rows ≤ r < rows → - cols ≤ c < cols →
              Matrix.get r c m = (Ok pyZero, m).
Proof.
  eexists. split; [apply matrix_init_run|]. cbn [Matrix._rows].
  assert (Hshape : matrix_shape (Z.max 0 rows) (Z.max 0 cols)
            {| Matrix._rows := replicate (Z.to_nat rows) (zero_row (V := V) cols) |}).
  { replace (Z.to_nat rows) with (Z.to_nat (Z.max 0 rows)) by lia.
    replace (zero_row (V := V) cols) with (zero_row (V := V) (Z.max 0 cols)).
    - apply matrix_init_shape; lia.
    - unfold zero_row. by replace (Z.max 0 (Z.max 0 cols)) with (Z.max 0 cols) by lia. }
  split_and!.
  - unfold len. rewrite length_replicate. lia.
  - apply Forall_replicate. unfold Array.__len__, zero_row, len. cbn.
    rewrite length_replicate. lia.
  - intros r c Hr Hc.
    destruct (matrix_get_run _ (Z.max 0 rows) (Z.max 0 cols) r c Hshape)
      as (row & v & Hrow & Hv & _ & Hget); [lia..|].
    rewrite Hget. cbn [Matrix._rows] in Hrow.
    apply lookup_replicate in Hrow as [-> _]. unfold zero_row in Hv. cbn in Hv.
    apply lookup_replicate in Hv as [-> _]. done.
Qed.

(** X12: [set(r, c, val)] changes one cell only: a later [get] of any other
    cell, addressed with valid non-negative or negative indices, returns what
    it held before. *)
Theorem matrix_set_leaves_other_cells {V} `{!HasNone V} `{!HasZero V}
    (m : Matrix.Matrix V) (rows cols r c r' c' : Z) (val : V) :
  matrix_shape rows cols m →
  - rows ≤ r < rows → - cols ≤ c < cols →
  - rows ≤ r' < rows → - cols ≤ c' < cols →
  from_end rows r ≠ from_end rows r' ∨ from_end cols c ≠ from_end cols c' →
  ∃ m' v, Matrix.set r c val m = (Ok tt, m') ∧
          Matrix.get r' c' m = (Ok v, m) ∧
          Matrix.get r' c' m' = (Ok v, m').
Proof.
  intros Hshape Hr Hc Hr' Hc' Hne.
  destruct (matrix_set_run m rows cols r c val Hshape Hr Hc) as (row & Hrow & Hset & Hshape').
  destruct (matrix_get_run m rows cols r' c' Hshape Hr' Hc') as (row1 & v & Hrow1 & Hv & _ & Hget).
  destruct (matrix_get_run _ rows cols r' c' Hshape' Hr' Hc')
    as (row2 & v2 & Hrow2 & Hv2 & _ & Hget2).
  eexists _, v. split_and!; [done..|]. rewrite Hget2. f_equal. f_equal.
  cbn [Matrix._rows] in Hrow2.
  destruct (decide (from_end rows r = from_end rows r')) as [Heq|Hner].
  - rewrite Heq in Hrow2, Hrow.
    rewrite list_lookup_insert_eq in Hrow2 by (by eapply lookup_lt_Some).
    simplify_eq. cbn in Hv2. destruct Hne as [?|Hnec]; [done|].
    rewrite list_lookup_insert_ne in Hv2 by done. congruence.
  - rewrite list_lookup_insert_ne in Hrow2 by done. congruence.
Qed.

Lemma matrix_set_leaves_other_cells_witness :
  ∃ m' v, Matrix.set (-1) 0 (PyInt 5) {| Matrix._rows := replicate 2 (zero_row 3) |}
          = (Ok tt, m') ∧
          Matrix.get 1 (-1) {| Matrix._rows := replicate 2 (zero_row 3) |}
          = (Ok v, {| Matrix._rows := replicate 2 (zero_row 3) |}) ∧
          Matrix.get 1 (-1) m' = (Ok v, m').
Proof.
  apply (matrix_set_leaves_other_cells _ 2 3 (-1) 0 1 (-1) (PyInt 5)).
  - apply (matrix_init_shape 2 3); lia.
  - lia.
  - lia.
  - lia.
  - lia.
  - right. vm_compute. discriminate.
Defined.

(** X13: a row index outside [[-rows, rows)] or a column index outside
    [[-cols, cols)] makes [get] and [set] raise [IndexError], the error of the
    list subscript itself, and the matrix is left as it was. *)
Theorem matrix_out_of_range {V} `{!HasNone V} `{!HasZero V}
    (m : Matrix.Matrix V) (rows cols r c : Z) (val : V) :
  matrix_shape rows cols m →
  ¬ (- rows ≤ r < rows) ∨ ¬ (- cols ≤ c < cols) →
  Matrix.get r c m = (Raise IndexError, m) ∧
  Matrix.set r c val m = (Raise IndexError, m).
Proof.
  intros [Hrows Hall] Hout.
  unfold Matrix.get, Matrix.set, py_getitem, py_setitem.
  destruct (decide (- rows ≤ r < rows)) as [Hr|Hr].
  - destruct Hout as [?|Hc]; [done|].
    assert (Hri : py_index (length (Matrix._rows m)) r = Some (from_end rows r)).
    { rewrite <-Hrows. apply py_index_from_end. unfold len in *. lia. }
    pose proof (from_end_lt rows r Hr) as Hi.
    destruct (lookup_lt_is_Some_2 (Matrix._rows m) (from_end rows r)) as [row Hrow];
      [unfold len in *; lia|].
    pose proof (proj1 (Forall_lookup _ _) Hall _ _ Hrow) as [Hdata Hsize].
    rewrite Hri, Hrow. rewrite py_index_out by (unfold len in *; lia). done.
  - rewrite py_index_out by (unfold len in *; lia). done.
Qed.

Lemma matrix_out_of_range_witness :
  Matrix.get 0 3 {| Matrix._rows := replicate 2 (zero_row 3) |}
  = (Raise IndexError, {| Matrix._rows := replicate 2 (zero_row 3) |}) ∧
  Matrix.set 0 3 (PyInt 5) {| Matrix._rows := replicate 2 (zero_row 3) |}
  = (Raise IndexError, {| Matrix._rows := replicate 2 (zero_row 3) |}).
Proof.
  apply (matrix_out_of_range _ 2 3 0 3 (PyInt 5)).
  - apply (matrix_init_shape 2 3); lia.
  - right. lia.
Defined.

(** ** Stack *)

Section StackMore.
Context {V : Type}.
Implicit Types self : Stack.Stack V.

Lemma stack_push_all_run (xs : list V) : ∀ self,
  for_each xs (λ v (_ : unit), Stack.push v) tt self
  = (Ok tt, {| Stack._s := Stack._s self ++ xs |}).
Proof.
  induction xs as [|x xs IH]; intros [l]; cbn [for_each Stack._s].
  - by rewrite run_ret, app_nil_r.
  - rewrite run_bind. cbn [Stack.push Stack._s]. rewrite IH. cbn [Stack._s].
    by rewrite <-app_assoc.
Qed.

Lemma stack_pop_all_run (count : list V) : ∀ (xs l acc : list V),
  length count = length xs →
  for_each count (λ (_ : V) acc, v ← Stack.pop; mret (acc ++ [v])) acc
    {| Stack._s := l ++ xs |}
  = (Ok (acc ++ reverse xs), {| Stack._s := l |}).
Proof.
  induction count as [|c count IH]; intros xs l acc Hlen; cbn [for_each].
  - destruct xs; [|done]. by rewrite run_ret, !app_nil_r.
  - destruct xs as [|x xs _] using rev_ind; [done|].
    rewrite length_app in Hlen. cbn in Hlen.
    rewrite app_assoc, run_bind, run_bind.
    pose proof (stack_push_peek_pop {| Stack._s := l ++ xs |} x) as [_ Hpop].
    cbn [Stack.push snd Stack._s] in Hpop. rewrite Hpop, run_ret.
    rewrite IH by lia. by rewrite reverse_snoc, <-app_assoc.
Qed.

End StackMore.

(** X14: last in, first out.  Pushing the values [xs] in order and then
    popping as many times returns them in reverse order and leaves the stack
    exactly as it was; in between, [len] has grown by the number pushed. *)
Theorem stack_is_lifo {V} (self : Stack.Stack V) (xs : list V) :
  (∃ mid, for_each xs (λ v (_ : unit), Stack.push v) tt self = (Ok tt, mid) ∧
          Stack.__len__ mid = Stack.__len__ self + len xs) ∧
  (for_each xs (λ v (_ : unit), Stack.push v) tt;;
   for_each xs (λ (_ : V) acc, v ← Stack.pop; mret (acc ++ [v])) []) self
  = (Ok (reverse xs), self).
Proof.
  split.
  - eexists. split; [apply stack_push_all_run|].
    unfold Stack.__len__, len. cbn. rewrite length_app. lia.
  - rewrite run_bind, stack_push_all_run.
    rewrite (stack_pop_all_run xs xs) by done. by destruct self.
Qed.

(** ** Queue *)

(** X15: in every state a [Queue(capacity)] reaches through calls that
    succeed, [len] is the number of elements held; [enqueue] raises
    [OverflowError] when that number is the capacity, [dequeue] raises
    [IndexError] when it is zero, and either failure leaves the queue as it
    was.  A queue of capacity zero or less accepts nothing. *)
Theorem queue_full_and_empty_errors {V} `{!HasNone V} (capacity : Z)
    (ops : list (queue_op V)) :
  admissible capacity ops [] →
  ∃ q rs, queue_run ops (Queue.__init__ capacity) = (Ok rs, q) ∧
          Queue.__len__ q = len (list_queue_run ops []).2 ∧
          0 ≤ Queue.__len__ q ≤ Z.max 0 capacity ∧
          (Queue.__len__ q = Z.max 0 capacity →
           ∀ val, Queue.enqueue val q = (Raise OverflowError, q)) ∧
          (Queue.__len__ q = 0 → Queue.dequeue q = (Raise IndexError, q)).
Proof.
  intros Hadm.
  destruct (queue_run_from ops (Queue.__init__ capacity) [] [])
    as (q & Hrun & Hq & Hlen).
  - apply queue_init_holds.
  - apply (admissible_mono capacity); [|done].
    unfold Queue.__init__, py_repeat, len. cbn. rewrite length_replicate. lia.
  - assert (Hcap : len (Queue._buf q) = Z.max 0 capacity).
    { unfold len. rewrite Hlen. unfold Queue.__init__, py_repeat. cbn.
      rewrite length_replicate. lia. }
    destruct Hq as (Hsize & Hle & _).
    exists q, (list_queue_run ops []).1. unfold Queue.__len__.
    split_and!; [done|done|unfold len in *; lia|lia| |].
    + intros Hfull val. unfold Queue.enqueue. rewrite run_bind. cbn [get_state].
      by rewrite bool_decide_eq_true_2 by lia.
    + intros Hempty. unfold Queue.dequeue. rewrite run_bind. cbn [get_state].
      by rewrite bool_decide_eq_true_2 by lia.
Qed.

Lemma queue_full_and_empty_errors_witness :
  ∃ q rs, queue_run [Enqueue (PyInt 1); Enqueue (PyInt 2); Dequeue; Enqueue (PyInt 3)]
            (Queue.__init__ 2) = (Ok rs, q) ∧
          Queue.__len__ q
          = len (list_queue_run
                   [Enqueue (PyInt 1); Enqueue (PyInt 2); Dequeue; Enqueue (PyInt 3)] []).2 ∧
          0 ≤ Queue.__len__ q ≤ Z.max 0 2 ∧
          (Queue.__len__ q = Z.max 0 2 →
           ∀ val, Queue.enqueue val q = (Raise OverflowError, q)) ∧
          (Queue.__len__ q = 0 → Queue.dequeue q = (Raise IndexError, q)).
Proof.
  apply (queue_full_and_empty_errors 2
           [Enqueue (PyInt 1); Enqueue (PyInt 2); Dequeue; Enqueue (PyInt 3)]).
  cbn. unfold len. cbn. repeat split; (lia || discriminate).
Defined.

(** ** LinkedList *)

Section LinkedListMore.
Context {V : Type}.
Implicit Types (self : LinkedList.LinkedList V) (l : LinkedList.link V).

(** A chain is determined by the values along it. *)
Lemma values_inj l1 l2 : LinkedList.values l1 = LinkedList.values l2 → l1 = l2.
Proof.
  revert l2. induction l1 as [|v nxt IH]; intros [|v' nxt']; cbn; try done.
  intros [= -> Hrest]. f_equal. by apply IH.
Qed.

Lemma traverse_inj self1 self2 :
  LinkedList.traverse self1 = LinkedList.traverse self2 → self1 = self2.
Proof.
  destruct self1, self2. unfold LinkedList.traverse. cbn.
  intros ?%values_inj. by f_equal.
Qed.

Lemma linked_list_insert_nonneg self pos value :
  0 ≤ pos ≤ len (LinkedList.traverse self) →
  ∃ self', LinkedList.insert pos value self = (Ok tt, self') ∧
           LinkedList.traverse self'
           = take (Z.to_nat pos) (LinkedList.traverse self)
             ++ value :: drop (Z.to_nat pos) (LinkedList.traverse self).
Proof.
  intros Hpos. pose proof (linked_list_insert_run self pos value) as Hrun.
  cbv zeta in Hrun. rewrite bool_decide_eq_true_2 in Hrun.
  - destruct Hrun as (self' & Hrun & Htr). exists self'. split; [done|].
    rewrite Htr. destruct (decide (pos = 0)) as [->|]; [done|].
    rewrite bool_decide_eq_false_2 by done.
    by replace (Z.to_nat (Z.max 0 (pos - 1) + 1)) with (Z.to_nat pos) by lia.
  - destruct (decide (pos = 0)); [by left|right; lia].
Qed.

Lemma linked_list_delete_nonneg self pos :
  0 ≤ pos < len (LinkedList.traverse self) →
  ∃ self', LinkedList.delete pos self = (Ok tt, self') ∧
           LinkedList.traverse self'
           = take (Z.to_nat pos) (LinkedList.traverse self)
             ++ drop (S (Z.to_nat pos)) (LinkedList.traverse self).
Proof.
  intros Hpos. pose proof (linked_list_delete_run self pos) as Hrun.
  cbv zeta in Hrun.
  assert (Z.to_nat (if bool_decide (pos = 0) then 0 else Z.max 0 (pos - 1) + 1)
          = Z.to_nat pos) as Hat.
  { clear Hrun. destruct (decide (pos = 0)) as [->|]; [done|].
    rewrite bool_decide_eq_false_2 by done. lia. }
  rewrite Hat in Hrun. rewrite bool_decide_eq_true_2 in Hrun by lia. done.
Qed.

End LinkedListMore.

(** X16: [insert(pos, value)] with [0 <= pos <= n] on a list of [n] values
    puts the value at position [pos] and keeps the others in order; with
    [pos > n] it raises [IndexError] and leaves the list as it was. *)
Theorem linked_list_insert_at_position {V} (self : LinkedList.LinkedList V)
    (pos : Z) (value : V) :
  (0 ≤ pos ≤ len (LinkedList.traverse self) →
   ∃ self', LinkedList.insert pos value self = (Ok tt, self') ∧
            LinkedList.traverse self'
            = take (Z.to_nat pos) (LinkedList.traverse self)
              ++ value :: drop (Z.to_nat pos) (LinkedList.traverse self)) ∧
  (len (LinkedList.traverse self) < pos →
   LinkedList.insert pos value self = (Raise IndexError, self)).
Proof.
  split; [apply linked_list_insert_nonneg|].
  intros Hpos. pose proof (linked_list_insert_run self pos value) as Hrun.
  cbv zeta in Hrun. rewrite bool_decide_eq_false_2 in Hrun; [done|].
  unfold len in *. lia.
Qed.

Lemma linked_list_insert_at_position_witness :
  (∃ self', LinkedList.insert 1 30
              {| LinkedList.head := LinkedList.Node 10 (LinkedList.Node 20 LinkedList.null) |}
            = (Ok tt, self') ∧
            LinkedList.traverse self'
            = take (Z.to_nat 1) [10; 20] ++ 30 :: drop (Z.to_nat 1) [10; 20]) ∧
  LinkedList.insert 3 30
    {| LinkedList.head := LinkedList.Node 10 (LinkedList.Node 20 LinkedList.null) |}
  = (Raise IndexError,
     {| LinkedList.head := LinkedList.Node 10 (LinkedList.Node 20 LinkedList.null) |}).
Proof.
  split.
  - apply (proj1 (linked_list_insert_at_position
                    {| LinkedList.head := LinkedList.Node 10 (LinkedList.Node 20 LinkedList.null) |}
                    1 30)).
    vm_compute. split; discriminate.
  - apply (proj2 (linked_list_insert_at_position
                    {| LinkedList.head := LinkedList.Node 10 (LinkedList.Node 20 LinkedList.null) |}
                    3 30)).
    vm_compute. reflexivity.
Defined.

(** X17: [delete(pos)] with [0 <= pos < n] on a list of [n] values removes
    the value at position [pos] and keeps the others in order; with
    [pos >= n], in particular on the empty list, it raises [IndexError] and
    leaves the list as it was. *)
Theorem linked_list_delete_at_position {V} (self : LinkedList.LinkedList V) (pos : Z) :
  (0 ≤ pos < len (LinkedList.traverse self) →
   ∃ self', LinkedList.delete pos self = (Ok tt, self') ∧
            LinkedList.traverse self'
            = take (Z.to_nat pos) (LinkedList.traverse self)
              ++ drop (S (Z.to_nat pos)) (LinkedList.traverse self)) ∧
  (len (LinkedList.traverse self) ≤ pos →
   LinkedList.delete pos self = (Raise IndexError, self)).
Proof.
  split; [apply linked_list_delete_nonneg|].
  intros Hpos. pose proof (linked_list_delete_run self pos) as Hrun.
  cbv zeta in Hrun. rewrite bool_decide_eq_false_2 in Hrun; [done|].
  clear Hrun. destruct (decide (pos = 0)) as [->|];
    [rewrite bool_decide_eq_true_2 by done|rewrite bool_decide_eq_false_2 by done];
    unfold len in *; lia.
Qed.

Lemma linked_list_delete_at_position_witness :
  (∃ self', LinkedList.delete 1
              {| LinkedList.head := LinkedList.Node 10 (LinkedList.Node 20 LinkedList.null) |}
            = (Ok tt, self') ∧
            LinkedList.traverse self'
            = take (Z.to_nat 1) [10; 20] ++ drop (S (Z.to_nat 1)) [10; 20]) ∧
  LinkedList.delete 2
    {| LinkedList.head := LinkedList.Node 10 (LinkedList.Node 20 LinkedList.null) |}
  = (Raise IndexError,
     {| LinkedList.head := LinkedList.Node 10 (LinkedList.Node 20 LinkedList.null) |}).
Proof.
  split.
  - apply (proj1 (linked_list_delete_at_position
                    {| LinkedList.head := LinkedList.Node 10 (LinkedList.Node 20 LinkedList.null) |}
                    1)).
    vm_compute. split; [discriminate|reflexivity].
  - apply (proj2 (linked_list_delete_at_position
                    {| LinkedList.head := LinkedList.Node 10 (LinkedList.Node 20 LinkedList.null) |}
                    2)).
    vm_compute. discriminate.
Defined.

(** X18: [insert(pos, value)] followed by [delete(pos)], for
    [0 <= pos <= n], gives back the list exactly as it was. *)
Theorem linked_list_insert_delete_round_trip {V} (self : LinkedList.LinkedList V)
    (pos : Z) (value : V) :
  0 ≤ pos ≤ len (LinkedList.traverse self) →
  (LinkedList.insert pos value;; LinkedList.delete pos) self = (Ok tt, self).
Proof.
  intros Hpos.
  destruct (linked_list_insert_nonneg self pos value Hpos) as (s1 & Hrun1 & Htr1).
  destruct (linked_list_delete_nonneg s1 pos) as (s2 & Hrun2 & Htr2).
  { rewrite Htr1. unfold len in *. rewrite length_app, length_take. cbn. lia. }
  rewrite run_bind, Hrun1, Hrun2. f_equal. apply traverse_inj.
  rewrite Htr2, Htr1.
  rewrite take_app_length' by (rewrite length_take; unfold len in *; lia).
  rewrite (cons_middle value), app_assoc.
  rewrite drop_app_length' by (rewrite length_app, length_take; unfold len in *; cbn; lia).
  apply take_drop.
Qed.

Lemma linked_list_insert_delete_round_trip_witness :
  (LinkedList.insert 2 30;; LinkedList.delete 2)
    {| LinkedList.head := LinkedList.Node 10 (LinkedList.Node 20 LinkedList.null) |}
  = (Ok tt, {| LinkedList.head := LinkedList.Node 10 (LinkedList.Node 20 LinkedList.null) |}).
Proof.
  apply (linked_list_insert_delete_round_trip
           {| LinkedList.head := LinkedList.Node 10 (LinkedList.Node 20 LinkedList.null) |}
           2 30).
  vm_compute. split; discriminate.
Defined.

(** X19: inserting at position 0 prepends: after the values [xs] are
    inserted one by one at the head, the list shows them in reverse order
    before what it held. *)
Theorem linked_list_prepend_reverses {V} (xs : list V) (self : LinkedList.LinkedList V) :
  ∃ self', for_each xs (λ v (_ : unit), LinkedList.insert 0 v) tt self = (Ok tt, self') ∧
           LinkedList.traverse self' = reverse xs ++ LinkedList.traverse self.
Proof.
  revert self. induction xs as [|x xs IH]; intros self; cbn [for_each].
  - exists self. by rewrite run_ret.
  - rewrite run_bind.
    destruct (IH {| LinkedList.head := LinkedList.Node x (LinkedList.head self) |})
      as (self' & Hrun & Htr).
    exists self'. split; [exact Hrun|]. rewrite Htr, reverse_cons, <-app_assoc. done.
Qed.

(** X20: inserting at position [n], the length, appends: the loop
    [for i, v in enumerate(xs, n): ll.insert(i, v)] on a list of [n] values
    raises nothing and leaves the list showing its old values followed by
    [xs] in order. *)
Theorem linked_list_insert_at_end_appends {V} (xs : list V)
    (self : LinkedList.LinkedList V) :
  ∃ self',
    for_each (zip (seqZ (len (LinkedList.traverse self)) (len xs)) xs)
      (λ iv (_ : unit), LinkedList.insert iv.1 iv.2) tt self
    = (Ok tt, self') ∧
    LinkedList.traverse self' = LinkedList.traverse self ++ xs.
Proof.
  revert self. induction xs as [|x xs IH]; intros self.
  - exists self. rewrite seqZ_nil by done. cbn [zip_with for_each].
    by rewrite run_ret, app_nil_r.
  - unfold len at 2. cbn [length]. rewrite seqZ_cons by lia. cbn [zip_with for_each].
    destruct (linked_list_insert_nonneg self (len (LinkedList.traverse self)) x)
      as (s1 & Hrun1 & Htr1); [unfold len; lia|].
    unfold len in Htr1 at 1 2. rewrite Nat2Z.id, take_ge, drop_ge in Htr1 by done.
    rewrite run_bind. cbn [fst snd]. rewrite Hrun1.
    destruct (IH s1) as (self' & Hrun & Htr).
    exists self'. split.
    + rewrite <-Hrun. f_equal. f_equal. f_equal.
      * rewrite Htr1. unfold len. rewrite length_app. cbn. lia.
      * unfold len. lia.
    + rewrite Htr, Htr1, <-app_assoc. done.
Qed.

(** ** TreeNode *)

Section TreeFacts.
Context {V : Type}.
Implicit Types (h : list (TreeNode.TreeNode V)) (s : shape V).

Lemma elem_of_concat {B} (x : B) (ls : list (list B)) :
  x ∈ concat ls ↔ ∃ l, x ∈ l ∧ l ∈ ls.
Proof.
  induction ls as [|l ls IH]; cbn [concat].
  - split; [by intros ?%elem_of_nil|by intros (l & _ & ?%elem_of_nil)].
  - rewrite elem_of_app, IH. split.
    + intros [?|(l' & ? & ?)]; [exists l; split; [done|by left]|].
      exists l'. split; [done|by right].
    + intros (l' & Hx & [->|?]%elem_of_cons); [by left|right; by exists l'].
Qed.

Lemma shape_rect_all (P : shape V → Prop) :
  (∀ r v kids, Forall P kids → P (Shape r v kids)) → ∀ s, P s.
Proof.
  intros HP. fix IH 1. intros [r v kids]. apply HP.
  induction kids as [|k kids IHkids]; constructor; [apply IH|apply IHkids].
Qed.

Lemma describes_unfold h r v kids :
  describes h (Shape r v kids)
  ↔ h !! r = Some {| TreeNode.value := v; TreeNode.children := root <$> kids |} ∧
    Forall (describes h) kids.
Proof.
  cbn [describes]. apply and_iff_compat_l.
  induction kids as [|k kids IH]; [by split; [constructor|]|].
  rewrite Forall_cons, IH. done.
Qed.

Lemma dfs_step (fuel : nat) h self :
  TreeNode.dfs (S fuel) h self
  = match h !! self with
    | None => TreeNode.NoSuchNode
    | Some n =>
        match dfs_each fuel h (TreeNode.children n) with
        | TreeNode.Yields vs => TreeNode.Yields (TreeNode.value n :: vs)
        | t => t
        end
    end.
Proof. reflexivity. Qed.

Lemma height_kid s (kids : list (shape V)) :
  s ∈ kids → (height s ≤ foldr Nat.max 0 (height <$> kids))%nat.
Proof.
  induction 1 as [s kids|s k kids _ IH]; cbn; lia.
Qed.

(** With as much fuel as the tree is high, the traversal of a node yields
    the pre-order of the tree that hangs from it. *)
Lemma dfs_describes h s : ∀ fuel : nat,
  describes h s → (height s ≤ fuel)%nat →
  TreeNode.dfs fuel h (root s) = TreeNode.Yields (preorder s).
Proof.
  induction s as [r v kids IH] using shape_rect_all.
  intros [|fuel] [Hr Hkids]%describes_unfold Hfuel; [cbn [height] in Hfuel; lia|].
  cbn [root preorder height] in *. rewrite dfs_step, Hr. cbn [TreeNode.children TreeNode.value].
  assert (dfs_each fuel h (root <$> kids) = TreeNode.Yields (concat (preorder <$> kids))) as ->;
    [|done].
  assert (Hh : ∀ k, k ∈ kids → (height k ≤ fuel)%nat).
  { intros k Hk%height_kid. lia. }
  clear Hfuel Hr. induction kids as [|k kids IHkids]; [done|].
  apply Forall_cons in IH as [IHk IH]. apply Forall_cons in Hkids as [Hk Hkids].
  cbn [fmap list_fmap dfs_each concat].
  rewrite IHk; [|done|apply Hh; by left].
  rewrite IHkids; [done..|]. intros k' ?. apply Hh. by right.
Qed.

(** Changing a node outside a tree leaves the tree as it is. *)
Lemma describes_insert h s (p : nat) n :
  p ∉ refs s → describes h s → describes (<[p:=n]> h) s.
Proof.
  induction s as [r v kids IH] using shape_rect_all.
  cbn [refs]. intros Hp [Hr Hkids]%describes_unfold. apply describes_unfold.
  apply not_elem_of_cons in Hp as [Hpr Hp]. split.
  - by rewrite list_lookup_insert_ne.
  - rewrite Forall_forall in IH, Hkids |- *. intros k Hk. apply IH; [done| |by apply Hkids].
    intros Hin. apply Hp. apply elem_of_concat. exists (refs k). split; [done|].
    by apply list_elem_of_fmap_2.
Qed.

(** Adding an object to the store leaves every tree as it is. *)
Lemma describes_app h s h' : describes h s → describes (h ++ h') s.
Proof.
  induction s as [r v kids IH] using shape_rect_all.
  intros [Hr Hkids]%describes_unfold. apply describes_unfold. split.
  - by apply lookup_app_l_Some.
  - rewrite Forall_forall in IH, Hkids |- *. intros k Hk. apply IH; [done|by apply Hkids].
Qed.

(** The store determines the tree that hangs from a node. *)
Lemma describes_inj h s1 : ∀ s2,
  describes h s1 → describes h s2 → root s1 = root s2 → s1 = s2.
Proof.
  induction s1 as [r v kids IH] using shape_rect_all.
  intros [r2 v2 kids2] [Hr Hkids]%describes_unfold [Hr2 Hkids2]%describes_unfold Heq.
  cbn in Heq. subst r2. rewrite Hr in Hr2. injection Hr2 as -> Hroots.
  f_equal. clear Hr. revert kids2 Hkids2 Hroots.
  induction kids as [|k kids IHkids]; intros [|k2 kids2] Hkids2 Hroots; try done.
  apply Forall_cons in IH as [IHk IH]. apply Forall_cons in Hkids as [Hk Hkids].
  apply Forall_cons in Hkids2 as [Hk2 Hkids2]. cbn in Hroots. injection Hroots as Hroot Hroots.
  f_equal; [by apply IHk|by apply IHkids].
Qed.

Lemma nodes_kid s (kids : list (shape V)) :
  s ∈ kids → (nodes s ≤ foldr Nat.add 0 (nodes <$> kids))%nat.
Proof.
  induction 1 as [s kids|s k kids _ IH]; cbn; lia.
Qed.

(** A reference met inside a tree heads a tree of its own, no larger. *)
Lemma refs_subtree h s (p : nat) :
  p ∈ refs s → describes h s →
  ∃ s', root s' = p ∧ describes h s' ∧ (nodes s' ≤ nodes s)%nat.
Proof.
  induction s as [r v kids IH] using shape_rect_all.
  cbn [refs]. intros [->|Hp]%elem_of_cons Hs.
  - by exists (Shape r v kids).
  - apply elem_of_concat in Hp as (l & Hp & (k & -> & Hk)%list_elem_of_fmap).
    apply describes_unfold in Hs as [_ Hkids].
    rewrite Forall_forall in IH, Hkids.
    destruct (IH k Hk Hp (Hkids k Hk)) as (s' & Hroot & Hs' & Hn).
    exists s'. split_and!; [done..|]. cbn [nodes]. apply nodes_kid in Hk. lia.
Qed.

(** No node lies below itself in a tree the store holds. *)
Lemma describes_acyclic h r v kids k :
  describes h (Shape r v kids) → k ∈ kids → r ∉ refs k.
Proof.
  intros Hs Hk Hin. pose proof Hs as [_ Hkids]%describes_unfold.
  rewrite Forall_forall in Hkids.
  destruct (refs_subtree h k r Hin (Hkids k Hk)) as (s' & Hroot & Hs' & Hn).
  assert (s' = Shape r v kids) as -> by (by apply (describes_inj h)).
  cbn [nodes] in Hn. apply nodes_kid in Hk. lia.
Qed.

End TreeFacts.

(** X21: [dfs] is a pre-order traversal: run to its end from a node, with
    the nesting of calls allowed to go as deep as the tree that hangs from
    the node is high, it yields the node's value first and then what the
    traversal of each child yields, the children from first to last. *)
Theorem tree_dfs_is_preorder {V} (h : list (TreeNode.TreeNode V)) (s : shape V)
    (fuel : nat) :
  describes h s → (height s ≤ fuel)%nat →
  TreeNode.dfs fuel h (root s) = TreeNode.Yields (preorder s).
Proof. apply dfs_describes. Qed.

(** The tree of the demonstration, built by the calls the demonstration
    makes: the three nodes, [root.add_child] twice, then the grandchildren
    added through the references to [A] and [B] that [root] already holds. *)
Example tree_demo :
  let '(root_, h) := TreeNode.__init__ "root" [] in
  let '(a, h) := TreeNode.__init__ "A" h in
  let '(b, h) := TreeNode.__init__ "B" h in
  let result :=
    h ← TreeNode.add_child root_ a h;
    h ← TreeNode.add_child root_ b h;
    let '(a1, h) := TreeNode.__init__ "A1" h in
    h ← TreeNode.add_child a a1 h;
    let '(b1, h) := TreeNode.__init__ "B1" h in
    h ← TreeNode.add_child b b1 h;
    let '(b2, h) := TreeNode.__init__ "B2" h in
    h ← TreeNode.add_child b b2 h;
    Some (TreeNode.dfs 3 h root_) in
  result = Some (TreeNode.Yields ["root"; "A"; "A1"; "B"; "B1"; "B2"]).
Proof. reflexivity. Qed.

Lemma tree_dfs_is_preorder_witness :
  TreeNode.dfs 3
    [ {| TreeNode.value := "root"; TreeNode.children := [1; 2]%nat |};
      {| TreeNode.value := "A"; TreeNode.children := [3]%nat |};
      {| TreeNode.value := "B"; TreeNode.children := [4; 5]%nat |};
      {| TreeNode.value := "A1"; TreeNode.children := [] |};
      {| TreeNode.value := "B1"; TreeNode.children := [] |};
      {| TreeNode.value := "B2"; TreeNode.children := [] |} ]
    (root (Shape 0 "root" [Shape 1 "A" [Shape 3 "A1" []];
                           Shape 2 "B" [Shape 4 "B1" []; Shape 5 "B2" []]]))
  = TreeNode.Yields
      (preorder (Shape 0 "root" [Shape 1 "A" [Shape 3 "A1" []];
                                 Shape 2 "B" [Shape 4 "B1" []; Shape 5 "B2" []]])).
Proof.
  apply tree_dfs_is_preorder.
  - cbn. repeat split.
  - vm_compute. lia.
Defined.

(** X22: [add_child] appends a subtree: when the node [p] is not a node of
    the tree that hangs from the new child, the tree that hangs from [p]
    afterwards is the old one with the child's tree added as the last child,
    so the traversal from [p] yields what it yielded before followed by what
    the traversal from the child yields. *)
Theorem tree_add_child_appends {V} (h : list (TreeNode.TreeNode V))
    (p : nat) (v : V) (kids : list (shape V)) (sc : shape V) :
  describes h (Shape p v kids) → describes h sc → p ∉ refs sc →
  ∃ h', TreeNode.add_child p (root sc) h = Some h' ∧
        describes h' (Shape p v (kids ++ [sc])) ∧
        ∀ fuel : nat, (height (Shape p v (kids ++ [sc])) ≤ fuel)%nat →
          TreeNode.dfs fuel h' p
          = TreeNode.Yields (preorder (Shape p v kids) ++ preorder sc).
Proof.
  intros Hp Hc Hfresh. pose proof Hp as [Hlk Hkids]%describes_unfold.
  unfold TreeNode.add_child. rewrite Hlk. cbn [TreeNode.value TreeNode.children].
  eexists. split; [reflexivity|].
  match goal with |- describes ?h' ?s' ∧ _ => assert (Hnew : describes h' s') end.
  { apply describes_unfold. split.
    - rewrite list_lookup_insert_eq by (by eapply lookup_lt_Some).
      by rewrite fmap_app.
    - apply Forall_app. split; [|by constructor; [apply describes_insert|]].
      rewrite Forall_forall in Hkids |- *. intros k Hk.
      apply describes_insert; [|by apply Hkids].
      by apply (describes_acyclic h p v kids). }
  split; [done|]. intros fuel Hfuel.
  pose proof (dfs_describes _ (Shape p v (kids ++ [sc])) fuel Hnew Hfuel) as Hd.
  cbn [root] in Hd. rewrite Hd. cbn [preorder]. rewrite fmap_app, concat_app. cbn [fmap list_fmap concat].
  by rewrite app_nil_r.
Qed.

Lemma tree_add_child_appends_witness :
  ∃ h', TreeNode.add_child 0 (root (Shape 2 "B" []))
          [ {| TreeNode.value := "root"; TreeNode.children := [1]%nat |};
            {| TreeNode.value := "A"; TreeNode.children := [] |};
            {| TreeNode.value := "B"; TreeNode.children := [] |} ] = Some h' ∧
        describes h' (Shape 0 "root" ([Shape 1 "A" []] ++ [Shape 2 "B" []])) ∧
        ∀ fuel : nat,
          (height (Shape 0 "root" ([Shape 1 "A" []] ++ [Shape 2 "B" []])) ≤ fuel)%nat →
          TreeNode.dfs fuel h' 0
          = TreeNode.Yields (preorder (Shape 0 "root" [Shape 1 "A" []])
                             ++ preorder (Shape 2 "B" [])).
Proof.
  apply tree_add_child_appends.
  - cbn. repeat split.
  - cbn. repeat split.
  - cbn. intros [?|?%elem_of_nil]%elem_of_cons; [discriminate|done].
Defined.

(** X23: [TreeNode(value)] makes a leaf: the traversal from the new node
    yields its value alone, and every tree the store held hangs from its node
    as before. *)
Theorem tree_new_node_is_leaf {V} (h : list (TreeNode.TreeNode V)) (v : V) :
  (TreeNode.__init__ v h).1 = length h ∧
  (∀ fuel : nat,
     TreeNode.dfs (S fuel) (TreeNode.__init__ v h).2 (TreeNode.__init__ v h).1
     = TreeNode.Yields [v]) ∧
  (∀ s, describes h s → describes (TreeNode.__init__ v h).2 s).
Proof.
  cbn [TreeNode.__init__ fst snd]. split_and!; [done| |].
  - intros fuel.
    apply (dfs_describes (h ++ [_]) (Shape (length h) v []) (S fuel)); [|cbn; lia].
    apply describes_unfold. split; [|done].
    by rewrite lookup_app_r, Nat.sub_diag by lia.
  - intros s Hs. by apply describes_app.
Qed.

(** X24: [add_child] has no guard against cycles: after a node was made
    its own child, the traversal from it comes to no end under any bound on
    the nesting of calls. *)
Theorem tree_self_child_never_finishes {V} (h : list (TreeNode.TreeNode V))
    (p : nat) (n : TreeNode.TreeNode V) :
  h !! p = Some n →
  ∃ h', TreeNode.add_child p p h = Some h' ∧
        ∀ (fuel : nat) vs, TreeNode.dfs fuel h' p ≠ TreeNode.Yields vs.
Proof.
  intros Hp. unfold TreeNode.add_child. rewrite Hp. eexists. split; [reflexivity|].
  set (h' := <[p := _]> h).
  assert (Hp' : h' !! p = Some {| TreeNode.value := TreeNode.value n;
                                  TreeNode.children := TreeNode.children n ++ [p] |}).
  { unfold h'. rewrite list_lookup_insert_eq; [done|by eapply lookup_lt_Some]. }
  clearbody h'. intros fuel. induction fuel as [|fuel IH]; intros vs; [done|].
  rewrite dfs_step, Hp'. cbn [TreeNode.value TreeNode.children].
  assert (Heach : ∀ cs ws, dfs_each fuel h' (cs ++ [p]) ≠ TreeNode.Yields ws).
  { induction cs as [|c cs IHcs]; intros ws; cbn [app dfs_each].
    - destruct (TreeNode.dfs fuel h' p) as [us| |] eqn:Hd; [by destruct (IH us)|done..].
    - destruct (TreeNode.dfs fuel h' c); [|done..].
      destruct (dfs_each fuel h' (cs ++ [p])) as [us| |] eqn:He; [by destruct (IHcs us)|done..]. }
  destruct (dfs_each fuel h' (TreeNode.children n ++ [p])) as [us| |] eqn:He;
    [by destruct (Heach (TreeNode.children n) us)|done..].
Qed.

Lemma tree_self_child_never_finishes_witness :
  ∃ h', TreeNode.add_child 0 0 [ {| TreeNode.value := "root"; TreeNode.children := [] |} ]
        = Some h' ∧
        ∀ (fuel : nat) vs, TreeNode.dfs fuel h' 0 ≠ TreeNode.Yields vs.
Proof.
  apply (tree_self_child_never_finishes _ 0%nat
           {| TreeNode.value := "root"; TreeNode.children := [] |}).
  reflexivity.
Defined.
